(** * Weavr workflow engine: a shallow embedding and its verified properties

    The development follows the TypeScript sources of the engine:
    - [types/workflow.ts]                      the data model,
    - [lib/workflow-engine/executor.ts]        [WorkflowExecutor],
    - [lib/workflow-engine/retry-handler.ts]   [RetryHandler],
    - [lib/workflow-engine/parallel-executor.ts] [ParallelExecutor],
    - [lib/nodes/condition-executor.ts]        [ConditionExecutor],
    - [lib/nodes/loop-executor.ts]             [LoopExecutor],
    - [lib/nodes/approval-executor.ts]         [ApprovalExecutor],
    - [lib/nodes/spawn-executor.ts]            [SpawnExecutor],
    - [lib/nodes/agent-executor.ts]            the retry loop of [AgentExecutor],
    - [lib/nodes/trigger-executor.ts]          [TriggerExecutor],
    - [lib/redis.ts]                           [RedisClient], [InMemoryRedis].

    JavaScript records used as dictionaries are finite maps ([gmap string _])
    of their own properties; where the engine reads a visit count or a
    placeholder under a name that every object inherits, the read finds what
    is inherited, as in the code.  [Set<string>] is [gset string], arrays are
    lists, [any] payloads are JSON trees ([JValue]).  Promises are run to
    completion: an [async] method is a function on the explicit store it
    reads and writes. *)

From Stdlib Require Import ZArith QArith String Ascii List Lia DecimalString.
From stdpp Require Import base gmap strings list.

Set Warnings "-register-all".

Local Open Scope string_scope.
Local Open Scope list_scope.
Local Open Scope nat_scope.

(** ** JSON payloads ([any], [Record<string, any>])

    Numbers are the integers; an object lists its own properties in insertion
    order.  [JStepResultsRef] is not a JSON value: it stands for the
    [stepResults] object of the running execution held by reference, as in
    [{ ...context }] and [stepResults: context.stepResults], which copy the
    reference and not the record. *)

Inductive JValue : Type :=
| JUndef : JValue
| JNull : JValue
| JBool : bool -> JValue
| JNum : Z -> JValue
| JStr : string -> JValue
| JArr : list JValue -> JValue
| JObj : list (string * JValue) -> JValue
| JStepResultsRef : JValue.

(** Failure of a call: [Throw] carries the message of the thrown error. *)
Inductive Result (A : Type) : Type :=
| Ok : A -> Result A
| Throw : string -> Result A.
Arguments Ok {A} _.
Arguments Throw {A} _.

(** JavaScript truthiness, as used by [||], [!] and [if]. *)
Definition truthy (v : JValue) : bool :=
  match v with
  | JUndef | JNull => false
  | JBool b => b
  | JNum z => negb (Z.eqb z 0)
  | JStr s => negb (String.eqb s "")
  | JArr _ | JObj _ | JStepResultsRef => true
  end.

(** *** Objects as ordered property lists, without repeated keys *)

Fixpoint objGet {A : Type} (k : string) (o : list (string * A)) : option A :=
  match o with
  | [] => None
  | (k', v) :: rest => if String.eqb k k' then Some v else objGet k rest
  end.

(** [o[k] = v]: an existing property keeps its place. *)
Fixpoint objSet {A : Type} (k : string) (v : A) (o : list (string * A))
    : list (string * A) :=
  match o with
  | [] => [(k, v)]
  | (k', v') :: rest =>
      if String.eqb k k' then (k, v) :: rest else (k', v') :: objSet k v rest
  end.

(** [{ ...o, ...extra }] *)
Definition objSpread {A : Type} (o extra : list (string * A)) : list (string * A) :=
  fold_left (fun acc kv => objSet (fst kv) (snd kv) acc) extra o.

(** Property read [o.k]: a missing key or a non-object gives [undefined]. *)
Definition jget (k : string) (v : JValue) : JValue :=
  match v with
  | JObj fields => match objGet k fields with
                   | Some x => x
                   | None => JUndef
                   end
  | _ => JUndef
  end.

(** ** Data model ([types/workflow.ts]) *)

Inductive NodeType : Type :=
| NT_trigger | NT_action | NT_agent | NT_human_approval
| NT_condition | NT_loop | NT_spawn_agent.

Inductive ExecutionStatus : Type :=
| running | paused | completed | failed | cancelled.

Inductive NodeStatus : Type :=
| NS_pending | NS_running | NS_completed | NS_failed | NS_skipped.

#[global] Instance NodeType_eq_dec : EqDecision NodeType.
Proof. solve_decision. Defined.
#[global] Instance ExecutionStatus_eq_dec : EqDecision ExecutionStatus.
Proof. solve_decision. Defined.
#[global] Instance NodeStatus_eq_dec : EqDecision NodeStatus.
Proof. solve_decision. Defined.

(** [data.config : Record<string, any>]: every field may be missing.  The
    fields are those of the configuration interfaces the executors below cast
    the record to ([LoopNodeConfig], [ConditionNodeConfig],
    [ApprovalNodeConfig]). *)
Record NodeConfig : Type := mkNodeConfig {
  maxIterations : option Z;
  exitCondition : option string;
  loopVariable : option string;
  expression : option string;
  approvalMessage : option string;
  approverEmail : option string;
  timeoutMinutes : option Z
}.

Definition emptyConfig : NodeConfig :=
  mkNodeConfig None None None None None None None.

Record WorkflowNode : Type := mkNode {
  node_id : string;
  node_type : NodeType;
  node_label : string;
  node_config : NodeConfig
}.

Record WorkflowEdge : Type := mkEdge {
  edge_id : string;
  source : string;
  target : string;
  condition : option string
}.

Record Workflow : Type := mkWorkflow {
  wf_id : string;
  nodes : list WorkflowNode;
  edges : list WorkflowEdge
}.

(** [workflow.nodes.find(n => n.id === id)] *)
Definition findNode (ns : list WorkflowNode) (nid : string) : option WorkflowNode :=
  List.find (fun n => String.eqb (node_id n) nid) ns.

(** ** Cycle detection ([LoopExecutor.detectCycles]) *)

Record DfsState : Type := mkDfs {
  cycles : list (list string);
  dfs_visited : gset string;
  recursionStack : gset string
}.

(** [path.indexOf(x)], [-1] being [None]. *)
Fixpoint indexOf (x : string) (path : list string) : option nat :=
  match path with
  | [] => None
  | y :: rest => if String.eqb y x then Some 0 else option_map S (indexOf x rest)
  end.

(** [path.slice(path.indexOf(x))]; [slice(-1)] keeps the last element. *)
Definition sliceFromIndexOf (x : string) (path : list string) : list string :=
  match indexOf x path with
  | Some i => drop i path
  | None => drop (length path - 1) path
  end.

Definition outgoingEdges (es : list WorkflowEdge) (nid : string) : list WorkflowEdge :=
  List.filter (fun e => String.eqb (source e) nid) es.

(** Sequencing of the [for] loop over the outgoing edges. *)
Fixpoint forEdges (body : WorkflowEdge -> DfsState -> option DfsState)
    (es : list WorkflowEdge) (st : DfsState) : option DfsState :=
  match es with
  | [] => Some st
  | e :: rest =>
      match body e st with
      | Some st' => forEdges body rest st'
      | None => None
      end
  end.

(** The recursive closure [dfs]; [fuel] bounds the recursion depth and [None]
    means the bound was hit. *)
Fixpoint dfs (fuel : nat) (es : list WorkflowEdge) (nodeId : string)
    (path : list string) (st : DfsState) : option DfsState :=
  match fuel with
  | O => None
  | S fuel' =>
      if decide (nodeId ∈ recursionStack st) then
        Some (mkDfs (cycles st ++ [sliceFromIndexOf nodeId path])
                    (dfs_visited st) (recursionStack st))
      else if decide (nodeId ∈ dfs_visited st) then Some st
      else
        let st1 := mkDfs (cycles st) ({[nodeId]} ∪ dfs_visited st)
                         ({[nodeId]} ∪ recursionStack st) in
        match forEdges (fun e => dfs fuel' es (target e) (path ++ [nodeId]))
                       (outgoingEdges es nodeId) st1 with
        | Some st2 =>
            Some (mkDfs (cycles st2) (dfs_visited st2)
                        (recursionStack st2 ∖ {[nodeId]}))
        | None => None
        end
  end.

Fixpoint forNodes (fuel : nat) (es : list WorkflowEdge) (ns : list WorkflowNode)
    (st : DfsState) : option DfsState :=
  match ns with
  | [] => Some st
  | n :: rest =>
      if decide (node_id n ∈ dfs_visited st) then forNodes fuel es rest st
      else
        match dfs fuel es (node_id n) [] st with
        | Some st' => forNodes fuel es rest st'
        | None => None
        end
  end.

(** Every identifier the search can meet: node ids and edge targets. *)
Definition dfsUniverse (w : Workflow) : list string :=
  map node_id (nodes w) ++ map target (edges w).

Definition detectCyclesRun (w : Workflow) : option DfsState :=
  forNodes (S (length (dfsUniverse w))) (edges w) (nodes w) (mkDfs [] ∅ ∅).

Definition detectCycles (w : Workflow) : list (list string) :=
  match detectCyclesRun w with
  | Some st => cycles st
  | None => []
  end.

(** ** Validation ([WorkflowExecutor.validateWorkflow]) *)

Record ValidationResult : Type := mkValidation {
  isValid : bool;
  errors : list string
}.

(** [new Set(list)] iterated in insertion order. *)
Definition insertionOrder (l : list string) : list string :=
  fold_left (fun acc x => if decide (x ∈ acc) then acc else acc ++ [x]) l [].

Definition connectedNodeIds (es : list WorkflowEdge) : gset string :=
  fold_left (fun s e => {[target e]} ∪ ({[source e]} ∪ s)) es ∅.

Definition isTrigger (n : WorkflowNode) : bool :=
  bool_decide (node_type n = NT_trigger).

(** [workflow.nodes.find(n => n.id === nodeId)?.type !== 'trigger'] *)
Definition notTriggerById (ns : list WorkflowNode) (nid : string) : bool :=
  match findNode ns nid with
  | Some n => negb (isTrigger n)
  | None => true
  end.

Definition orphanErrors (w : Workflow) : list string :=
  flat_map
    (fun nid =>
       if negb (bool_decide (nid ∈ connectedNodeIds (edges w)))
          && notTriggerById (nodes w) nid
       then ["Node " +:+ nid +:+ " is not connected to the workflow"]
       else [])
    (insertionOrder (map node_id (nodes w))).

(** The result and, beside it, what is handed to [console.warn]. *)
Definition validateWorkflow (w : Workflow) : ValidationResult * list (list string) :=
  let triggerNodes := List.filter isTrigger (nodes w) in
  let errors0 :=
    if Nat.eqb (length triggerNodes) 0
    then ["Workflow must have at least one trigger node"] else [] in
  let errs := errors0 ++ orphanErrors w in
  let warned := detectCycles w in
  (mkValidation (Nat.eqb (length errs) 0) errs, warned).

(** ** The host language *)

(** Numbers are IEEE doubles: sums and products are rounded, and what
    [Math.pow] returns is left to the implementation.  Lower-casing follows
    the tables of Unicode.  None of this is code of the repository: the
    operations are parameters, and nothing is assumed of them.  [numOfQ] is
    the number that a literal or a configured value denotes. *)
Class Language : Type := mkLanguage {
  number : Type;
  numOfQ : Q -> number;
  numAdd : number -> number -> number;      (* [a + b] *)
  numMul : number -> number -> number;      (* [a * b] *)
  numPow : number -> Z -> number;           (* [Math.pow(a, n)] *)
  toLowerCase : string -> string            (* [s.toLowerCase()] *)
}.

Definition numOfZ {lang : Language} (z : Z) : number := numOfQ (inject_Z z).

(** [hay.includes(needle)] *)
Fixpoint includes (needle hay : string) : bool :=
  String.prefix needle hay ||
  match hay with
  | EmptyString => false
  | String _ rest => includes needle rest
  end.

(** ** Retry handler ([RetryHandler]) *)

Record RetryConfig : Type := mkRetryConfig {
  maxRetries : Z;
  retryDelayMs : Q;
  backoffMultiplier : Q;
  retryableErrors : list string
}.

(** [Partial<RetryConfig>] *)
Record PartialRetryConfig : Type := mkPartialRetryConfig {
  p_maxRetries : option Z;
  p_retryDelayMs : option Q;
  p_backoffMultiplier : option Q;
  p_retryableErrors : option (list string)
}.

(** [x || d] on an optional number: a missing value and zero give [d]. *)
Definition orZ (x : option Z) (d : Z) : Z :=
  match x with
  | Some z => if Z.eqb z 0 then d else z
  | None => d
  end.

Definition orQ (x : option Q) (d : Q) : Q :=
  match x with
  | Some q => if Qeq_bool q 0 then d else q
  | None => d
  end.

(** The constructor of [RetryHandler]. *)
Definition newRetryHandler (config : PartialRetryConfig) : RetryConfig :=
  mkRetryConfig
    (orZ (p_maxRetries config) 3)
    (orQ (p_retryDelayMs config) 1000)
    (orQ (p_backoffMultiplier config) 2)
    (match p_retryableErrors config with
     | Some l => l
     | None => ["timeout"; "network"; "rate_limit"; "temporary"; "unavailable"]
     end).

(** What one call of the operation does: it resolves, or it throws an
    [Error] carrying a message, or it throws something that is not an
    [Error]. *)
Inductive Outcome : Type :=
| Resolved : JValue -> Outcome
| ThrewError : string -> Outcome
| ThrewOther : Outcome.

Section Retry.
Context {lang : Language}.

Record RetryResult : Type := mkRetryResult {
  rr_success : bool;
  rr_result : option JValue;
  rr_error : option string;
  rr_attempts : Z;
  rr_totalDelayMs : number
}.

(** The observable effects of a run, in order. *)
Inductive RetryEvent : Type :=
| Call : nat -> RetryEvent
| Sleep : number -> RetryEvent.

(** [isRetryableError] *)
Definition isRetryableError (cfg : RetryConfig) (message : string) : bool :=
  let errorMessage := toLowerCase message in
  existsb (fun retryableError => includes (toLowerCase retryableError) errorMessage)
          (retryableErrors cfg).

(** [this.config.retryDelayMs * Math.pow(this.config.backoffMultiplier,
    attempt - 1)] *)
Definition backoffDelay (cfg : RetryConfig) (attempt : nat) : number :=
  numMul (numOfQ (retryDelayMs cfg))
         (numPow (numOfQ (backoffMultiplier cfg)) (Z.of_nat attempt - 1)).

(** The [return] after the [for] loop. *)
Definition retriesExceeded (cfg : RetryConfig) (lastError : option string)
    (totalDelayMs : number) : RetryResult :=
  mkRetryResult false None
    (Some (match lastError with
           | Some m => if String.eqb m "" then "Max retries exceeded" else m
           | None => "Max retries exceeded"
           end))
    (maxRetries cfg) totalDelayMs.

(** The [for (attempt = 1; attempt <= maxRetries; attempt++)] loop.  The
    operation is a function of the attempt number, since it is called once per
    attempt; [todo] is the number of iterations the loop condition still
    admits. *)
Fixpoint retryLoop (cfg : RetryConfig) (operation : nat -> Outcome)
    (todo : nat) (attempt : nat) (lastError : option string)
    (totalDelayMs : number) (trace : list RetryEvent) : RetryResult * list RetryEvent :=
  match todo with
  | O => (retriesExceeded cfg lastError totalDelayMs, trace)
  | S todo' =>
      let trace1 := trace ++ [Call attempt] in
      match operation attempt with
      | Resolved v =>
          (mkRetryResult true (Some v) None (Z.of_nat attempt) totalDelayMs, trace1)
      | thrown =>
          let message :=
            match thrown with ThrewError m => m | _ => "Unknown error" end in
          if negb (isRetryableError cfg message) then
            (mkRetryResult false None (Some message) (Z.of_nat attempt) totalDelayMs,
             trace1)
          else if Z.eqb (Z.of_nat attempt) (maxRetries cfg) then
            (retriesExceeded cfg (Some message) totalDelayMs, trace1)
          else
            let delay := backoffDelay cfg attempt in
            retryLoop cfg operation todo' (S attempt) (Some message)
                      (numAdd totalDelayMs delay) (trace1 ++ [Sleep delay])
      end
  end.

(** [executeWithRetry] *)
Definition executeWithRetry (cfg : RetryConfig) (operation : nat -> Outcome)
    : RetryResult * list RetryEvent :=
  retryLoop cfg operation (Z.to_nat (maxRetries cfg)) 1 None (numOfZ 0) [].

End Retry.

(** ** [JSON.stringify] and the round trip through the store *)

Definition dquote : string := String (ascii_of_nat 34) EmptyString.
Definition backslash : string := String (ascii_of_nat 92) EmptyString.

Definition hexDigit (n : nat) : string :=
  String (ascii_of_nat (if n <? 10 then 48 + n else 87 + n)) EmptyString.

(** The escape of one character inside a JSON string. *)
Definition escapeChar (c : ascii) : string :=
  let n := nat_of_ascii c in
  if n =? 34 then backslash +:+ dquote
  else if n =? 92 then backslash +:+ backslash
  else if n =? 8 then backslash +:+ "b"
  else if n =? 9 then backslash +:+ "t"
  else if n =? 10 then backslash +:+ "n"
  else if n =? 12 then backslash +:+ "f"
  else if n =? 13 then backslash +:+ "r"
  else if n <? 32 then backslash +:+ "u00" +:+ hexDigit (n / 16) +:+ hexDigit (n mod 16)
  else String c EmptyString.

Fixpoint escapeString (s : string) : string :=
  match s with
  | EmptyString => EmptyString
  | String c rest => escapeChar c +:+ escapeString rest
  end.

Definition quoteString (s : string) : string := dquote +:+ escapeString s +:+ dquote.

Definition stringOfZ (z : Z) : string := NilZero.string_of_int (Z.to_int z).

Fixpoint joinWith (sep : string) (parts : list string) : string :=
  match parts with
  | [] => ""
  | [x] => x
  | x :: rest => x +:+ sep +:+ joinWith sep rest
  end.

(** Does the value hold the live [stepResults] record by reference? *)
Fixpoint holdsStepResultsRef (v : JValue) : bool :=
  match v with
  | JStepResultsRef => true
  | JArr items => existsb holdsStepResultsRef items
  | JObj fields => existsb (fun kv => holdsStepResultsRef (snd kv)) fields
  | _ => false
  end.

(** [JSON.stringify(v)] on a value without references; [None] is the
    [undefined] it returns for [undefined].  Inside an array [undefined]
    prints as [null], inside an object the property is left out. *)
Fixpoint JSON_stringify (v : JValue) : option string :=
  match v with
  | JUndef | JStepResultsRef => None
  | JNull => Some "null"
  | JBool true => Some "true"
  | JBool false => Some "false"
  | JNum z => Some (stringOfZ z)
  | JStr s => Some (quoteString s)
  | JArr items =>
      Some ("[" +:+ joinWith ","
              (map (fun x => match JSON_stringify x with
                             | Some t => t
                             | None => "null"
                             end) items) +:+ "]")
  | JObj fields =>
      Some ("{" +:+ joinWith ","
              (flat_map (fun kv => match JSON_stringify (snd kv) with
                                   | Some t => [quoteString (fst kv) +:+ ":" +:+ t]
                                   | None => []
                                   end) fields) +:+ "}")
  end.

(** [JSON.parse(JSON.stringify(v))] on a value without references. *)
Fixpoint jsonRoundTrip (v : JValue) : JValue :=
  match v with
  | JArr items =>
      JArr (map (fun x => match jsonRoundTrip x with
                          | JUndef => JNull
                          | y => y
                          end) items)
  | JObj fields =>
      JObj (flat_map (fun kv => match jsonRoundTrip (snd kv) with
                                | JUndef => []
                                | y => [(fst kv, y)]
                                end) fields)
  | _ => v
  end.

(** The same with every reference to the live record replaced by the
    record's present content, as serialising an acyclic structure does. *)
Fixpoint resolveRefs (live : list (string * JValue)) (v : JValue) : JValue :=
  match v with
  | JStepResultsRef => JObj live
  | JArr items => JArr (map (resolveRefs live) items)
  | JObj fields => JObj (map (fun kv => (fst kv, resolveRefs live (snd kv))) fields)
  | _ => v
  end.

(** ** Execution state and the durable store ([RedisClient]) *)

Record ExecutionContext : Type := mkContext {
  workflowId : string;
  executionId : string;
  status : ExecutionStatus;
  currentNodeId : option string;
  stepResults : gmap string JValue;
  variables : gmap string JValue;
  startedAt : Z;
  updatedAt : Z;
  completedAt : option Z;
  error : option string;
  nodeStatuses : gmap string NodeStatus;
  nodeVisitCounts : gmap string nat;
  parentExecutionId : option string;
  childExecutionIds : list string
}.

Record ApprovalRequest : Type := mkApprovalRequest {
  ar_executionId : string;
  ar_nodeId : string;
  ar_message : string;
  ar_data : JValue;
  ar_timeoutAt : option Z
}.

(** The keys [execution:<id>], [approval:<id>] and [workflow:<id>] are three
    maps; [clock] is what [Date.now()] reads.  Entries are read before their
    time-to-live runs out. *)
Record Store : Type := mkStore {
  executionsKV : gmap string ExecutionContext;
  approvalsKV : gmap string ApprovalRequest;
  workflowsKV : gmap string Workflow;
  clock : Z
}.

Definition set_status (s : ExecutionStatus) (c : ExecutionContext) : ExecutionContext :=
  mkContext (workflowId c) (executionId c) s (currentNodeId c) (stepResults c)
    (variables c) (startedAt c) (updatedAt c) (completedAt c) (error c)
    (nodeStatuses c) (nodeVisitCounts c) (parentExecutionId c) (childExecutionIds c).

Definition set_currentNodeId (n : option string) (c : ExecutionContext) : ExecutionContext :=
  mkContext (workflowId c) (executionId c) (status c) n (stepResults c)
    (variables c) (startedAt c) (updatedAt c) (completedAt c) (error c)
    (nodeStatuses c) (nodeVisitCounts c) (parentExecutionId c) (childExecutionIds c).

Definition set_stepResults (r : gmap string JValue) (c : ExecutionContext) : ExecutionContext :=
  mkContext (workflowId c) (executionId c) (status c) (currentNodeId c) r
    (variables c) (startedAt c) (updatedAt c) (completedAt c) (error c)
    (nodeStatuses c) (nodeVisitCounts c) (parentExecutionId c) (childExecutionIds c).

Definition set_variables (v : gmap string JValue) (c : ExecutionContext) : ExecutionContext :=
  mkContext (workflowId c) (executionId c) (status c) (currentNodeId c) (stepResults c)
    v (startedAt c) (updatedAt c) (completedAt c) (error c)
    (nodeStatuses c) (nodeVisitCounts c) (parentExecutionId c) (childExecutionIds c).

Definition set_updatedAt (t : Z) (c : ExecutionContext) : ExecutionContext :=
  mkContext (workflowId c) (executionId c) (status c) (currentNodeId c) (stepResults c)
    (variables c) (startedAt c) t (completedAt c) (error c)
    (nodeStatuses c) (nodeVisitCounts c) (parentExecutionId c) (childExecutionIds c).

Definition set_completedAt (t : option Z) (c : ExecutionContext) : ExecutionContext :=
  mkContext (workflowId c) (executionId c) (status c) (currentNodeId c) (stepResults c)
    (variables c) (startedAt c) (updatedAt c) t (error c)
    (nodeStatuses c) (nodeVisitCounts c) (parentExecutionId c) (childExecutionIds c).

Definition set_error (e : option string) (c : ExecutionContext) : ExecutionContext :=
  mkContext (workflowId c) (executionId c) (status c) (currentNodeId c) (stepResults c)
    (variables c) (startedAt c) (updatedAt c) (completedAt c) e
    (nodeStatuses c) (nodeVisitCounts c) (parentExecutionId c) (childExecutionIds c).

Definition set_nodeStatuses (m : gmap string NodeStatus) (c : ExecutionContext)
    : ExecutionContext :=
  mkContext (workflowId c) (executionId c) (status c) (currentNodeId c) (stepResults c)
    (variables c) (startedAt c) (updatedAt c) (completedAt c) (error c)
    m (nodeVisitCounts c) (parentExecutionId c) (childExecutionIds c).

Definition set_nodeVisitCounts (m : gmap string nat) (c : ExecutionContext)
    : ExecutionContext :=
  mkContext (workflowId c) (executionId c) (status c) (currentNodeId c) (stepResults c)
    (variables c) (startedAt c) (updatedAt c) (completedAt c) (error c)
    (nodeStatuses c) m (parentExecutionId c) (childExecutionIds c).

(** *** Visit counts

    [nodeVisitCounts] is a plain object, [{}] at the start of a run.  Under a
    name that objects inherit from [Object.prototype] the read
    [nodeVisitCounts[id]] finds the inherited function (for [__proto__], the
    prototype itself) and no number: [(nodeVisitCounts[id] || 0) + 1] is then
    the text of what was found followed by the digit 1, and the next visits
    append one more digit each.  The map holds the own properties of the
    object: under a name that is not inherited the number of visits, under
    an inherited name the number of digits appended so far. *)
Definition inheritedNames : list string :=
  [ "constructor"; "hasOwnProperty"; "isPrototypeOf"; "propertyIsEnumerable";
    "toLocaleString"; "toString"; "valueOf"; "__proto__";
    "__defineGetter__"; "__defineSetter__"; "__lookupGetter__"; "__lookupSetter__" ].

Definition inheritedName (nid : string) : bool := bool_decide (nid ∈ inheritedNames).

(** [String(Object.prototype[name])] *)
Definition inheritedText (nid : string) : string :=
  if String.eqb nid "__proto__" then "[object Object]"
  else if String.eqb nid "constructor" then "function Object() { [native code] }"
  else "function " +:+ nid +:+ "() { [native code] }".

Fixpoint ones (k : nat) : string :=
  match k with
  | O => EmptyString
  | S k' => String "1" (ones k')
  end.

(** What is read as a count: a number, or a text that is not the text of a
    number. *)
Inductive VisitCount : Type :=
| CountNumber : Z -> VisitCount
| CountText : string -> VisitCount.

(** The entry of the map under the name, 0 when there is none. *)
Definition visitCountOf (c : ExecutionContext) (nid : string) : nat :=
  match nodeVisitCounts c !! nid with
  | Some n => n
  | None => 0
  end.

(** [context.nodeVisitCounts[id] || 0]; an inherited function stands here
    as its text, which is what [+] and the comparisons make of it. *)
Definition readVisitCount (c : ExecutionContext) (nid : string) : VisitCount :=
  if inheritedName nid
  then CountText (inheritedText nid +:+ ones (visitCountOf c nid))
  else CountNumber (Z.of_nat (visitCountOf c nid)).

(** [count + 1]: a sum of numbers, or the text with one digit more. *)
Definition plusOne (count : VisitCount) : VisitCount :=
  match count with
  | CountNumber n => CountNumber (n + 1)%Z
  | CountText text => CountText (text +:+ "1")
  end.

Definition countValue (count : VisitCount) : JValue :=
  match count with
  | CountNumber n => JNum n
  | CountText text => JStr text
  end.

(** [count >= limit] and [count > limit]: the text is converted to [NaN],
    and a comparison with [NaN] is false. *)
Definition reaches (count : VisitCount) (limit : Z) : bool :=
  match count with
  | CountNumber n => (limit <=? n)%Z
  | CountText _ => false
  end.

Definition exceeds (count : VisitCount) (limit : Z) : bool :=
  match count with
  | CountNumber n => (limit <? n)%Z
  | CountText _ => false
  end.

(** [context.nodeVisitCounts[id] = (context.nodeVisitCounts[id] || 0) + 1].
    An object without an own property [__proto__] takes an assignment of a
    text to [__proto__] for an attempt to change its prototype, and ignores
    it. *)
Definition countVisit (c : ExecutionContext) (nid : string) : gmap string nat :=
  if String.eqb nid "__proto__" && bool_decide (nodeVisitCounts c !! nid = None)
  then nodeVisitCounts c
  else <[nid := visitCountOf c nid + 1]> (nodeVisitCounts c).

(** The entry as [JSON.stringify] prints it. *)
Definition storedCount (nid : string) (n : nat) : JValue :=
  if inheritedName nid then JStr (inheritedText nid +:+ ones n) else JNum (Z.of_nat n).

Definition set_executionsKV (m : gmap string ExecutionContext) (s : Store) : Store :=
  mkStore m (approvalsKV s) (workflowsKV s) (clock s).

Definition set_approvalsKV (m : gmap string ApprovalRequest) (s : Store) : Store :=
  mkStore (executionsKV s) m (workflowsKV s) (clock s).

(** [JSON.stringify] meets the record it started from when a step result
    holds the live [stepResults] by reference, and then throws. *)
Definition circularMessage : string := "Converting circular structure to JSON".

Definition isCircular (results : gmap string JValue) : bool :=
  existsb (fun kv => holdsStepResultsRef (snd kv)) (map_to_list results).

(** What [JSON.parse(JSON.stringify(m))] keeps of a dictionary. *)
Definition roundTripMap (m : gmap string JValue) : gmap string JValue :=
  omap (fun v => match jsonRoundTrip v with
                 | JUndef => None
                 | y => Some y
                 end) m.

Definition serialized (c : ExecutionContext) : ExecutionContext :=
  set_variables (roundTripMap (variables c))
    (set_stepResults (roundTripMap (stepResults c)) c).

(** [redisClient.saveExecution] *)
Definition saveExecution (c : ExecutionContext) (s : Store) : Result Store :=
  if isCircular (stepResults c) then Throw circularMessage
  else Ok (set_executionsKV (<[executionId c := serialized c]> (executionsKV s)) s).

(** [redisClient.getExecution] *)
Definition getExecution (eid : string) (s : Store) : option ExecutionContext :=
  executionsKV s !! eid.

(** [Partial<ExecutionContext>], with the fields the callers pass. *)
Record ExecutionUpdates : Type := mkUpdates {
  u_currentNodeId : option string;
  u_stepResults : option (gmap string JValue);
  u_error : option string;
  u_completedAt : option Z
}.

Definition applyUpdates (u : ExecutionUpdates) (c : ExecutionContext) : ExecutionContext :=
  let c1 := match u_currentNodeId u with
            | Some n => set_currentNodeId (Some n) c
            | None => c
            end in
  let c2 := match u_stepResults u with
            | Some r => set_stepResults r c1
            | None => c1
            end in
  let c3 := match u_error u with
            | Some e => set_error (Some e) c2
            | None => c2
            end in
  match u_completedAt u with
  | Some t => set_completedAt (Some t) c3
  | None => c3
  end.

(** [redisClient.updateExecutionStatus] *)
Definition updateExecutionStatus (eid : string) (st : ExecutionStatus)
    (updates : ExecutionUpdates) (s : Store) : Result Store :=
  match getExecution eid s with
  | None => Throw ("Execution " +:+ eid +:+ " not found")
  | Some execution =>
      saveExecution
        (set_updatedAt (clock s) (set_status st (applyUpdates updates execution))) s
  end.

(** [redisClient.saveApprovalRequest]; the request is stored as serialised,
    references followed. *)
Definition saveApprovalRequest (live : gmap string JValue) (approval : ApprovalRequest)
    (s : Store) : Result Store :=
  if holdsStepResultsRef (ar_data approval) && isCircular live then Throw circularMessage
  else
    let stored :=
      mkApprovalRequest (ar_executionId approval) (ar_nodeId approval)
        (ar_message approval)
        (jsonRoundTrip (resolveRefs (map_to_list live) (ar_data approval)))
        (ar_timeoutAt approval) in
    Ok (set_approvalsKV (<[ar_executionId approval := stored]> (approvalsKV s)) s).

Definition getApprovalRequest (eid : string) (s : Store) : option ApprovalRequest :=
  approvalsKV s !! eid.

Definition deleteApprovalRequest (eid : string) (s : Store) : Store :=
  set_approvalsKV (delete eid (approvalsKV s)) s.

Definition getWorkflow (wid : string) (s : Store) : option Workflow :=
  workflowsKV s !! wid.

(** ** The host: what runs outside the engine

    [new Function(...keys, body)(...values)] compiles and runs JavaScript; the
    action, agent and spawn executors reach the network, and the trigger
    executor is taken with them.  Both are parameters, and nothing is assumed
    of them. *)

Inductive HostValue : Type :=
| HJson : JValue -> HostValue     (* data *)
| HFunction : HostValue           (* [now], [String], [Array], ... *)
| HNamespace : HostValue.         (* [Math], [JSON] *)

Record NodeResult : Type := mkNodeResult {
  nr_success : bool;
  nr_data : JValue;
  nr_error : option string
}.

Class Host : Type := mkHost {
  runFunction : list (string * HostValue) -> string -> Result JValue;
  externalExecute :
    WorkflowNode -> ExecutionContext -> JValue -> Store -> Result NodeResult * Store
}.

(** ** Guard expressions ([ConditionExecutor], [LoopExecutor]) *)

Definition inRange (lo hi n : nat) : bool := (lo <=? n) && (n <=? hi).

(** [\w] *)
Definition isWordChar (c : ascii) : bool :=
  let n := nat_of_ascii c in
  inRange 48 57 n || inRange 65 90 n || inRange 97 122 n || (n =? 95).

(** [\s] on ASCII *)
Definition isSpace (c : ascii) : bool :=
  let n := nat_of_ascii c in inRange 9 13 n || (n =? 32).

Fixpoint takeWord (s : string) : string * string :=
  match s with
  | EmptyString => (EmptyString, EmptyString)
  | String c rest =>
      if isWordChar c
      then let '(w, r) := takeWord rest in (String c w, r)
      else (EmptyString, s)
  end.

Fixpoint skipSpaces (s : string) : string :=
  match s with
  | String c rest => if isSpace c then skipSpaces rest else s
  | EmptyString => EmptyString
  end.

Definition stripPrefix (p s : string) : option string :=
  if String.prefix p s
  then Some (String.substring (String.length p) (String.length s - String.length p) s)
  else None.

(** The regular expressions of [containsUnsafeCode]. *)
Inductive UnsafePattern : Type :=
| PLiteral : string -> UnsafePattern      (* /constructor/, /process\./ *)
| PCall : string -> UnsafePattern         (* /eval\s*\(/ *)
| PSpaced : string -> UnsafePattern.      (* /import\s+/ *)

Definition matchesHere (p : UnsafePattern) (s : string) : bool :=
  match p with
  | PLiteral l => String.prefix l s
  | PCall l =>
      match stripPrefix l s with
      | Some r => String.prefix "(" (skipSpaces r)
      | None => false
      end
  | PSpaced l =>
      match stripPrefix l s with
      | Some (String c _) => isSpace c
      | _ => false
      end
  end.

(** [pattern.test(s)] *)
Fixpoint patternTest (p : UnsafePattern) (s : string) : bool :=
  matchesHere p s ||
  match s with
  | EmptyString => false
  | String _ rest => patternTest p rest
  end.

Definition unsafePatterns : list UnsafePattern :=
  [ PCall "require"; PSpaced "import"; PCall "eval"; PCall "Function";
    PCall "setTimeout"; PCall "setInterval";
    PLiteral "process."; PLiteral "global."; PLiteral "window.";
    PLiteral "document."; PLiteral "console.";
    PLiteral "__proto__"; PLiteral "constructor"; PLiteral "prototype" ].

Definition containsUnsafeCode (expr : string) : bool :=
  existsb (fun p => patternTest p expr) unsafePatterns.

(** A match of [opening (\w+) closing] at the head of [s]: the name and the
    length of the match. *)
Definition matchPlaceholder (opening closing s : string) : option (string * nat) :=
  match stripPrefix opening s with
  | Some r =>
      let '(w, rest) := takeWord r in
      if String.eqb w "" then None
      else if String.prefix closing rest
           then Some (w, String.length opening + String.length w + String.length closing)
           else None
  | None => None
  end.

(** [s.replace(/opening(\w+)closing/g, callback)]; [skip] characters of a
    match already replaced are passed over.  [None]: the callback threw. *)
Fixpoint replacePlaceholders (opening closing : string)
    (callback : string -> string -> option string) (skip : nat) (s : string)
    : option string :=
  match s with
  | EmptyString => Some EmptyString
  | String c rest =>
      match skip with
      | S k => replacePlaceholders opening closing callback k rest
      | O =>
          match matchPlaceholder opening closing s with
          | Some (name, len) =>
              match callback (String.substring 0 len s) name with
              | Some t =>
                  option_map (String.append t)
                    (replacePlaceholders opening closing callback (len - 1) rest)
              | None => None
              end
          | None =>
              option_map (String c)
                (replacePlaceholders opening closing callback 0 rest)
          end
      end
  end.

(** [value !== undefined ? JSON.stringify(value) : match].  Under a name
    that the context inherits and does not hold itself, the value is the
    inherited function, or for [__proto__] the prototype. *)
Definition substituteValue (context : list (string * HostValue))
    (matched name : string) : option string :=
  match objGet name context with
  | None =>
      if inheritedName name
      then Some (if String.eqb name "__proto__" then "{}" else "undefined")
      else Some matched
  | Some (HJson JUndef) => Some matched
  | Some (HJson v) =>
      if holdsStepResultsRef v then None
      else Some (match JSON_stringify v with
                 | Some t => t
                 | None => "undefined"
                 end)
  | Some HFunction => Some "undefined"
  | Some HNamespace => Some "{}"
  end.

(** [replaceVariables]: first [{{name}}], then [${name}]. *)
Definition replaceVariables (expr : string) (context : list (string * HostValue))
    : option string :=
  match replacePlaceholders "{{" "}}" (substituteValue context) 0 expr with
  | Some e1 => replacePlaceholders "${" "}" (substituteValue context) 0 e1
  | None => None
  end.

Definition statusName (s : ExecutionStatus) : string :=
  match s with
  | running => "running"
  | paused => "paused"
  | completed => "completed"
  | failed => "failed"
  | cancelled => "cancelled"
  end.

Definition nodeStatusName (s : NodeStatus) : string :=
  match s with
  | NS_pending => "pending"
  | NS_running => "running"
  | NS_completed => "completed"
  | NS_failed => "failed"
  | NS_skipped => "skipped"
  end.

Definition hostEntries (m : gmap string JValue) : list (string * HostValue) :=
  map (fun kv => (fst kv, HJson (snd kv))) (map_to_list m).

(** [s.trim().length === 0] *)
Fixpoint isBlank (s : string) : bool :=
  match s with
  | EmptyString => true
  | String c rest => isSpace c && isBlank rest
  end.

(** A string option as a JavaScript condition: missing and empty are falsy. *)
Definition nonEmpty (s : option string) : option string :=
  match s with
  | Some t => if String.eqb t "" then None else Some t
  | None => None
  end.

Section Expressions.
Context {host : Host}.

(** [safeEval], the same in both executors. *)
Definition safeEval (expr : string) (context : list (string * HostValue))
    : Result JValue :=
  if containsUnsafeCode expr then Throw "Expression contains unsafe code"
  else
    match runFunction context ("return " +:+ expr) with
    | Ok v => Ok v
    | Throw m => Throw ("Expression evaluation failed: " +:+ m)
    end.

(** The body of the [try] in [evaluateCondition] and
    [evaluateExitCondition]. *)
Definition evaluateIn (expr : string) (safeContext : list (string * HostValue))
    : Result JValue :=
  match replaceVariables expr safeContext with
  | None => Throw circularMessage
  | Some processed => safeEval processed safeContext
  end.

(** [try { ...; return Boolean(result) } catch { return false }] *)
Definition guardValue (r : Result JValue) : bool :=
  match r with
  | Ok v => truthy v
  | Throw _ => false
  end.

(** *** [ConditionExecutor] *)

Definition createSafeContext (c : ExecutionContext) (now : Z)
    : list (string * HostValue) :=
  objSpread
    (objSpread
       (objSpread
          [ ("executionId", HJson (JStr (executionId c)));
            ("workflowId", HJson (JStr (workflowId c)));
            ("status", HJson (JStr (statusName (status c)))) ]
          (hostEntries (variables c)))
       (hostEntries (stepResults c)))
    [ ("now", HFunction); ("timestamp", HJson (JNum now)); ("Math", HNamespace);
      ("String", HFunction); ("Number", HFunction); ("Boolean", HFunction);
      ("Array", HFunction); ("Object", HFunction); ("JSON", HNamespace) ].

Definition evaluateCondition (expr : string) (c : ExecutionContext) (now : Z) : bool :=
  guardValue (evaluateIn expr (createSafeContext c now)).

(** The syntax probe of [validateConfig]: every [{{name}}] becomes [true]
    and the text is compiled and run once. *)
Definition probeExpression (expr : string) : string :=
  match replacePlaceholders "{{" "}}" (fun _ _ => Some "true") 0 expr with
  | Some t => t
  | None => expr
  end.

Definition ConditionExecutor_validateConfig (config : NodeConfig) : ValidationResult :=
  let e1 := match nonEmpty (expression config) with
            | None => ["Expression is required"]
            | Some _ => []
            end in
  let e2 := match nonEmpty (expression config) with
            | Some e => if isBlank e then ["Expression cannot be empty"] else []
            | None => []
            end in
  let e3 :=
    match nonEmpty (expression config) with
    | Some e =>
        match runFunction [("test", HJson (JObj [("test", JBool true)]))]
                          ("return " +:+ probeExpression e) with
        | Ok _ => []
        | Throw m => ["Invalid expression syntax: " +:+ m]
        end
    | None => []
    end in
  let errs := e1 ++ e2 ++ e3 in
  mkValidation (Nat.eqb (length errs) 0) errs.

(** [sanitizeContext]: the copy is shallow, so the four [delete]s act on
    the [variables] of the running execution, and the copy holds its
    [stepResults] by reference. *)
Definition sanitizedVariables (vars : gmap string JValue) : gmap string JValue :=
  delete "key" (delete "secret" (delete "token" (delete "password" vars))).

Definition optStr (s : option string) : JValue :=
  match s with Some t => JStr t | None => JUndef end.

Definition optNum (z : option Z) : JValue :=
  match z with Some t => JNum t | None => JUndef end.

Definition sanitizeContext (c : ExecutionContext) : JValue :=
  JObj [ ("workflowId", JStr (workflowId c));
         ("executionId", JStr (executionId c));
         ("status", JStr (statusName (status c)));
         ("currentNodeId", match currentNodeId c with
                           | Some n => JStr n
                           | None => JNull
                           end);
         ("stepResults", JStepResultsRef);
         ("variables", JObj (map_to_list (sanitizedVariables (variables c))));
         ("startedAt", JNum (startedAt c));
         ("updatedAt", JNum (updatedAt c));
         ("completedAt", optNum (completedAt c));
         ("error", optStr (error c));
         ("nodeStatuses",
          JObj (map (fun kv => (fst kv, JStr (nodeStatusName (snd kv))))
                    (map_to_list (nodeStatuses c))));
         ("nodeVisitCounts",
          JObj (map (fun kv => (fst kv, storedCount (fst kv) (snd kv)))
                    (map_to_list (nodeVisitCounts c))));
         ("parentExecutionId", optStr (parentExecutionId c));
         ("childExecutionIds", JArr (map JStr (childExecutionIds c))) ].

Record ConditionResult : Type := mkConditionResult {
  cr_success : bool;
  cr_data : JValue;
  cr_error : option string;
  cr_result : bool;
  cr_evaluatedExpression : string
}.

(** [ConditionExecutor.execute]; beside the result, the [variables] of the
    execution after the call. *)
Definition ConditionExecutor_execute (node : WorkflowNode) (c : ExecutionContext)
    (now : Z) : ConditionResult * gmap string JValue :=
  let config := node_config node in
  let validation := ConditionExecutor_validateConfig config in
  if negb (isValid validation) then
    (mkConditionResult false (JObj [])
       (Some ("Invalid condition configuration: " +:+ joinWith ", " (errors validation)))
       false "",
     variables c)
  else
    let expr := match expression config with Some e => e | None => "" end in
    let result := evaluateCondition expr c now in
    (mkConditionResult true
       (JObj [ ("condition", JStr expr); ("result", JBool result);
               ("evaluatedAt", JNum now); ("context", sanitizeContext c) ])
       None result expr,
     sanitizedVariables (variables c)).

(** *** [LoopExecutor] *)

Definition LoopExecutor_validateConfig (config : NodeConfig) : ValidationResult :=
  let e1 := match maxIterations config with
            | Some m => if (m =? 0)%Z || (m <? 1)%Z
                        then ["Max iterations must be at least 1"] else []
            | None => ["Max iterations must be at least 1"]
            end in
  let e2 := match maxIterations config with
            | Some m => if (1000 <? m)%Z
                        then ["Max iterations cannot exceed 1000"] else []
            | None => []
            end in
  let e3 := match nonEmpty (exitCondition config) with
            | Some e => if isBlank e
                        then ["Exit condition cannot be empty if provided"] else []
            | None => []
            end in
  let e4 :=
    match nonEmpty (exitCondition config) with
    | Some e =>
        match runFunction [("iteration", HJson (JNum 1)); ("test", HJson (JBool true))]
                          ("return " +:+ probeExpression e) with
        | Ok _ => []
        | Throw m => ["Invalid exit condition syntax: " +:+ m]
        end
    | None => []
    end in
  let errs := e1 ++ e2 ++ e3 ++ e4 in
  mkValidation (Nat.eqb (length errs) 0) errs.

Definition loopSafeContext (c : ExecutionContext) (iterationCount : JValue)
    : list (string * HostValue) :=
  objSpread
    (objSpread (hostEntries (variables c)) (hostEntries (stepResults c)))
    [ ("iteration", HJson iterationCount);
      ("loopCount", HJson iterationCount);
      ("currentIteration", HJson iterationCount) ].

Definition evaluateExitCondition (cond : string) (c : ExecutionContext)
    (iterationCount : JValue) : bool :=
  guardValue (evaluateIn cond (loopSafeContext c iterationCount)).

Record LoopResult : Type := mkLoopResult {
  lr_success : bool;
  lr_data : JValue;
  lr_error : option string;
  lr_shouldContinue : bool;
  lr_iterationCount : JValue;
  lr_exitReason : option string
}.

(** [LoopExecutor.execute] *)
Definition LoopExecutor_execute (node : WorkflowNode) (c : ExecutionContext)
    : LoopResult :=
  let config := node_config node in
  let validation := LoopExecutor_validateConfig config in
  if negb (isValid validation) then
    mkLoopResult false (JObj [])
      (Some ("Invalid loop configuration: " +:+ joinWith ", " (errors validation)))
      false (JNum 0) None
  else
    let maxIter := match maxIterations config with Some m => m | None => 0%Z end in
    let currentIteration := readVisitCount c (node_id node) in
    let newIterationCount := plusOne currentIteration in
    if exceeds newIterationCount maxIter then
      mkLoopResult true
        (JObj [ ("iterationCount", countValue newIterationCount);
                ("maxIterations", JNum maxIter);
                ("exitReason", JStr "max_iterations_reached") ])
        None false (countValue newIterationCount) (Some "Maximum iterations reached")
    else
      let shouldExit :=
        match nonEmpty (exitCondition config) with
        | Some cond => evaluateExitCondition cond c (countValue newIterationCount)
        | None => false
        end in
      if shouldExit then
        mkLoopResult true
          (JObj [ ("iterationCount", countValue newIterationCount);
                  ("exitReason", JStr "condition_met");
                  ("exitCondition", optStr (exitCondition config)) ])
          None false (countValue newIterationCount) (Some "Exit condition met")
      else
        mkLoopResult true
          (JObj [ ("iterationCount", countValue newIterationCount);
                  ("maxIterations", JNum maxIter);
                  ("loopVariable", optStr (loopVariable config));
                  ("loopVariableValue",
                   match nonEmpty (loopVariable config) with
                   | Some _ => countValue newIterationCount
                   | None => JUndef
                   end);
                  ("shouldContinue", JBool true) ])
          None true (countValue newIterationCount) None.

End Expressions.

(** ** Human approval ([ApprovalExecutor]) *)

Definition isSpaceOrAt (c : ascii) : bool := isSpace c || (nat_of_ascii c =? 64).

Fixpoint noSpaceOrAt (s : string) : bool :=
  match s with
  | EmptyString => true
  | String c rest => negb (isSpaceOrAt c) && noSpaceOrAt rest
  end.

(** Is there a dot with at least one character after it? *)
Fixpoint dotThenMore (s : string) : bool :=
  match s with
  | EmptyString => false
  | String c rest =>
      ((nat_of_ascii c =? 46) && negb (String.eqb rest "")) || dotThenMore rest
  end.

(** The part before the first [@] and the part after it. *)
Fixpoint splitAtSign (s : string) : option (string * string) :=
  match s with
  | EmptyString => None
  | String c rest =>
      if nat_of_ascii c =? 64 then Some (EmptyString, rest)
      else match splitAtSign rest with
           | Some (a, d) => Some (String c a, d)
           | None => None
           end
  end.

(** [/^[^\s@]+@[^\s@]+\.[^\s@]+$/.test(email)] *)
Definition isValidEmail (email : string) : bool :=
  match splitAtSign email with
  | Some (localPart, domain) =>
      negb (String.eqb localPart "") && noSpaceOrAt localPart && noSpaceOrAt domain
      && match domain with
         | EmptyString => false
         | String _ afterFirst => dotThenMore afterFirst
         end
  | None => false
  end.

Definition ApprovalExecutor_validateConfig (config : NodeConfig) : ValidationResult :=
  let e1 := match nonEmpty (approvalMessage config) with
            | None => ["Approval message is required"]
            | Some _ => []
            end in
  let e2 := match timeoutMinutes config with
            | Some m => if negb (m =? 0)%Z && ((m <? 1)%Z || (10080 <? m)%Z)
                        then ["Timeout must be between 1 minute and 1 week (10080 minutes)"]
                        else []
            | None => []
            end in
  let e3 := match nonEmpty (approverEmail config) with
            | Some e => if isValidEmail e then [] else ["Invalid approver email format"]
            | None => []
            end in
  let errs := e1 ++ e2 ++ e3 in
  mkValidation (Nat.eqb (length errs) 0) errs.

Record ApprovalResult : Type := mkApprovalResult {
  apr_success : bool;
  apr_data : JValue;
  apr_error : option string;
  apr_requiresApproval : bool;
  apr_approvalId : option string
}.

Definition approvalFailure (m : string) : ApprovalResult :=
  mkApprovalResult false (JObj []) (Some m) false None.

Definition approvalRequestJson (a : ApprovalRequest) : JValue :=
  JObj [ ("executionId", JStr (ar_executionId a)); ("nodeId", JStr (ar_nodeId a));
         ("message", JStr (ar_message a)); ("data", ar_data a);
         ("timeoutAt", optNum (ar_timeoutAt a)) ].

(** [ApprovalExecutor.execute] *)
Definition ApprovalExecutor_execute (node : WorkflowNode) (c : ExecutionContext)
    (s : Store) : ApprovalResult * Store :=
  let config := node_config node in
  let validation := ApprovalExecutor_validateConfig config in
  if negb (isValid validation) then
    (approvalFailure
       ("Invalid approval configuration: " +:+ joinWith ", " (errors validation)), s)
  else
    let message := match approvalMessage config with Some m => m | None => "" end in
    let timeoutAt :=
      match timeoutMinutes config with
      | Some m => if (m =? 0)%Z then None else Some (clock s + m * 60 * 1000)%Z
      | None => None
      end in
    let approvalRequest :=
      mkApprovalRequest (executionId c) (node_id node) message
        (JObj (objSpread (map_to_list (variables c))
                 [ ("stepResults", JStepResultsRef);
                   ("nodeLabel", JStr (node_label node)) ]))
        timeoutAt in
    match saveApprovalRequest (stepResults c) approvalRequest s with
    | Throw m => (approvalFailure m, s)
    | Ok s1 =>
        let pending :=
          JObj [ ("status", JStr "pending_approval"); ("message", JStr message);
                 ("requestedAt", JNum (clock s)); ("timeoutAt", optNum timeoutAt) ] in
        match updateExecutionStatus (executionId c) paused
                (mkUpdates (Some (node_id node))
                           (Some (<[node_id node := pending]> (stepResults c)))
                           None None) s1 with
        | Throw m => (approvalFailure m, s1)
        | Ok s2 =>
            (mkApprovalResult true
               (JObj [ ("approvalRequest", approvalRequestJson approvalRequest);
                       ("message", JStr message); ("timeoutAt", optNum timeoutAt) ])
               None true (Some (executionId c)),
             s2)
        end
    end.

(** [approval.timeoutAt && new Date(approval.timeoutAt) < new Date()] *)
Definition isExpired (a : ApprovalRequest) (now : Z) : bool :=
  match ar_timeoutAt a with
  | Some t => (t <? now)%Z
  | None => false
  end.

Record Verdict : Type := mkVerdict {
  v_success : bool;
  v_error : option string
}.

(** [ApprovalExecutor.approve] *)
Definition approve (eid approvedBy : string) (reason : option string)
    (additionalData : option JValue) (s : Store) : Verdict * Store :=
  match getApprovalRequest eid s with
  | None => (mkVerdict false (Some "Approval request not found"), s)
  | Some approval =>
      if isExpired approval (clock s) then
        (mkVerdict false (Some "Approval request has expired"),
         deleteApprovalRequest eid s)
      else
        let record :=
          JObj [ ("status", JStr "approved"); ("approvedBy", JStr approvedBy);
                 ("reason", optStr reason);
                 ("additionalData", match additionalData with
                                    | Some d => d
                                    | None => JUndef
                                    end);
                 ("approvedAt", JNum (clock s)) ] in
        match updateExecutionStatus eid running
                (mkUpdates None (Some {[ ar_nodeId approval := record ]}) None None) s with
        | Throw m => (mkVerdict false (Some m), s)
        | Ok s1 => (mkVerdict true None, deleteApprovalRequest eid s1)
        end
  end.

(** [`Approval rejected: ${reason || 'No reason provided'}`] *)
Definition rejectionMessage (reason : option string) : string :=
  "Approval rejected: " +:+
  match nonEmpty reason with
  | Some r => r
  | None => "No reason provided"
  end.

(** [ApprovalExecutor.reject] *)
Definition reject (eid rejectedBy : string) (reason : option string) (s : Store)
    : Verdict * Store :=
  match getApprovalRequest eid s with
  | None => (mkVerdict false (Some "Approval request not found"), s)
  | Some approval =>
      let record :=
        JObj [ ("status", JStr "rejected"); ("rejectedBy", JStr rejectedBy);
               ("reason", optStr reason); ("rejectedAt", JNum (clock s)) ] in
      match updateExecutionStatus eid failed
              (mkUpdates None (Some {[ ar_nodeId approval := record ]})
                         (Some (rejectionMessage reason)) None) s with
      | Throw m => (mkVerdict false (Some m), s)
      | Ok s1 => (mkVerdict true None, deleteApprovalRequest eid s1)
      end
  end.

(** ** Fan-out aggregation ([SpawnExecutor]) *)

(** A JavaScript [Map] in insertion order. *)
Fixpoint mapGet {K V : Type} `{EqDecision K} (k : K) (m : list (K * V)) : option V :=
  match m with
  | [] => None
  | (k', v) :: rest => if decide (k = k') then Some v else mapGet k rest
  end.

Fixpoint mapSet {K V : Type} `{EqDecision K} (k : K) (v : V) (m : list (K * V))
    : list (K * V) :=
  match m with
  | [] => [(k, v)]
  | (k', v') :: rest =>
      if decide (k = k') then (k, v) :: rest else (k', v') :: mapSet k v rest
  end.

(** What [spawnSingleAgent] resolves to. *)
Record SpawnOutcome : Type := mkSpawnOutcome {
  so_success : bool;
  so_executionId : option string;
  so_data : option JValue;
  so_error : option string
}.

Inductive AggregationStrategy : Type :=
| AS_first | AS_all | AS_majority | AS_custom | AS_other.

Record MajorityResult : Type := mkMajorityResult {
  mr_result : JValue;
  mr_confidence : option Q;     (* the quotient, of which the code holds the
                                   nearest double; [None] is the [NaN] of
                                   [0 / 0] *)
  mr_totalVotes : nat
}.

Inductive Aggregated : Type :=
| AggValue : JValue -> Aggregated
| AggVotes : MajorityResult -> Aggregated.

(** [result.data?.result || result.data] *)
Definition resultOf (r : SpawnOutcome) : JValue :=
  match so_data r with
  | None => JUndef
  | Some d => let x := jget "result" d in if truthy x then x else d
  end.

(** The first loop of [aggregateByMajority]: the votes per serialised
    result. *)
Definition countVotes (results : list JValue) : list (option string * nat) :=
  fold_left
    (fun resultCounts result =>
       let key := JSON_stringify result in
       mapSet key (match mapGet key resultCounts with
                   | Some n => n
                   | None => 0
                   end + 1) resultCounts)
    results [].

(** [JSON.parse(key)] for a key of the vote table.  The key is the text of
    one of the results, a JSON tree, and parsing that text gives the tree
    back; [undefined] is not JSON text. *)
Definition parseKey (results : list JValue) (key : option string) : Result JValue :=
  match key with
  | None => Throw "Unexpected token u in JSON at position 0"
  | Some _ =>
      match List.find (fun r => bool_decide (JSON_stringify r = key)) results with
      | Some r => Ok (jsonRoundTrip r)
      | None => Throw "Unexpected end of JSON input"
      end
  end.

(** The second loop: the first key with the strictly largest count. *)
Fixpoint pickMajority (results : list JValue) (entries : list (option string * nat))
    (majorityResult : JValue) (maxCount : nat) : Result (JValue * nat) :=
  match entries with
  | [] => Ok (majorityResult, maxCount)
  | (key, count) :: rest =>
      if maxCount <? count then
        match parseKey results key with
        | Ok v => pickMajority results rest v count
        | Throw m => Throw m
        end
      else pickMajority results rest majorityResult maxCount
  end.

(** [maxCount / results.length] *)
Definition ratio (votes total : nat) : option Q :=
  match total with
  | O => None
  | S _ => Some (Qred (Z.of_nat votes # Pos.of_nat total))
  end.

(** [aggregateByMajority] *)
Definition aggregateByMajority (results : list JValue) : Result MajorityResult :=
  match pickMajority results (countVotes results) JNull 0 with
  | Ok (majorityResult, maxCount) =>
      Ok (mkMajorityResult majorityResult (ratio maxCount (length results))
                           (length results))
  | Throw m => Throw m
  end.

Section Aggregation.
Context {host : Host}.

(** [executeCustomAggregation]: no check of the text before it is run;
    whatever is thrown gives the list of results back. *)
Definition executeCustomAggregation (results : list JValue) (customAggregation : string)
    : JValue :=
  let safeContext :=
    [ ("results", HJson (JArr results));
      ("count", HJson (JNum (Z.of_nat (length results))));
      ("first", HJson (match results with r :: _ => r | [] => JUndef end));
      ("last", HJson (List.last results JUndef));
      ("Math", HNamespace); ("JSON", HNamespace);
      ("Array", HFunction); ("Object", HFunction) ] in
  match replacePlaceholders "{{" "}}" (substituteValue safeContext) 0
                            customAggregation with
  | None => JArr results
  | Some processedAggregation =>
      match runFunction safeContext ("return " +:+ processedAggregation) with
      | Ok v => v
      | Throw _ => JArr results
      end
  end.

(** [aggregateResults] *)
Definition aggregateResults (spawnResults : list SpawnOutcome)
    (strategy : AggregationStrategy) (customAggregation : option string)
    : Result Aggregated :=
  let results := map resultOf spawnResults in
  match strategy with
  | AS_first => Ok (AggValue (match results with r :: _ => r | [] => JUndef end))
  | AS_all => Ok (AggValue (JArr results))
  | AS_majority =>
      match aggregateByMajority results with
      | Ok m => Ok (AggVotes m)
      | Throw e => Throw e
      end
  | AS_custom =>
      match nonEmpty customAggregation with
      | Some text => Ok (AggValue (executeCustomAggregation results text))
      | None => Ok (AggValue (JArr results))
      end
  | AS_other => Ok (AggValue (JArr results))
  end.

End Aggregation.

(** ** The engine ([WorkflowExecutor]) *)

Record ExecutionOptions : Type := mkOptions {
  o_maxIterations : option Z;
  o_timeoutMs : option Z;
  o_retryAttempts : option Z;
  o_retryDelayMs : option Z
}.

Record RequiredOptions : Type := mkRequiredOptions {
  opt_maxIterations : Z;
  opt_timeoutMs : Z;
  opt_retryAttempts : Z;
  opt_retryDelayMs : Z
}.

(** The constructor of [WorkflowExecutor]. *)
Definition newWorkflowExecutor (options : ExecutionOptions) : RequiredOptions :=
  mkRequiredOptions (orZ (o_maxIterations options) 1000)
                    (orZ (o_timeoutMs options) 300000)
                    (orZ (o_retryAttempts options) 3)
                    (orZ (o_retryDelayMs options) 1000).

Definition defaultOptions : RequiredOptions :=
  newWorkflowExecutor (mkOptions None None None None).

Definition targetNodes (w : Workflow) (es : list WorkflowEdge) : list WorkflowNode :=
  flat_map (fun e => match findNode (nodes w) (target e) with
                     | Some n => [n]
                     | None => []
                     end) es.

(** [getNextNodes]: every outgoing edge, whatever its guard. *)
Definition getNextNodes (w : Workflow) (currentNode : WorkflowNode) : list WorkflowNode :=
  targetNodes w (outgoingEdges (edges w) (node_id currentNode)).

(** [!edge.condition || edge.condition === 'true' || edge.condition === 'True'] *)
Definition isTrueEdge (e : WorkflowEdge) : bool :=
  match nonEmpty (condition e) with
  | None => true
  | Some g => String.eqb g "true" || String.eqb g "True"
  end.

(** [edge.condition === 'false' || edge.condition === 'False'] *)
Definition isFalseEdge (e : WorkflowEdge) : bool :=
  match condition e with
  | Some g => String.eqb g "false" || String.eqb g "False"
  | None => false
  end.

(** [getConditionalNextNodes] *)
Definition getConditionalNextNodes (w : Workflow) (conditionNode : WorkflowNode)
    (conditionResult : bool) : list WorkflowNode :=
  let outgoing := outgoingEdges (edges w) (node_id conditionNode) in
  if conditionResult
  then targetNodes w (List.filter isTrueEdge outgoing)
  else targetNodes w (List.filter isFalseEdge outgoing).


(** [findStartNode] *)
Definition findStartNode (w : Workflow) : option WorkflowNode :=
  List.find isTrigger (nodes w).

Record EngineState : Type := mkEngine {
  es_context : ExecutionContext;
  es_stack : list WorkflowNode;        (* [executionStack] *)
  es_visited : gset string;            (* [visited] *)
  es_current : option WorkflowNode;    (* [currentNode] *)
  es_store : Store
}.

(** How one turn of the [while] loop ends. *)
Inductive Turn : Type :=
| Continue : EngineState -> Turn
| Break : EngineState -> Turn
| Raise : string -> EngineState -> Turn.

Record EngineResult : Type := mkEngineResult {
  er_success : bool;
  er_status : ExecutionStatus;
  er_error : option string;
  er_stepResults : gmap string JValue
}.

Definition iterationLimitMessage (limit : Z) (nid : string) : string :=
  "Maximum iterations (" +:+ stringOfZ limit +:+ ") exceeded for node " +:+ nid.

Section Engine.
Context {host : Host}.

(** [NodeExecutorFactory.executeNode] under the [try] of
    [WorkflowExecutor.executeNode]: the result, the [variables] of the
    execution after the call, and the store. *)
Definition executeNode (w : Workflow) (c : ExecutionContext) (node : WorkflowNode)
    (triggerData : JValue) (s : Store) : NodeResult * gmap string JValue * Store :=
  match node_type node with
  | NT_condition =>
      let '(r, vars) := ConditionExecutor_execute node c (clock s) in
      (mkNodeResult (cr_success r) (cr_data r) (cr_error r), vars, s)
  | NT_loop =>
      let r := LoopExecutor_execute node c in
      (mkNodeResult (lr_success r) (lr_data r) (lr_error r), variables c, s)
  | NT_human_approval =>
      let '(r, s') := ApprovalExecutor_execute node c s in
      (mkNodeResult (apr_success r) (apr_data r) (apr_error r), variables c, s')
  | _ =>
      match externalExecute node c triggerData s with
      | (Ok r, s') => (r, variables c, s')
      | (Throw m, s') => (mkNodeResult false (JObj []) (Some m), variables c, s')
      end
  end.

(** The body of the [while] loop of [executeFromNode]. *)
Definition engineTurn (options : RequiredOptions) (w : Workflow) (triggerData : JValue)
    (st : EngineState) : Turn :=
  match es_stack st with
  | [] => Break st
  | currentNode :: rest =>
      let nid := node_id currentNode in
      let c := es_context st in
      if bool_decide (nid ∈ es_visited st)
         && reaches (readVisitCount c nid) (opt_maxIterations options)
      then
        Raise (iterationLimitMessage (opt_maxIterations options) nid)
              (mkEngine c rest (es_visited st) (Some currentNode) (es_store st))
      else
        let visited := {[nid]} ∪ es_visited st in
        let c1 :=
          set_nodeStatuses (<[nid := NS_running]> (nodeStatuses c))
            (set_currentNodeId (Some nid)
               (set_nodeVisitCounts (countVisit c nid) c)) in
        match saveExecution c1 (es_store st) with
        | Throw m => Raise m (mkEngine c1 rest visited (Some currentNode) (es_store st))
        | Ok s1 =>
            let '(nodeResult, vars, s2) := executeNode w c1 currentNode triggerData s1 in
            let c2 := set_variables vars c1 in
            if negb (nr_success nodeResult) then
              Break (mkEngine
                       (set_nodeStatuses (<[nid := NS_failed]> (nodeStatuses c2))
                          (set_error (nr_error nodeResult) (set_status failed c2)))
                       rest visited (Some currentNode) s2)
            else
              let c3 :=
                set_nodeStatuses (<[nid := NS_completed]> (nodeStatuses c2))
                  (set_stepResults (<[nid := nr_data nodeResult]> (stepResults c2)) c2) in
              if bool_decide (node_type currentNode = NT_human_approval) then
                Break (mkEngine (set_status paused c3) rest visited (Some currentNode) s2)
              else if bool_decide (node_type currentNode = NT_loop)
                      && truthy (jget "shouldContinue" (nr_data nodeResult)) then
                Continue (mkEngine c3 (currentNode :: rest) visited (Some currentNode) s2)
              else
                let next :=
                  if bool_decide (node_type currentNode = NT_condition)
                  then getConditionalNextNodes w currentNode
                         (truthy (jget "result" (nr_data nodeResult)))
                  else getNextNodes w currentNode in
                let c4 := set_updatedAt (clock s2) c3 in
                let st4 := mkEngine c4 (next ++ rest) visited (Some currentNode) in
                match saveExecution c4 s2 with
                | Throw m => Raise m (st4 s2)
                | Ok s3 => Continue (st4 s3)
                end
        end
  end.

(** [executionStack.length > 0 && context.status === 'running'] *)
Definition loopCondition (st : EngineState) : bool :=
  negb (Nat.eqb (length (es_stack st)) 0)
  && bool_decide (status (es_context st) = running).

(** The [while] loop; [None] when [fuel] turns were not enough. *)
Fixpoint engineLoop (fuel : nat) (options : RequiredOptions) (w : Workflow)
    (triggerData : JValue) (st : EngineState) : option (EngineState * option string) :=
  match fuel with
  | O => None
  | S fuel' =>
      if loopCondition st then
        match engineTurn options w triggerData st with
        | Continue st' => engineLoop fuel' options w triggerData st'
        | Break st' => Some (st', None)
        | Raise m st' => Some (st', Some m)
        end
      else Some (st, None)
  end.

(** What follows the loop inside the [try]. *)
Definition afterLoop (st : EngineState) : EngineState * option string :=
  let c := es_context st in
  if bool_decide (status c = running) && Nat.eqb (length (es_stack st)) 0 then
    let c' := set_completedAt (Some (clock (es_store st))) (set_status completed c) in
    match saveExecution c' (es_store st) with
    | Ok s' => (mkEngine c' (es_stack st) (es_visited st) (es_current st) s', None)
    | Throw m =>
        (mkEngine c' (es_stack st) (es_visited st) (es_current st) (es_store st), Some m)
    end
  else (st, None).

Definition resultOfContext (c : ExecutionContext) : EngineResult :=
  mkEngineResult (negb (bool_decide (status c = failed))) (status c) (error c)
                 (stepResults c).

(** The [catch] of [executeFromNode]; its own [saveExecution] may throw,
    and then the call is rejected. *)
Definition catchBlock (m : string) (st : EngineState)
    : Result EngineResult * EngineState :=
  let c := es_context st in
  let failedId := match es_current st with
                  | Some n => if String.eqb (node_id n) "" then "unknown" else node_id n
                  | None => "unknown"
                  end in
  let c' := set_nodeStatuses (<[failedId := NS_failed]> (nodeStatuses c))
              (set_error (Some m) (set_status failed c)) in
  match saveExecution c' (es_store st) with
  | Ok s' =>
      (Ok (mkEngineResult false failed (error c') (stepResults c')),
       mkEngine c' (es_stack st) (es_visited st) (es_current st) s')
  | Throw m' =>
      (Throw m', mkEngine c' (es_stack st) (es_visited st) (es_current st) (es_store st))
  end.

Definition initialState (c : ExecutionContext) (startNode : WorkflowNode) (s : Store)
    : EngineState :=
  mkEngine c [startNode] ∅ None s.

(** [executeFromNode] with a bound on the turns of its loop. *)
Definition executeFromNodeFuel (fuel : nat) (options : RequiredOptions) (w : Workflow)
    (c : ExecutionContext) (startNode : WorkflowNode) (triggerData : JValue)
    (s : Store) : option (Result EngineResult * EngineState) :=
  match engineLoop fuel options w triggerData (initialState c startNode s) with
  | None => None
  | Some (st, Some m) => Some (catchBlock m st)
  | Some (st, None) =>
      match afterLoop st with
      | (st', None) => Some (Ok (resultOfContext (es_context st')), st')
      | (st', Some m) => Some (catchBlock m st')
      end
  end.

(** Enough turns for any run: every node may pass the visit check
    [max 1 maxIterations] times, and one more turn ends the loop. *)
Definition turnBound (options : RequiredOptions) (w : Workflow) : nat :=
  S (S (length (nodes w)) * Z.to_nat (Z.max 1 (opt_maxIterations options))).

Definition executeFromNode (options : RequiredOptions) (w : Workflow)
    (c : ExecutionContext) (startNode : WorkflowNode) (triggerData : JValue)
    (s : Store) : Result EngineResult * EngineState :=
  match executeFromNodeFuel (turnBound options w) options w c startNode triggerData s with
  | Some r => r
  | None => (Throw "turn bound exceeded", initialState c startNode s)
  end.

Record ExecutionResult : Type := mkExecutionResult {
  xr_success : bool;
  xr_executionId : string;
  xr_status : ExecutionStatus;
  xr_error : option string;
  xr_stepsExecuted : nat
}.

(** [resumeExecution] *)
Definition resumeExecution (options : RequiredOptions) (eid : string)
    (approvalData : option (gmap string JValue)) (s : Store)
    : Result ExecutionResult * Store :=
  match getExecution eid s with
  | None => (Throw ("Execution " +:+ eid +:+ " not found"), s)
  | Some context =>
      if negb (bool_decide (status context = paused)) then
        (Throw ("Execution " +:+ eid +:+ " is not paused"), s)
      else
        let c1 := match approvalData with
                  | Some d => set_variables (d ∪ variables context) context
                  | None => context
                  end in
        match getWorkflow (workflowId c1) s with
        | None => (Throw ("Workflow " +:+ workflowId c1 +:+ " not found"), s)
        | Some w =>
            let c2 := set_updatedAt (clock s) (set_status running c1) in
            match saveExecution c2 s with
            | Throw m => (Throw m, s)
            | Ok s1 =>
                match match currentNodeId c2 with
                      | Some nid => findNode (nodes w) nid
                      | None => None
                      end with
                | None =>
                    (Throw ("Current node " +:+
                            match currentNodeId c2 with Some n => n | None => "null" end
                            +:+ " not found"), s1)
                | Some currentNode =>
                    match executeFromNode options w c2 currentNode (JObj []) s1 with
                    | (Ok r, st) =>
                        (Ok (mkExecutionResult (er_success r) eid (er_status r)
                               (er_error r) (size (er_stepResults r))),
                         es_store st)
                    | (Throw m, st) => (Throw m, es_store st)
                    end
                end
            end
        end
  end.

End Engine.

Section Start.
Context {host : Host}.

(** [executeWorkflow]; [fresh] is what [generateExecutionId] would
    return. *)
Definition executeWorkflow (options : RequiredOptions) (w : Workflow)
    (input : gmap string JValue) (executionIdArg : option string) (fresh : string)
    (s : Store) : Result ExecutionResult * Store :=
  let executionIdFinal := match nonEmpty executionIdArg with
                          | Some e => e
                          | None => fresh
                          end in
  let context :=
    mkContext (wf_id w) executionIdFinal running None ∅ input (clock s) (clock s)
              None None ∅ ∅ None [] in
  let attempt : Result EngineResult * Store :=
    match saveExecution context s with
    | Throw m => (Throw m, s)
    | Ok s1 =>
        match findStartNode w with
        | None => (Throw "No trigger node found in workflow", s1)
        | Some startNode =>
            match executeFromNode options w context startNode
                    (JObj (map_to_list input)) s1 with
            | (r, st) => (r, es_store st)
            end
        end
    end in
  match attempt with
  | (Ok r, s') =>
      (Ok (mkExecutionResult (er_success r) executionIdFinal (er_status r)
             (er_error r) (size (er_stepResults r))), s')
  | (Throw m, s') =>
      let failure := mkExecutionResult false executionIdFinal failed (Some m) 0 in
      match nonEmpty executionIdArg with
      | Some e =>
          match updateExecutionStatus e failed
                  (mkUpdates None None (Some m) (Some (clock s'))) s' with
          | Ok s'' => (Ok failure, s'')
          | Throw m' => (Throw m', s')
          end
      | None => (Ok failure, s')
      end
  end.

End Start.

(** ** Further operations of [WorkflowExecutor] and [ApprovalExecutor] *)

(** [cancelExecution] *)
Definition cancelExecution (eid : string) (s : Store) : bool * Store :=
  match updateExecutionStatus eid cancelled
          (mkUpdates None None None (Some (clock s))) s with
  | Ok s' => (true, s')
  | Throw _ => (false, s)
  end.

(** [getExecutionStatus] *)
Definition getExecutionStatus (eid : string) (s : Store) : option ExecutionContext :=
  getExecution eid s.

Record ApprovalStatus : Type := mkApprovalStatus {
  as_exists : bool;
  as_isExpired : bool;
  as_approval : option ApprovalRequest
}.

(** [checkApprovalStatus] *)
Definition checkApprovalStatus (eid : string) (s : Store) : ApprovalStatus :=
  match getApprovalRequest eid s with
  | None => mkApprovalStatus false false None
  | Some approval => mkApprovalStatus true (isExpired approval (clock s)) (Some approval)
  end.

(** ** Graph searches ([LoopExecutor.isNodeInLoop], [ParallelExecutor])

    The arrays used as stacks are kept with their last element first:
    [pop] takes the head and [push(...xs)] puts [xs] reversed in front.
    [fuel] bounds the turns of a [while] loop, [None] meaning that the bound
    was hit. *)

(** The [while] loop of [isNodeInLoop]. *)
Fixpoint isNodeInLoopFrom (fuel : nat) (es : list WorkflowEdge) (visited : gset string)
    (stack : list string) : option bool :=
  match fuel with
  | O => None
  | S fuel' =>
      match stack with
      | [] => Some false
      | current :: rest =>
          if decide (current ∈ visited) then Some true
          else
            let targetNodes := map target (outgoingEdges es current) in
            isNodeInLoopFrom fuel' es ({[current]} ∪ visited) (rev targetNodes ++ rest)
      end
  end.

(** [LoopExecutor.isNodeInLoop] *)
Definition isNodeInLoop (nodeId : string) (w : Workflow) : bool :=
  match isNodeInLoopFrom (S (S (length (edges w)))) (edges w) ∅ [nodeId] with
  | Some found => found
  | None => false
  end.

Definition incomingEdges (es : list WorkflowEdge) (nid : string) : list WorkflowEdge :=
  List.filter (fun e => String.eqb (target e) nid) es.

(** The [while] loop of [getNodeDependencies]. *)
Fixpoint dependenciesFrom (fuel : nat) (es : list WorkflowEdge) (visited : gset string)
    (stack dependencies : list string) : option (list string) :=
  match fuel with
  | O => None
  | S fuel' =>
      match stack with
      | [] => Some dependencies
      | currentId :: rest =>
          if decide (currentId ∈ visited)
          then dependenciesFrom fuel' es visited rest dependencies
          else
            let visited' := {[currentId]} ∪ visited in
            let pushed :=
              List.filter (fun x => negb (bool_decide (x ∈ visited')))
                          (map source (incomingEdges es currentId)) in
            dependenciesFrom fuel' es visited' (rev pushed ++ rest)
                             (dependencies ++ pushed)
      end
  end.

(** [ParallelExecutor.getNodeDependencies] *)
Definition getNodeDependencies (nodeId : string) (w : Workflow) : list string :=
  match dependenciesFrom (S (S (length (edges w)))) (edges w) ∅ [nodeId] [] with
  | Some dependencies => dependencies
  | None => []
  end.

(** [ParallelExecutor.canExecuteInParallel] *)
Definition canExecuteInParallel (node1 node2 : WorkflowNode) (w : Workflow) : bool :=
  let hasDirectDependency :=
    existsb (fun e =>
               (String.eqb (source e) (node_id node1)
                && String.eqb (target e) (node_id node2))
               || (String.eqb (source e) (node_id node2)
                   && String.eqb (target e) (node_id node1)))
            (edges w) in
  if hasDirectDependency then false
  else
    let node1Dependencies := getNodeDependencies (node_id node1) w in
    let node2Dependencies := getNodeDependencies (node_id node2) w in
    let hasCommonDependency :=
      existsb (fun dep => bool_decide (dep ∈ node2Dependencies)) node1Dependencies in
    negb hasCommonDependency.

(** ** The in-memory store ([InMemoryRedis]) and the utility operations of
    [RedisClient] on it

    The [Map] of the store is the list of its entries in insertion order,
    without repeated keys.  Times are in milliseconds, [now] is what
    [Date.now()] reads during the call; the time-to-live is a whole number of
    seconds. *)

Record Entry : Type := mkEntry {
  entry_value : string;
  expiresAt : Z
}.

(** [map.delete(k)] *)
Fixpoint objDelete {A : Type} (k : string) (o : list (string * A)) : list (string * A) :=
  match o with
  | [] => []
  | (k', v) :: rest => if String.eqb k k' then rest else (k', v) :: objDelete k rest
  end.

(** [isExpired]: [entry.expiresAt !== -1 && this.now() > entry.expiresAt] *)
Definition entryExpired (now : Z) (entry : Entry) : bool :=
  negb (expiresAt entry =? -1)%Z && (expiresAt entry <? now)%Z.

Definition setex (now : Z) (key : string) (ttlSeconds : Z) (value : string)
    (store : list (string * Entry)) : list (string * Entry) :=
  let expiry := if (0 <? ttlSeconds)%Z then (now + ttlSeconds * 1000)%Z else (-1)%Z in
  objSet key (mkEntry value expiry) store.

(** [get]; [None] is [null]. *)
Definition redisGet (now : Z) (key : string) (store : list (string * Entry))
    : option string * list (string * Entry) :=
  match objGet key store with
  | None => (None, store)
  | Some entry =>
      if entryExpired now entry then (None, objDelete key store)
      else (Some (entry_value entry), store)
  end.

Definition del (key : string) (store : list (string * Entry)) : list (string * Entry) :=
  objDelete key store.

(** [pattern.endsWith('*')] and [pattern.slice(0, -1)] *)
Fixpoint endsWithStar (pattern : string) : bool :=
  match pattern with
  | EmptyString => false
  | String c EmptyString => (nat_of_ascii c =? 42)
  | String _ rest => endsWithStar rest
  end.

Fixpoint dropLast (s : string) : string :=
  match s with
  | EmptyString => EmptyString
  | String _ EmptyString => EmptyString
  | String c rest => String c (dropLast rest)
  end.

(** [keys]: the entries are not checked for expiry. *)
Definition keys (pattern : string) (store : list (string * Entry)) : list string :=
  if endsWithStar pattern
  then List.filter (fun k => String.prefix (dropLast pattern) k) (map fst store)
  else List.filter (fun k => String.eqb k pattern) (map fst store).

Definition redisExists (now : Z) (key : string) (store : list (string * Entry))
    : Z * list (string * Entry) :=
  match objGet key store with
  | None => (0%Z, store)
  | Some entry =>
      if entryExpired now entry then (0%Z, objDelete key store) else (1%Z, store)
  end.

(** [ttl]; [Math.ceil(remainingMs / 1000)] on whole numbers. *)
Definition ttl (now : Z) (key : string) (store : list (string * Entry))
    : Z * list (string * Entry) :=
  match objGet key store with
  | None => ((-2)%Z, store)
  | Some entry =>
      if (expiresAt entry =? -1)%Z then ((-1)%Z, store)
      else
        let remainingMs := (expiresAt entry - now)%Z in
        if (remainingMs <=? 0)%Z then ((-2)%Z, objDelete key store)
        else ((- ((- remainingMs) / 1000))%Z, store)
  end.

(** [RedisClient.exists] *)
Definition RedisClient_exists (now : Z) (key : string) (store : list (string * Entry))
    : bool * list (string * Entry) :=
  let '(result, store') := redisExists now key store in ((result =? 1)%Z, store').

(** The inner [for] loop of [cleanupExpiredData]. *)
Definition cleanupKeys (now : Z) (ks : list string) (store : list (string * Entry))
    : list (string * Entry) :=
  fold_left (fun st key =>
               let '(t, st') := ttl now key st in
               if (t =? -2)%Z then del key st' else st')
            ks store.

(** [RedisClient.cleanupExpiredData] *)
Definition cleanupExpiredData (now : Z) (store : list (string * Entry))
    : list (string * Entry) :=
  fold_left (fun st pattern => cleanupKeys now (keys pattern st) st)
            ["workflow:*"; "execution:*"; "approval:*"; "copilot:*"] store.

(** ** Retry policies per node type ([RetryHandler]) and the retry loop of
    [AgentExecutor] *)

Definition nodeTypeName (t : NodeType) : string :=
  match t with
  | NT_trigger => "trigger"
  | NT_action => "action"
  | NT_agent => "agent"
  | NT_human_approval => "human-approval"
  | NT_condition => "condition"
  | NT_loop => "loop"
  | NT_spawn_agent => "spawn-agent"
  end.

(** [RetryHandler.getRetryConfigForNodeType] *)
Definition getRetryConfigForNodeType (nodeType : string) : PartialRetryConfig :=
  if String.eqb nodeType "agent" then
    mkPartialRetryConfig (Some 3%Z) (Some 2000%Q) (Some 2%Q)
      (Some ["timeout"; "rate_limit"; "temporary"; "unavailable"])
  else if String.eqb nodeType "action" then
    mkPartialRetryConfig (Some 2%Z) (Some 1000%Q) (Some (3 # 2)%Q)
      (Some ["timeout"; "network"; "temporary"])
  else if String.eqb nodeType "trigger" then
    mkPartialRetryConfig (Some 1%Z) (Some 500%Q) (Some 1%Q) (Some ["temporary"])
  else
    mkPartialRetryConfig (Some 2%Z) (Some 1000%Q) (Some (3 # 2)%Q)
      (Some ["timeout"; "temporary"]).

(** [RetryHandler.createForNode] *)
Definition createForNode (node : WorkflowNode) : RetryConfig :=
  newRetryHandler (getRetryConfigForNodeType (nodeTypeName (node_type node))).

Record AgentResult : Type := mkAgentResult {
  ag_success : bool;
  ag_data : JValue;
  ag_error : option string;
  ag_usage : option JValue
}.

Inductive AgentRetryEvent : Type :=
| AgentCall : nat -> AgentRetryEvent
| AgentSleep : Z -> AgentRetryEvent.

(** The [for] loop of [AgentExecutor.executeWithRetry].  [execute attempt]
    is what [this.execute(node, context)] resolves to at that attempt: its
    body is one [try] whose [catch] returns a failed result, so it does not
    throw.  [lastError] is the message of the last error. *)
Fixpoint agentRetryLoop (execute : nat -> AgentResult) (maxRetries : Z)
    (todo attempt : nat) (lastError : option string) (trace : list AgentRetryEvent)
    : AgentResult * list AgentRetryEvent :=
  match todo with
  | O =>
      (mkAgentResult false (JObj [])
         (Some ("Agent execution failed after " +:+ stringOfZ maxRetries
                +:+ " attempts: " +:+
                match nonEmpty lastError with
                | Some m => m
                | None => "Unknown error"
                end))
         None,
       trace)
  | S todo' =>
      let trace1 := trace ++ [AgentCall attempt] in
      let result := execute attempt in
      if ag_success result then (result, trace1)
      else
        let message := match nonEmpty (ag_error result) with
                       | Some m => m
                       | None => "Agent execution failed"
                       end in
        if (Z.of_nat attempt <? maxRetries)%Z then
          agentRetryLoop execute maxRetries todo' (S attempt) (Some message)
            (trace1 ++ [AgentSleep (2 ^ Z.of_nat attempt * 1000)])
        else
          agentRetryLoop execute maxRetries todo' (S attempt) (Some message) trace1
  end.

(** [AgentExecutor.executeWithRetry] *)
Definition AgentExecutor_executeWithRetry (execute : nat -> AgentResult) (maxRetries : Z)
    : AgentResult * list AgentRetryEvent :=
  agentRetryLoop execute maxRetries (Z.to_nat maxRetries) 1 None [].

(** ** The trigger executor ([TriggerExecutor]) *)

(** [TriggerNodeConfig]; the trigger type is whatever string the stored
    configuration holds. *)
Record TriggerNodeConfig : Type := mkTriggerConfig {
  triggerType : option string;
  webhookPath : option string;
  scheduleExpression : option string
}.

Record TriggerResult : Type := mkTriggerResult {
  tr_success : bool;
  tr_data : JValue;
  tr_error : option string
}.

(** [TriggerExecutor.execute] on the configuration of the node; [now] is
    the time the timestamp is taken from. *)
Definition TriggerExecutor_execute (config : TriggerNodeConfig)
    (triggerData : list (string * JValue)) (now : Z) : TriggerResult :=
  let handled (extra : list (string * JValue)) :=
    mkTriggerResult true (JObj (objSpread triggerData extra)) None in
  match triggerType config with
  | Some t =>
      if String.eqb t "webhook" then
        handled [ ("triggerType", JStr "webhook"); ("timestamp", JNum now);
                  ("webhookPath", optStr (webhookPath config)) ]
      else if String.eqb t "manual" then
        handled [ ("triggerType", JStr "manual"); ("timestamp", JNum now);
                  ("initiatedBy", JStr "user") ]
      else if String.eqb t "schedule" then
        handled [ ("triggerType", JStr "schedule"); ("timestamp", JNum now);
                  ("scheduleExpression", optStr (scheduleExpression config)) ]
      else mkTriggerResult false (JObj []) (Some ("Unsupported trigger type: " +:+ t))
  | None => mkTriggerResult false (JObj []) (Some "Unsupported trigger type: undefined")
  end.

(** [TriggerExecutor.validateConfig] *)
Definition TriggerExecutor_validateConfig (config : TriggerNodeConfig) : ValidationResult :=
  let e1 := match nonEmpty (triggerType config) with
            | None => ["Trigger type is required"]
            | Some _ => []
            end in
  let e2 := if bool_decide (triggerType config = Some "webhook")
               && bool_decide (nonEmpty (webhookPath config) = None)
            then ["Webhook path is required for webhook triggers"] else [] in
  let e3 := if bool_decide (triggerType config = Some "schedule")
               && bool_decide (nonEmpty (scheduleExpression config) = None)
            then ["Schedule expression is required for scheduled triggers"] else [] in
  let errs := e1 ++ e2 ++ e3 in
  mkValidation (Nat.eqb (length errs) 0) errs.

(** ** How many agents a spawn node starts ([SpawnExecutor]) *)

(** [SpawnAgentNodeConfig] *)
Record SpawnAgentNodeConfig : Type := mkSpawnConfig {
  agentPrompt : option string;
  maxAgents : option Z;
  aggregationStrategy : option string;
  customAggregation : option string
}.

(** [SpawnExecutor.validateConfig] *)
Definition SpawnExecutor_validateConfig (config : SpawnAgentNodeConfig) : ValidationResult :=
  let e1 := match nonEmpty (agentPrompt config) with
            | None => ["Agent prompt is required"]
            | Some _ => []
            end in
  let e2 := match maxAgents config with
            | Some m => if (m =? 0)%Z || (m <? 1)%Z
                        then ["Max agents must be at least 1"] else []
            | None => ["Max agents must be at least 1"]
            end in
  let e3 := match maxAgents config with
            | Some m => if (10 <? m)%Z then ["Max agents cannot exceed 10"] else []
            | None => []
            end in
  let e4 := match nonEmpty (aggregationStrategy config) with
            | None => ["Aggregation strategy is required"]
            | Some _ => []
            end in
  let e5 := if bool_decide (aggregationStrategy config = Some "custom")
               && bool_decide (nonEmpty (customAggregation config) = None)
            then ["Custom aggregation is required when strategy is custom"] else [] in
  let errs := e1 ++ e2 ++ e3 ++ e4 ++ e5 in
  mkValidation (Nat.eqb (length errs) 0) errs.

(** [context.variables.name] *)
Definition variableOf (c : ExecutionContext) (name : string) : JValue :=
  match variables c !! name with
  | Some v => v
  | None => JUndef
  end.

(** [a || b] *)
Definition jor (a b : JValue) : JValue := if truthy a then a else b.

(** [SpawnExecutor.determineAgentCount], called with the [maxAgents] of a
    configuration that passed the validation. *)
Definition determineAgentCount (maxAgentsOfConfig : Z) (c : ExecutionContext) : Z :=
  let dynamicCount := jor (variableOf c "agentCount") (variableOf c "spawnCount") in
  let otherwise :=
    let defaultCount := Z.min 3 maxAgentsOfConfig in
    let itemsToProcess := jor (variableOf c "items") (variableOf c "data") in
    match itemsToProcess with
    | JArr items => Z.min (Z.of_nat (length items)) maxAgentsOfConfig
    | _ => defaultCount
    end in
  match dynamicCount with
  | JNum n => if (0 <? n)%Z then Z.min n maxAgentsOfConfig else otherwise
  | _ => otherwise
  end.

(** ** Branches ([ParallelExecutor.findIndependentBranches]) *)

(** The [while] loop of [traverseBranch].  The set [visited] is the caller's:
    the loop adds to it, and it is given back as the loop leaves it. *)
Fixpoint traverseBranchFrom (fuel : nat) (w : Workflow) (visited : gset string)
    (stack : list string) (branch : list WorkflowNode)
    : option (list WorkflowNode * gset string) :=
  match fuel with
  | O => None
  | S fuel' =>
      match stack with
      | [] => Some (branch, visited)
      | nodeId :: rest =>
          if decide (nodeId ∈ visited)
          then traverseBranchFrom fuel' w visited rest branch
          else
            let visited' := {[nodeId]} ∪ visited in
            match findNode (nodes w) nodeId with
            | Some node =>
                let pushed :=
                  List.filter (fun x => negb (bool_decide (x ∈ visited')))
                              (map target (outgoingEdges (edges w) nodeId)) in
                traverseBranchFrom fuel' w visited' (rev pushed ++ rest)
                                   (branch ++ [node])
            | None => traverseBranchFrom fuel' w visited' rest branch
            end
      end
  end.

(** [ParallelExecutor.traverseBranch] *)
Definition traverseBranch (w : Workflow) (startNodeId : string) (visited : gset string)
    : list WorkflowNode * gset string :=
  match traverseBranchFrom (S (S (length (edges w)))) w visited [startNodeId] [] with
  | Some r => r
  | None => ([], visited)
  end.

(** The map from the targets of the outgoing edges to the sources of the
    edges that lead to them. *)
Definition edgeGroupsOf (outgoing : list WorkflowEdge) : list (string * list string) :=
  fold_left
    (fun edgeGroups edge =>
       let edgeGroups1 :=
         match mapGet (target edge) edgeGroups with
         | Some _ => edgeGroups
         | None => mapSet (target edge) [] edgeGroups
         end in
       match mapGet (target edge) edgeGroups1 with
       | Some sources => mapSet (target edge) (sources ++ [source edge]) edgeGroups1
       | None => edgeGroups1
       end)
    outgoing [].

(** One turn of the loop over the groups. *)
Definition branchTurn (w : Workflow) (state : list (list WorkflowNode) * gset string)
    (group : string * list string) : list (list WorkflowNode) * gset string :=
  let '(branches, visited) := state in
  let '(targetNodeId, sourceNodes) := group in
  if length sourceNodes =? 1 then
    let '(branch, visited') := traverseBranch w targetNodeId visited in
    if 0 <? length branch then (branches ++ [branch], visited') else (branches, visited')
  else (branches, visited).

(** [ParallelExecutor.findIndependentBranches] *)
Definition findIndependentBranches (w : Workflow) (currentNodeId : string)
    : list (list WorkflowNode) :=
  let outgoing := outgoingEdges (edges w) currentNodeId in
  if length outgoing <=? 1 then []
  else fst (fold_left (branchTurn w) (edgeGroupsOf outgoing) ([], ∅)).

(** * Vocabulary of the statements, and sample inputs *)

(** The identifiers of [U] the search has not visited yet. *)
Definition unvisited (U : list string) (V : gset string) : nat :=
  length (base.filter (fun x => x ∉ V) U).

Definition hasTrigger (w : Workflow) : Prop :=
  exists n, n ∈ nodes w /\ node_type n = NT_trigger.

(** The node identifier is an end of some edge. *)
Definition connected (w : Workflow) (nid : string) : Prop :=
  exists e, e ∈ edges w /\ (source e = nid \/ target e = nid).

(** The node identifier is the target of some edge. *)
Definition targeted (w : Workflow) (nid : string) : Prop :=
  exists e, e ∈ edges w /\ target e = nid.

Definition missingTriggerMessage : string :=
  "Workflow must have at least one trigger node".

(** The claim of C3 as the text has it: a node that is not a start node and
    is the target of no edge makes the graph invalid. *)
Definition orphanRuleAsStated : Prop :=
  forall w : Workflow,
    (exists n, n ∈ nodes w /\ node_type n <> NT_trigger /\ ~ targeted w (node_id n)) ->
    isValid (fst (validateWorkflow w)) = false.

Definition sourceOnlyGraph : Workflow :=
  mkWorkflow "w"
    [ mkNode "start" NT_trigger "Start" emptyConfig;
      mkNode "feeder" NT_action "Feeder" emptyConfig ]
    [ mkEdge "e1" "feeder" "start" None ].

Definition cyclicGraph : Workflow :=
  mkWorkflow "w"
    [ mkNode "t" NT_trigger "T" emptyConfig;
      mkNode "a" NT_action "A" emptyConfig;
      mkNode "b" NT_action "B" emptyConfig ]
    [ mkEdge "e1" "t" "a" None; mkEdge "e2" "a" "b" None; mkEdge "e3" "b" "a" None ].

(** The message [executeWithRetry] reads off a failed call. *)
Definition failureMessage (o : Outcome) : option string :=
  match o with
  | Resolved _ => None
  | ThrewError m => Some m
  | ThrewOther => Some "Unknown error"
  end.

Section RetryVocabulary.
Context {lang : Language}.

(** Attempt [j] fails with an error that is classified retryable. *)
Definition retryableAt (cfg : RetryConfig) (operation : nat -> Outcome) (j : nat) : Prop :=
  exists m, failureMessage (operation j) = Some m /\ isRetryableError cfg m = true.

(** The sleep that is to follow attempt [j]: the base delay times the
    backoff factor to the power [j - 1], in the arithmetic of the host. *)
Definition sleepAfter (cfg : RetryConfig) (j : nat) : number :=
  numMul (numOfQ (retryDelayMs cfg))
         (numPow (numOfQ (backoffMultiplier cfg)) (Z.of_nat j - 1)).

(** Attempts [from .. from + count - 1], each followed by its sleep. *)
Definition retriedAttempts (cfg : RetryConfig) (from count : nat) : list RetryEvent :=
  flat_map (fun j => [Call j; Sleep (sleepAfter cfg j)]) (seq from count).

Definition sleptFor (cfg : RetryConfig) (from count : nat) (acc : number) : number :=
  fold_left numAdd (map (sleepAfter cfg) (seq from count)) acc.

(** What a run looks like that stops at attempt [k]: the [k - 1] retried
    attempts with their sleeps, then the last call, after which nothing is
    slept. *)
Definition traceUpTo (cfg : RetryConfig) (k : nat) : list RetryEvent :=
  retriedAttempts cfg 1 (k - 1) ++ [Call k].

(** The sum of those sleeps, added up in their order from zero. *)
Definition delayUpTo (cfg : RetryConfig) (k : nat) : number :=
  sleptFor cfg 1 (k - 1) (numOfZ 0).

(** Whole numbers up to [2 ^ 53] are doubles, and a sum or a product of two
    of them that stays in that range is not rounded; [Math.pow(x, 0)] is 1
    and [Math.pow(x, 1)] is [x]. *)
Definition exactOnWholeNumbers : Prop :=
  (forall x, numPow x 0 = numOfZ 1)
  /\ (forall x, numPow x 1 = x)
  /\ (forall a b,
        (Z.abs a <= 2 ^ 53)%Z -> (Z.abs b <= 2 ^ 53)%Z -> (Z.abs (a * b) <= 2 ^ 53)%Z ->
        numMul (numOfZ a) (numOfZ b) = numOfZ (a * b))
  /\ (forall a b,
        (Z.abs a <= 2 ^ 53)%Z -> (Z.abs b <= 2 ^ 53)%Z -> (Z.abs (a + b) <= 2 ^ 53)%Z ->
        numAdd (numOfZ a) (numOfZ b) = numOfZ (a + b)).

End RetryVocabulary.

(** [toLowerCase] on the letters A to Z. *)
Definition lowerAscii (c : ascii) : ascii :=
  let n := nat_of_ascii c in
  if (65 <=? n) && (n <=? 90) then ascii_of_nat (n + 32) else c.

Fixpoint lowerLetters (s : string) : string :=
  match s with
  | EmptyString => EmptyString
  | String c rest => String (lowerAscii c) (lowerLetters rest)
  end.

(** A host for the examples: arithmetic on rationals without rounding, and
    lower-casing of the letters A to Z, which is what the language does on
    whole numbers of milliseconds and on ASCII text. *)
Definition plainLanguage : Language :=
  mkLanguage Q (fun q => q) Qplus Qmult Qpower lowerLetters.

Definition timeoutTwiceThenOk (attempt : nat) : Outcome :=
  match attempt with
  | 1 | 2 => ThrewError "Request Timeout"
  | _ => Resolved (JStr "done")
  end.

Definition threeAttempts : RetryConfig :=
  newRetryHandler (mkPartialRetryConfig (Some 3%Z) None None None).

(** The number of results whose JSON text is [key]. *)
Definition votesOfKey (results : list JValue) (key : option string) : nat :=
  length (List.filter (fun x => bool_decide (JSON_stringify x = key)) results).

(** The number of results equal to [r] as JSON text. *)
Definition votesFor (results : list JValue) (r : JValue) : nat :=
  votesOfKey results (JSON_stringify r).

Definition tally (table : list (option string * nat)) (key : option string) : nat :=
  match mapGet key table with
  | Some n => n
  | None => 0
  end.

Definition okTrue : JValue := JObj [("ok", JBool true)].
Definition okFalse : JValue := JObj [("ok", JBool false)].

(** What [spawnSingleAgent] returns for a child whose answer parsed to
    [answer]. *)
Definition childAnswer (index : Z) (answer : JValue) : SpawnOutcome :=
  mkSpawnOutcome true (Some ("exec-agent-" +:+ stringOfZ index))
    (Some (JObj [ ("agentIndex", JNum index); ("result", answer);
                  ("model", JStr "llama-3.1-70b-versatile"); ("usage", JUndef) ]))
    None.

(** The answer of a child: the [result] of its data. *)
Definition answerOf (r : SpawnOutcome) : JValue :=
  match so_data r with
  | Some d => jget "result" d
  | None => JUndef
  end.

(** Deep equality: the same tree, the properties of an object in whatever
    order. *)
Fixpoint deepEqual (a b : JValue) {struct a} : bool :=
  match a, b with
  | JUndef, JUndef | JNull, JNull | JStepResultsRef, JStepResultsRef => true
  | JBool x, JBool y => Bool.eqb x y
  | JNum x, JNum y => Z.eqb x y
  | JStr x, JStr y => String.eqb x y
  | JArr xs, JArr ys =>
      (fix items (xs ys : list JValue) {struct xs} : bool :=
         match xs, ys with
         | [], [] => true
         | x :: xs', y :: ys' => deepEqual x y && items xs' ys'
         | _, _ => false
         end) xs ys
  | JObj fs, JObj gs =>
      Nat.eqb (length fs) (length gs)
      && (fix properties (fs : list (string * JValue)) : bool :=
            match fs with
            | [] => true
            | (k, v) :: fs' =>
                match objGet k gs with
                | Some v' => deepEqual v v'
                | None => false
                end && properties fs'
            end) fs
  | _, _ => false
  end.

(** The number of results deep-equal to [r]. *)
Definition deepVotes (results : list JValue) (r : JValue) : nat :=
  length (List.filter (deepEqual r) results).

(** A host that is never asked. *)
Definition silentHost : Host :=
  mkHost (fun _ _ => Throw "not called") (fun _ _ _ s => (Throw "not called", s)).

Definition twoToOne : list SpawnOutcome :=
  [childAnswer 0 okTrue; childAnswer 1 okFalse; childAnswer 2 okTrue].

(** The claim of C7 as the text has it: the votes of an answer are the
    answers deep-equal to it. *)
Definition majorityAsStated : Prop :=
  forall (host : Host) (indices : list Z) (answers : list JValue),
    length indices = length answers ->
    answers <> [] ->
    exists m winner,
      aggregateResults (zip_with childAnswer indices answers) AS_majority None
      = Ok (AggVotes m)
      /\ In winner answers
      /\ deepEqual (mr_result m) winner = true
      /\ (forall r, In r answers -> deepVotes answers r <= deepVotes answers winner)
      /\ mr_confidence m = ratio (deepVotes answers winner) (length answers)
      /\ mr_totalVotes m = length answers.

(** The same record written by two children, the properties in another
    order. *)
Definition sizeThenColour : JValue := JObj [("size", JNum 1); ("colour", JNum 2)].
Definition colourThenSize : JValue := JObj [("colour", JNum 2); ("size", JNum 1)].



Definition amountCondition : WorkflowNode :=
  mkNode "check" NT_condition "Amount check"
    (mkNodeConfig None None None (Some "{{amount}} > 1000") None None None).



Definition aggregationContext (results : list JValue) : list (string * HostValue) :=
  [ ("results", HJson (JArr results));
    ("count", HJson (JNum (Z.of_nat (length results))));
    ("first", HJson (match results with r :: _ => r | [] => JUndef end));
    ("last", HJson (List.last results JUndef));
    ("Math", HNamespace); ("JSON", HNamespace);
    ("Array", HFunction); ("Object", HFunction) ].

(** A host in which the environment of the process can be read. *)
Definition leakyHost : Host :=
  mkHost
    (fun _ body =>
       if String.eqb body "return process.env"
          || String.eqb body "return globalThis['process']['env']"
       then Ok (JObj [("GROQ_API_KEY", JStr "secret")])
       else Throw "not modelled")
    (fun _ _ _ s => (Throw "offline", s)).

Definition pendingRecord (message : string) (now : Z) (timeoutAt : option Z) : JValue :=
  JObj [ ("status", JStr "pending_approval"); ("message", JStr message);
         ("requestedAt", JNum now); ("timeoutAt", optNum timeoutAt) ].

Definition gateNode : WorkflowNode :=
  mkNode "gate" NT_human_approval "Manager approval"
    (mkNodeConfig None None None None (Some "Please review") None (Some 60%Z)).




(** How often the identifier may still pass the visit check: [limit] times
    before its first visit, and afterwards what is left up to [limit]. *)
Definition budget (limit : nat) (visited : gset string) (counts : gmap string nat)
    (nid : string) : nat :=
  if decide (nid ∈ visited)
  then limit - match counts !! nid with Some k => k | None => 0 end
  else limit.

Definition totalBudget (limit : nat) (ids : list string) (st : EngineState) : nat :=
  list_sum (map (budget limit (es_visited st) (nodeVisitCounts (es_context st))) ids).

(** The number of times a node may pass the visit check. *)
Definition visitLimit (options : RequiredOptions) : nat :=
  Z.to_nat (Z.max 1 (opt_maxIterations options)).

(** The nodes on the stack are the start node or nodes of the workflow. *)
Definition stackWithin (ids : list string) (st : EngineState) : Prop :=
  forall n, In n (es_stack st) -> In (node_id n) ids.

(** A host in which every external step succeeds. *)
Definition obligingHost : Host :=
  mkHost (fun _ _ => Ok (JBool true))
         (fun _ _ _ s => (Ok (mkNodeResult true (JObj [("x", JNum 1)]) None), s)).

Definition pingPong : Workflow :=
  mkWorkflow "w"
    [ mkNode "t" NT_trigger "T" emptyConfig;
      mkNode "a" NT_action "A" emptyConfig;
      mkNode "b" NT_action "B" emptyConfig ]
    [ mkEdge "e1" "t" "a" None; mkEdge "e2" "a" "b" None; mkEdge "e3" "b" "a" None ].

Definition fiveVisits : RequiredOptions :=
  newWorkflowExecutor (mkOptions (Some 5%Z) None None None).

Definition pingPongRun : Result EngineResult * EngineState :=
  executeFromNode (host := obligingHost) fiveVisits pingPong
    (mkContext "w" "e" running None ∅ ∅ 0 0 None None ∅ ∅ None [])
    (mkNode "t" NT_trigger "T" emptyConfig) (JObj []) (mkStore ∅ ∅ ∅ 0).

Definition resultOrNone (r : Result EngineResult) : option EngineResult :=
  match r with
  | Ok x => Some x
  | Throw _ => None
  end.

(** A graph whose second node is called [toString] and has an edge to
    itself. *)
Definition startNodeOfSelfLoop : WorkflowNode := mkNode "start" NT_trigger "Start" emptyConfig.

Definition formatNode : WorkflowNode := mkNode "toString" NT_action "Format" emptyConfig.

Definition selfLoop : Workflow :=
  mkWorkflow "w" [ startNodeOfSelfLoop; formatNode ]
    [ mkEdge "e1" "start" "toString" None; mkEdge "e2" "toString" "toString" None ].

Definition freshContext : ExecutionContext :=
  mkContext "w" "e" running None ∅ ∅ 0 0 None None ∅ ∅ None [].

(** The guards [getConditionalNextNodes] lets through. *)
Definition guardMatches (result : bool) (guard : option string) : Prop :=
  if result
  then guard = None \/ guard = Some "" \/ guard = Some "true" \/ guard = Some "True"
  else guard = Some "false" \/ guard = Some "False".

(** The guards of the claim: no guard or ["true"], and ["false"]. *)
Definition guardMatchesAsStated (result : bool) (guard : option string) : Prop :=
  if result then guard = None \/ guard = Some "true" else guard = Some "false".

(** The claim of C4 as the text has it. *)
Definition routingAsStated : Prop :=
  forall (w : Workflow) (conditionNode n : WorkflowNode) (result : bool),
    In n (getConditionalNextNodes w conditionNode result) ->
    exists e, In e (edges w) /\ source e = node_id conditionNode
              /\ guardMatchesAsStated result (condition e)
              /\ findNode (nodes w) (target e) = Some n.

Definition capitalisedGuard : Workflow :=
  mkWorkflow "w"
    [ mkNode "check" NT_condition "Check" emptyConfig;
      mkNode "big" NT_action "Big order" emptyConfig ]
    [ mkEdge "e1" "check" "big" (Some "True") ].

(** Up to [n] turns of the loop, stopping at the first that does not go
    on. *)
Fixpoint runTurns {host : Host} (n : nat) (options : RequiredOptions) (w : Workflow)
    (triggerData : JValue) (st : EngineState) : Turn :=
  match n with
  | O => Continue st
  | S n' =>
      match engineTurn options w triggerData st with
      | Continue st' => runTurns n' options w triggerData st'
      | other => other
      end
  end.







(** [{ ...context.variables, ...approvalData }], or the variables as they are
    when no approval data are given. *)
Definition mergedVariables (approvalData : option (gmap string JValue))
    (vars : gmap string JValue) : gmap string JValue :=
  match approvalData with
  | Some d => d ∪ vars
  | None => vars
  end.

Definition gatedWorkflow : Workflow :=
  mkWorkflow "orders"
    [ mkNode "t" NT_trigger "Order received" emptyConfig; gateNode;
      mkNode "ship" NT_action "Ship" emptyConfig ]
    [ mkEdge "e1" "t" "gate" None; mkEdge "e2" "gate" "ship" None ].

(** The execution after the trigger ran and the gate paused it. *)
Definition pausedAtGate : ExecutionContext :=
  mkContext "orders" "exec-1" paused (Some "gate")
    {["t" := JObj [("x", JNum 1)]]} ∅ 0 0 None None
    {["t" := NS_completed; "gate" := NS_running]} {["t" := 1; "gate" := 1]} None [].

Definition pausedStore : Store :=
  mkStore {["exec-1" := pausedAtGate]} ∅ {["orders" := gatedWorkflow]} 1000.

Definition resumedOrder : Result ExecutionResult * Store :=
  resumeExecution (host := obligingHost) defaultOptions "exec-1"
    (Some {["approved" := JBool true]}) pausedStore.

Definition echoGraph : Workflow :=
  mkWorkflow "echo"
    [ mkNode "start" NT_trigger "Start" emptyConfig;
      mkNode "echo" NT_action "Echo" emptyConfig ]
    [ mkEdge "e1" "start" "echo" None ].

Definition echoRun : Result ExecutionResult * Store :=
  executeWorkflow (host := obligingHost) defaultOptions echoGraph ∅ (Some "run-1") "fresh"
                  (mkStore ∅ ∅ ∅ 0).

Definition branchGraph : Workflow :=
  mkWorkflow "branch"
    [ mkNode "start" NT_trigger "Start" emptyConfig; amountCondition;
      mkNode "big" NT_action "Big order" emptyConfig;
      mkNode "small" NT_action "Small order" emptyConfig ]
    [ mkEdge "e1" "start" "check" None;
      mkEdge "e2" "check" "big" (Some "true");
      mkEdge "e3" "check" "small" (Some "false") ].

Definition branchRun : Result ExecutionResult * Store :=
  executeWorkflow (host := obligingHost) defaultOptions branchGraph
                  {["amount" := JNum 1500]} (Some "run-2") "fresh" (mkStore ∅ ∅ ∅ 0).

(** The context as the loop of [executeFromNode] has it when it calls the
    executor of the node [nid]. *)
Definition enterNode (c : ExecutionContext) (nid : string) : ExecutionContext :=
  set_nodeStatuses (<[nid := NS_running]> (nodeStatuses c))
    (set_currentNodeId (Some nid) (set_nodeVisitCounts (countVisit c nid) c)).

Definition noExpression : WorkflowNode :=
  mkNode "check" NT_condition "Check" emptyConfig.

Definition freshRun : ExecutionContext :=
  mkContext "w" "exec-7" running None ∅ ∅ 0 0 None None ∅ ∅ None [].


Definition emptyStore : Store := mkStore ∅ ∅ ∅ 0.

(** A trigger followed by a condition without an expression. *)
Definition thenCheck : Workflow :=
  mkWorkflow "w" [ mkNode "t" NT_trigger "T" emptyConfig; noExpression ]
             [ mkEdge "e1" "t" "check" None ].

(** The engine after the trigger of [thenCheck] has run. *)
Definition afterTrigger : EngineState :=
  match runTurns (host := obligingHost) 1 defaultOptions thenCheck (JObj [])
                 (initialState freshRun (mkNode "t" NT_trigger "T" emptyConfig) emptyStore)
  with
  | Continue st | Break st | Raise _ st => st
  end.

(** The store after the engine has saved the run on entering [check]. *)
Definition enteredCheck : Store :=
  set_executionsKV
    (<["exec-7" := serialized (enterNode (es_context afterTrigger) "check")]>
       (executionsKV (es_store afterTrigger)))
    (es_store afterTrigger).

Definition thenCheckRun : Result EngineResult * EngineState :=
  executeFromNode (host := obligingHost) defaultOptions thenCheck freshRun
                  (mkNode "t" NT_trigger "T" emptyConfig) (JObj []) emptyStore.

Definition finishedRun : ExecutionContext :=
  mkContext "w" "exec-7" completed None {[ "t" := JObj [("ok", JBool true)] ]} ∅
            0 5 (Some 5%Z) None {[ "t" := NS_completed ]} {[ "t" := 1 ]} None [].

Definition finishedStore : Store :=
  mkStore {[ "exec-7" := finishedRun ]} ∅ ∅ 9.

Definition staleRequest : ApprovalRequest :=
  mkApprovalRequest "exec-7" "gate" "Please review" (JObj []) (Some 5%Z).

Definition pausedRun : ExecutionContext :=
  mkContext "w" "exec-7" paused (Some "gate") {[ "t" := JObj [("ok", JBool true)] ]} ∅
            0 2 None None {[ "t" := NS_completed ]} {[ "t" := 1 ]} None [].

(** Paused at the gate, the request timed out at 5, the clock at 9. *)
Definition staleStore : Store :=
  mkStore {[ "exec-7" := pausedRun ]} {[ "exec-7" := staleRequest ]} ∅ 9.

(** The same with the clock at 3. *)
Definition pendingStore : Store :=
  mkStore {[ "exec-7" := pausedRun ]} {[ "exec-7" := staleRequest ]} ∅ 3.

Definition noTrigger : Workflow :=
  mkWorkflow "w" [mkNode "a" NT_action "A" emptyConfig] [].

Definition strayWorkflow : Workflow :=
  mkWorkflow "w" [mkNode "t" NT_trigger "T" emptyConfig] [].

Definition strayStore : Store :=
  mkStore {[ "exec-7" := pausedRun ]} ∅ {[ "w" := strayWorkflow ]} 9.

(** There is an edge from [x] to [y]. *)
Definition edgeRel (es : list WorkflowEdge) (x y : string) : Prop :=
  exists e, e ∈ es /\ source e = x /\ target e = y.

(** [p] lists, in order, the nodes met after [x] on a walk along edges that
    ends in [y]. *)
Fixpoint walk (es : list WorkflowEdge) (x : string) (p : list string) (y : string)
    : Prop :=
  match p with
  | [] => x = y
  | z :: p' => edgeRel es x z /\ walk es z p' y
  end.

(** The edges whose target has not been visited. *)
Definition unexplored (es : list WorkflowEdge) (V : gset string) : nat :=
  length (List.filter (fun e => negb (bool_decide (target e ∈ V))) es).

(** The edges whose source has not been visited. *)
Definition unexpanded (es : list WorkflowEdge) (V : gset string) : nat :=
  length (List.filter (fun e => negb (bool_decide (source e ∈ V))) es).

(** A diamond: two paths from [a] to [d], no cycle. *)
Definition diamond : Workflow :=
  mkWorkflow "w"
    [ mkNode "a" NT_trigger "A" emptyConfig; mkNode "b" NT_action "B" emptyConfig;
      mkNode "c" NT_action "C" emptyConfig; mkNode "d" NT_action "D" emptyConfig ]
    [ mkEdge "e1" "a" "b" None; mkEdge "e2" "a" "c" None;
      mkEdge "e3" "b" "d" None; mkEdge "e4" "c" "d" None ].

(** An edge from [x] to [y] whose source is outside [V]. *)
Definition avoiding (es : list WorkflowEdge) (V : gset string) (x y : string) : Prop :=
  edgeRel es x y /\ x ∉ V.

(** A chain [t -> a -> b]. *)
Definition chainOfThree : Workflow :=
  mkWorkflow "w"
    [ mkNode "t" NT_trigger "T" emptyConfig; mkNode "a" NT_action "A" emptyConfig;
      mkNode "b" NT_action "B" emptyConfig ]
    [ mkEdge "e1" "t" "a" None; mkEdge "e2" "a" "b" None ].

(** Every node of the list has an edge to the next one. *)
Fixpoint chain (es : list WorkflowEdge) (l : list string) : Prop :=
  match l with
  | [] => True
  | x :: rest =>
      match rest with
      | [] => True
      | y :: _ => edgeRel es x y /\ chain es rest
      end
  end.

(** A walk along edges whose last node has an edge back to the first. *)
Definition closedWalk (es : list WorkflowEdge) (c : list string) : Prop :=
  exists x y, head c = Some x /\ last c = Some y /\ chain es c /\ edgeRel es y x.

(** Visited, and not on the recursion stack any more. *)
Definition finished (st : DfsState) (x : string) : Prop :=
  x ∈ dfs_visited st /\ x ∉ recursionStack st.

(** The finished nodes are closed under edges and none is on a cycle. *)
Definition finishedAcyclic (es : list WorkflowEdge) (st : DfsState) : Prop :=
  (forall x y, finished st x -> edgeRel es x y -> finished st y)
  /\ (forall x, finished st x -> ~ tc (edgeRel es) x x).

(** A cycle [a -> b -> c -> a] entered from [t]. *)
Definition triangle : Workflow :=
  mkWorkflow "w"
    [ mkNode "t" NT_trigger "T" emptyConfig; mkNode "a" NT_action "A" emptyConfig;
      mkNode "b" NT_action "B" emptyConfig; mkNode "c" NT_action "C" emptyConfig ]
    [ mkEdge "e0" "t" "a" None; mkEdge "e1" "a" "b" None;
      mkEdge "e2" "b" "c" None; mkEdge "e3" "c" "a" None ].

(** [ttl] sees the entry as gone: it has an expiry time, and that time is
    not later than [now]. *)
Definition lapsed (now : Z) (entry : Entry) : bool :=
  negb (expiresAt entry =? -1)%Z && (expiresAt entry - now <=? 0)%Z.

(** The key is under one of the four prefixes that [cleanupExpiredData]
    goes through. *)
Definition swept (key : string) : bool :=
  String.prefix "workflow:" key || String.prefix "execution:" key
  || String.prefix "approval:" key || String.prefix "copilot:" key.

(** A store at the clock 5000: a workflow without expiry, an execution that
    expired at 4000, an approval that expires at 5000, and a key of another
    kind that expired at 1000. *)
Definition sampleStore : list (string * Entry) :=
  [ ("workflow:w", mkEntry "{}" (-1)); ("execution:e", mkEntry "{}" 4000);
    ("approval:e", mkEntry "{}" 5000); ("session:x", mkEntry "{}" 1000) ].

(** The milliseconds slept in a trace of the agent's retry loop. *)
Definition sleptMs (trace : list AgentRetryEvent) : Z :=
  fold_right (fun ev acc => match ev with
                            | AgentSleep ms => (ms + acc)%Z
                            | AgentCall _ => acc
                            end) 0%Z trace.

(** Attempts [from .. from + count - 1] of the agent, each followed by its
    sleep of [2 ^ attempt] seconds. *)
Definition agentRetried (from count : nat) : list AgentRetryEvent :=
  flat_map (fun j => [AgentCall j; AgentSleep (2 ^ Z.of_nat j * 1000)]) (seq from count).

Definition agentFailure (m : string) : AgentResult :=
  mkAgentResult false (JObj []) (Some m) None.

Definition alwaysTimeout (attempt : nat) : Outcome := ThrewError "timeout".

Definition failsTwice (attempt : nat) : AgentResult :=
  match attempt with
  | 1 | 2 => agentFailure "rate limit"
  | _ => mkAgentResult true (JObj [("answer", JNum 42)]) None None
  end.

(** The message the agent's retry loop keeps of a failed attempt:
    [result.error || 'Agent execution failed']. *)
Definition agentMessage (result : AgentResult) : string :=
  match nonEmpty (ag_error result) with
  | Some m => m
  | None => "Agent execution failed"
  end.

(** The run of the chain [t -> a -> b] with executors that succeed. *)
Definition chainRun : Result EngineResult * EngineState :=
  @executeFromNode obligingHost defaultOptions chainOfThree freshRun
    (mkNode "t" NT_trigger "T" emptyConfig) (JObj []) emptyStore.

(** The result of a call that did not throw. *)
Definition resultOr (r : Result EngineResult) : EngineResult :=
  match r with
  | Ok x => x
  | Throw _ => mkEngineResult false failed None ∅
  end.

(** The property names a trigger writes into its result. *)
Definition triggerKeys : list string :=
  ["triggerType"; "timestamp"; "webhookPath"; "initiatedBy"; "scheduleExpression"].

Definition spawnThree : SpawnAgentNodeConfig :=
  mkSpawnConfig (Some "Review the order") (Some 3%Z) (Some "all") None.

Definition withVariables (vars : gmap string JValue) : ExecutionContext :=
  mkContext "w" "exec-7" running None ∅ vars 0 0 None None ∅ ∅ None [].







(** The texts of the results, each once, in the order in which they first
    occur. *)
Definition firstKeys (results : list JValue) : list (option string) :=
  fold_left
    (fun seen result =>
       let key := JSON_stringify result in
       if decide (key ∈ seen) then seen else seen ++ [key])
    results [].

Definition sayA : JValue := JStr "a".
Definition sayB : JValue := JStr "b".

(** An edge from [x], a node of the workflow, to [y]. *)
Definition throughNodes (w : Workflow) (x y : string) : Prop :=
  edgeRel (edges w) x y /\ is_Some (findNode (nodes w) x).

(** The number of edges from [x] to [t]. *)
Definition edgesTo (es : list WorkflowEdge) (x t : string) : nat :=
  length (List.filter (fun e => String.eqb (target e) t) (outgoingEdges es x)).

(** The edges out of the visited nodes of the workflow end in a visited node
    or on the stack. *)
Definition closedUnder (w : Workflow) (visited : gset string) (stack : list string)
    : Prop :=
  forall x y,
    x ∈ visited -> is_Some (findNode (nodes w) x) -> edgeRel (edges w) x y ->
    y ∈ visited \/ y ∈ stack.

(** What the loop over the groups keeps. *)
Definition branchInvariant (w : Workflow) (currentNodeId : string)
    (branches : list (list WorkflowNode)) (visited : gset string) : Prop :=
  NoDup (map node_id (concat branches))
  /\ (forall b, b ∈ branches -> b <> [])
  /\ (forall n, n ∈ concat branches ->
        node_id n ∈ visited
        /\ findNode (nodes w) (node_id n) = Some n
        /\ tc (edgeRel (edges w)) currentNodeId (node_id n))
  /\ (forall x n, x ∈ visited -> findNode (nodes w) x = Some n -> n ∈ concat branches)
  /\ closedUnder w visited [].

Definition groupSize (groups : list (string * list string)) (t : string) : nat :=
  match mapGet t groups with
  | Some sources => length sources
  | None => 0
  end.

(** * Properties *)

(** ** Cycle detection returns *)

Lemma unvisited_mono U (V V' : gset string) :
  V ⊆ V' -> unvisited U V' <= unvisited U V.
Proof.
  intros Hsub. unfold unvisited. induction U as [|x U IH]; simpl; [lia|].
  rewrite !filter_cons. destruct (decide (x ∉ V')) as [Hx|Hx].
  - destruct (decide (x ∉ V)) as [_|Hx']; [simpl; lia|].
    exfalso. apply Hx'. intros Hin. apply Hx. set_solver.
  - destruct (decide (x ∉ V)); simpl; lia.
Qed.

Lemma unvisited_lt U (V : gset string) n :
  n ∈ U -> n ∉ V -> unvisited U ({[n]} ∪ V) < unvisited U V.
Proof.
  intros Hin Hn. unfold unvisited. induction U as [|x U IH]; [inversion Hin|].
  rewrite !filter_cons.
  assert (Hle : length (base.filter (fun y => y ∉ ({[n]} ∪ V : gset string)) U)
                <= length (base.filter (fun y => y ∉ V) U)).
  { apply (unvisited_mono U V ({[n]} ∪ V)). apply union_subseteq_r. }
  destruct (decide (x = n)) as [->|Hne].
  - destruct (decide (n ∉ {[n]} ∪ V)) as [Hbad|_];
      [exfalso; apply Hbad; apply elem_of_union_l, elem_of_singleton; reflexivity|].
    destruct (decide (n ∉ V)) as [_|Hc]; [simpl; lia|exfalso; exact (Hc Hn)].
  - apply elem_of_cons in Hin as [Heq|Hin]; [congruence|].
    specialize (IH Hin).
    destruct (decide (x ∉ {[n]} ∪ V)) as [Hx|Hx];
      destruct (decide (x ∉ V)) as [Hx'|Hx']; simpl; try lia.
    exfalso. apply Hx'. set_solver.
Qed.

Lemma forEdges_total (body : WorkflowEdge -> DfsState -> option DfsState)
    (U : list string) (bound : nat) (es : list WorkflowEdge) :
  (forall e st, e ∈ es -> unvisited U (dfs_visited st) < bound ->
     exists st', body e st = Some st' /\ dfs_visited st ⊆ dfs_visited st') ->
  forall st, unvisited U (dfs_visited st) < bound ->
    exists st', forEdges body es st = Some st' /\ dfs_visited st ⊆ dfs_visited st'.
Proof.
  induction es as [|e es IH]; intros Hbody st Hst; simpl.
  - exists st. split; [reflexivity|set_solver].
  - destruct (Hbody e st) as (st1 & -> & Hsub1); [left|exact Hst|].
    destruct (IH (fun e' st' Hin => Hbody e' st' (list_elem_of_further _ _ _ Hin)) st1)
      as (st2 & Hrun & Hsub2).
    { pose proof (unvisited_mono U _ _ Hsub1). lia. }
    exists st2. split; [exact Hrun|set_solver].
Qed.

Lemma outgoingEdges_elem es nid e :
  e ∈ outgoingEdges es nid -> e ∈ es /\ source e = nid.
Proof.
  unfold outgoingEdges. rewrite list_elem_of_In, filter_In, <- list_elem_of_In.
  intros [Hin Heq]. split; [exact Hin|]. by apply String.eqb_eq.
Qed.

Lemma dfs_total (U : list string) (es : list WorkflowEdge) :
  (forall e, e ∈ es -> target e ∈ U) ->
  forall fuel nodeId path st,
    nodeId ∈ U -> unvisited U (dfs_visited st) < fuel ->
    exists st', dfs fuel es nodeId path st = Some st'
                /\ dfs_visited st ⊆ dfs_visited st'.
Proof.
  intros Htargets. induction fuel as [|fuel IH]; intros nodeId path st Hin Hlt; [lia|].
  simpl. destruct (decide (nodeId ∈ recursionStack st)).
  { eexists. split; [reflexivity|simpl; set_solver]. }
  destruct (decide (nodeId ∈ dfs_visited st)) as [|Hfresh].
  { eexists. split; [reflexivity|set_solver]. }
  set (st1 := mkDfs (cycles st) ({[nodeId]} ∪ dfs_visited st)
                    ({[nodeId]} ∪ recursionStack st)).
  pose proof (unvisited_lt U (dfs_visited st) nodeId Hin Hfresh) as Hdec.
  destruct (forEdges_total
              (fun e => dfs fuel es (target e) (path ++ [nodeId])) U fuel
              (outgoingEdges es nodeId)) with (st := st1) as (st2 & -> & Hsub).
  - intros e st' He Hst'. apply IH; [|exact Hst'].
    apply Htargets. by apply outgoingEdges_elem in He as [? _].
  - simpl. lia.
  - eexists. split; [reflexivity|]. simpl in *. set_solver.
Qed.

Lemma forNodes_total (U : list string) (es : list WorkflowEdge) (fuel : nat) :
  (forall e, e ∈ es -> target e ∈ U) ->
  forall ns st,
    (forall n, n ∈ ns -> node_id n ∈ U) ->
    unvisited U (dfs_visited st) < fuel ->
    exists st', forNodes fuel es ns st = Some st'.
Proof.
  intros Htargets. induction ns as [|n ns IH]; intros st Hns Hlt; simpl.
  - by exists st.
  - assert (Hrest : forall m, m ∈ ns -> node_id m ∈ U).
    { intros m Hm. apply Hns. by right. }
    destruct (decide (node_id n ∈ dfs_visited st)); [by apply IH|].
    destruct (dfs_total U es Htargets fuel (node_id n) [] st) as (st1 & -> & Hsub);
      [apply Hns; left|exact Hlt|].
    apply IH; [exact Hrest|]. pose proof (unvisited_mono U _ _ Hsub). lia.
Qed.

Lemma unvisited_le_length U V : unvisited U V <= length U.
Proof. unfold unvisited. apply length_filter. Qed.

(** [detectCycles] always returns: the depth bound of the model is never
    hit. *)
Lemma detectCycles_returns (w : Workflow) :
  exists st, detectCyclesRun w = Some st /\ detectCycles w = cycles st.
Proof.
  unfold detectCycles, detectCyclesRun.
  destruct (forNodes_total (dfsUniverse w) (edges w) (S (length (dfsUniverse w))))
    with (ns := nodes w) (st := mkDfs [] ∅ ∅) as (st & Hst).
  - intros e He. unfold dfsUniverse. apply elem_of_app. right.
    apply list_elem_of_fmap. by exists e.
  - intros n Hn. unfold dfsUniverse. apply elem_of_app. left.
    apply list_elem_of_fmap. by exists n.
  - pose proof (unvisited_le_length (dfsUniverse w) ∅). simpl. lia.
  - exists st. by rewrite Hst.
Qed.

(** ** Validation *)

Lemma connectedNodeIds_spec_acc (es : list WorkflowEdge) (acc : gset string) nid :
  nid ∈ fold_left (fun s e => {[target e]} ∪ ({[source e]} ∪ s)) es acc
  <-> nid ∈ acc \/ exists e, e ∈ es /\ (source e = nid \/ target e = nid).
Proof.
  revert acc. induction es as [|e es IH]; intros acc; simpl.
  - split; [by left|]. intros [H|(e & He & _)]; [exact H|inversion He].
  - rewrite IH. split.
    + intros [H|(e' & He' & Hends)].
      * apply elem_of_union in H as [H|H].
        { apply elem_of_singleton in H. right. exists e. split; [left|by right]. }
        apply elem_of_union in H as [H|H]; [|by left].
        apply elem_of_singleton in H. right. exists e. split; [left|by left].
      * right. exists e'. split; [by right|exact Hends].
    + intros [H|(e' & He' & Hends)].
      * left. by apply elem_of_union_r, elem_of_union_r.
      * apply elem_of_cons in He' as [->|He'].
        { left. destruct Hends as [<-|<-].
          - apply elem_of_union_r, elem_of_union_l. by apply elem_of_singleton.
          - apply elem_of_union_l. by apply elem_of_singleton. }
        right. by exists e'.
Qed.

Lemma connectedNodeIds_spec (w : Workflow) nid :
  nid ∈ connectedNodeIds (edges w) <-> connected w nid.
Proof.
  unfold connectedNodeIds, connected. rewrite connectedNodeIds_spec_acc.
  split; [intros [H|H]; [set_solver|exact H]|by right].
Qed.

Lemma insertionOrder_elem_acc (l acc : list string) x :
  x ∈ fold_left (fun acc x => if decide (x ∈ acc) then acc else acc ++ [x]) l acc
  <-> x ∈ acc \/ x ∈ l.
Proof.
  revert acc. induction l as [|y l IH]; intros acc; simpl.
  - split; [by left|]. intros [H|H]; [exact H|inversion H].
  - rewrite IH. destruct (decide (y ∈ acc)) as [Hy|Hy].
    + rewrite elem_of_cons. split; [tauto|]. intros [H|[->|H]]; tauto.
    + rewrite elem_of_app, !elem_of_cons, elem_of_nil. tauto.
Qed.

Lemma insertionOrder_elem (l : list string) x : x ∈ insertionOrder l <-> x ∈ l.
Proof.
  unfold insertionOrder. rewrite insertionOrder_elem_acc.
  split; [intros [H|H]; [inversion H|exact H]|by right].
Qed.

Lemma hasTrigger_filter (w : Workflow) :
  Nat.eqb (length (List.filter isTrigger (nodes w))) 0 = false <-> hasTrigger w.
Proof.
  unfold hasTrigger. rewrite Nat.eqb_neq. split.
  - intros Hlen. destruct (List.filter isTrigger (nodes w)) as [|n l] eqn:Hf; [done|].
    assert (Hin : In n (List.filter isTrigger (nodes w))) by (rewrite Hf; left; done).
    apply filter_In in Hin as [Hin Ht]. exists n. split; [by apply list_elem_of_In|].
    unfold isTrigger in Ht. by apply bool_decide_eq_true in Ht.
  - intros (n & Hin & Ht) Hlen. apply length_zero_iff_nil in Hlen.
    assert (Hn : In n (List.filter isTrigger (nodes w))).
    { apply filter_In. split; [by apply list_elem_of_In|].
      unfold isTrigger. by apply bool_decide_eq_true. }
    rewrite Hlen in Hn. inversion Hn.
Qed.

Lemma flat_map_all_nil {A B : Type} (f : A -> list B) (l : list A) :
  (forall x, In x l -> f x = []) -> flat_map f l = [].
Proof.
  induction l as [|x l IH]; intros Hall; simpl; [reflexivity|].
  rewrite (Hall x) by (left; reflexivity). apply IH. intros y Hy. apply Hall. by right.
Qed.

Lemma orphanErrors_nil (w : Workflow) :
  orphanErrors w = [] <->
  forall n, n ∈ nodes w -> notTriggerById (nodes w) (node_id n) = true ->
            connected w (node_id n).
Proof.
  unfold orphanErrors. split.
  - intros Hnil n Hn Hnt.
    destruct (decide (node_id n ∈ connectedNodeIds (edges w))) as [Hc|Hc];
      [by apply connectedNodeIds_spec|].
    exfalso.
    assert (Hin : In ("Node " +:+ node_id n +:+ " is not connected to the workflow")
                     (flat_map
                        (fun nid =>
                           if negb (bool_decide (nid ∈ connectedNodeIds (edges w)))
                              && notTriggerById (nodes w) nid
                           then ["Node " +:+ nid +:+ " is not connected to the workflow"]
                           else [])
                        (insertionOrder (map node_id (nodes w))))).
    { apply in_flat_map. exists (node_id n). split.
      - apply list_elem_of_In, insertionOrder_elem, list_elem_of_fmap. by exists n.
      - rewrite Hnt, bool_decide_eq_false_2 by exact Hc. simpl. by left. }
    rewrite Hnil in Hin. inversion Hin.
  - intros Hall. apply flat_map_all_nil. intros nid Hnid.
    apply list_elem_of_In, insertionOrder_elem, list_elem_of_fmap in Hnid
      as (n & -> & Hn).
    destruct (notTriggerById (nodes w) (node_id n)) eqn:Hnt;
      [|by rewrite andb_false_r].
    rewrite bool_decide_eq_true_2; [reflexivity|].
    apply connectedNodeIds_spec. by apply Hall.
Qed.

Lemma findNode_elem (ns : list WorkflowNode) nid n :
  findNode ns nid = Some n -> n ∈ ns /\ node_id n = nid.
Proof.
  unfold findNode. intros Hf. apply find_some in Hf as [Hin Heq].
  split; [by apply list_elem_of_In|by apply String.eqb_eq].
Qed.

(** A graph that has a start node and whose other nodes are all targets of
    edges passes the orphan check. *)
Lemma targeted_nodes_connected (w : Workflow) :
  (forall n, n ∈ nodes w -> node_type n <> NT_trigger -> targeted w (node_id n)) ->
  forall n, n ∈ nodes w -> notTriggerById (nodes w) (node_id n) = true ->
            connected w (node_id n).
Proof.
  intros Htargeted n Hn Hnt. unfold notTriggerById in Hnt.
  destruct (findNode (nodes w) (node_id n)) as [m|] eqn:Hfind.
  - apply findNode_elem in Hfind as [Hm Hid].
    destruct (Htargeted m Hm) as (e & He & Het).
    { unfold isTrigger in Hnt. intros Ht.
      by rewrite bool_decide_eq_true_2 in Hnt. }
    exists e. split; [exact He|right; congruence].
  - exfalso. unfold findNode in Hfind.
    pose proof (find_none _ _ Hfind n (proj1 (list_elem_of_In _ _) Hn)) as Hne.
    simpl in Hne. rewrite String.eqb_refl in Hne. discriminate Hne.
Qed.

Lemma length_app_zero {A : Type} (a b : list A) :
  Nat.eqb (length (a ++ b)) 0 = true <-> a = [] /\ b = [].
Proof.
  rewrite Nat.eqb_eq, length_app. split.
  - intros H. split; apply length_zero_iff_nil; lia.
  - intros [-> ->]. reflexivity.
Qed.

(** C3, as the code has it.  [validateWorkflow] answers valid exactly when the
    graph has a trigger node and every node that is not a trigger is an end,
    source or target, of some edge; without a trigger node the missing-trigger
    message is among the errors; a graph with a trigger node whose other
    nodes are all targets of edges is valid; the cycles found are returned as
    warnings beside the verdict and the search for them always returns. *)
Theorem validateWorkflow_verdict (w : Workflow) :
  (isValid (fst (validateWorkflow w)) = true <->
     hasTrigger w /\
     forall n, n ∈ nodes w -> notTriggerById (nodes w) (node_id n) = true ->
               connected w (node_id n))
  /\ (~ hasTrigger w ->
      isValid (fst (validateWorkflow w)) = false
      /\ In missingTriggerMessage (errors (fst (validateWorkflow w))))
  /\ (hasTrigger w ->
      (forall n, n ∈ nodes w -> node_type n <> NT_trigger -> targeted w (node_id n)) ->
      isValid (fst (validateWorkflow w)) = true)
  /\ (exists st, detectCyclesRun w = Some st /\ snd (validateWorkflow w) = cycles st).
Proof.
  assert (Hiff : isValid (fst (validateWorkflow w)) = true <->
     hasTrigger w /\
     forall n, n ∈ nodes w -> notTriggerById (nodes w) (node_id n) = true ->
               connected w (node_id n)).
  { unfold validateWorkflow. simpl. rewrite length_app_zero, orphanErrors_nil.
    rewrite <- hasTrigger_filter.
    destruct (Nat.eqb (length (List.filter isTrigger (nodes w))) 0); split.
    - intros [Hbad _]. discriminate Hbad.
    - intros [Hbad _]. discriminate Hbad.
    - intros [_ H]. split; [reflexivity|exact H].
    - intros [_ H]. split; [reflexivity|exact H]. }
  split; [exact Hiff|]. split; [|split].
  - intros Hno. split.
    + destruct (isValid (fst (validateWorkflow w))) eqn:Hv; [|reflexivity].
      exfalso. apply Hno. by apply Hiff.
    + unfold validateWorkflow. simpl. apply in_or_app. left.
      destruct (Nat.eqb (length (List.filter isTrigger (nodes w))) 0) eqn:Hlen.
      * left. reflexivity.
      * exfalso. apply Hno. by apply hasTrigger_filter.
  - intros Ht Hall. apply Hiff. split; [exact Ht|].
    by apply targeted_nodes_connected.
  - unfold validateWorkflow. simpl. apply detectCycles_returns.
Qed.

(** C3, counterexample: the node [feeder] is not a start node and no edge
    points to it, yet the graph is accepted, because [feeder] is the source
    of an edge. *)
Lemma validateWorkflow_accepts_source_only : ~ orphanRuleAsStated.
Proof.
  intros Hrule. specialize (Hrule sourceOnlyGraph).
  assert (Hvalid : isValid (fst (validateWorkflow sourceOnlyGraph)) = true)
    by (vm_compute; reflexivity).
  rewrite Hrule in Hvalid; [discriminate|].
  exists (mkNode "feeder" NT_action "Feeder" emptyConfig).
  split; [right; left|]. split; [discriminate|].
  intros (e & He & Ht). simpl in He.
  apply list_elem_of_singleton in He. subst e. simpl in Ht. discriminate.
Qed.

(** C3, at a graph with a cycle: valid, with one warning. *)
Lemma validateWorkflow_verdict_witness :
  isValid (fst (validateWorkflow cyclicGraph)) = true
  /\ snd (validateWorkflow cyclicGraph) = [["a"; "b"]].
Proof.
  split.
  - apply (proj1 (proj2 (proj2 (validateWorkflow_verdict cyclicGraph)))).
    + exists (mkNode "t" NT_trigger "T" emptyConfig). split; [left|reflexivity].
    + intros n Hn Hnt. simpl in Hn.
      repeat (apply elem_of_cons in Hn as [->|Hn]); [by exfalso| | |inversion Hn].
      * exists (mkEdge "e1" "t" "a" None). split; [left|reflexivity].
      * exists (mkEdge "e2" "a" "b" None). split; [right; left|reflexivity].
  - vm_compute. reflexivity.
Defined.

(** ** Retry with backoff *)

Section RetryBackoff.
Context {lang : Language}.

(** A run of retryable failures only moves the loop forward. *)
Lemma retryLoop_skips_retryable (cfg : RetryConfig) (operation : nat -> Outcome) (n : nat) :
  n = Z.to_nat (maxRetries cfg) ->
  forall count from lastError total trace,
    from + count <= n ->
    (forall j, from <= j < from + count -> retryableAt cfg operation j) ->
    exists lastError',
      retryLoop cfg operation (n - from + 1) from lastError total trace
      = retryLoop cfg operation (n - (from + count) + 1) (from + count) lastError'
          (sleptFor cfg from count total) (trace ++ retriedAttempts cfg from count).
Proof.
  intros Hn. induction count as [|count IH]; intros from lastError total trace Hle Hretry.
  - exists lastError. unfold sleptFor, retriedAttempts. simpl.
    rewrite Nat.add_0_r, app_nil_r. reflexivity.
  - destruct (Hretry from) as (m & Hm & Hclass); [lia|].
    destruct (IH (S from) (Some m) (numAdd total (backoffDelay cfg from))
                 ((trace ++ [Call from]) ++ [Sleep (backoffDelay cfg from)]))
      as (lastError' & Hrest); [lia|intros j Hj; apply Hretry; lia|].
    exists lastError'.
    replace (n - from + 1) with (S (n - S from + 1)) by lia.
    replace (from + S count) with (S from + count) by lia.
    assert (Hslept : sleptFor cfg from (S count) total
                     = sleptFor cfg (S from) count (numAdd total (backoffDelay cfg from)))
      by reflexivity.
    assert (Htrace : trace ++ retriedAttempts cfg from (S count)
                     = ((trace ++ [Call from]) ++ [Sleep (backoffDelay cfg from)])
                         ++ retriedAttempts cfg (S from) count).
    { unfold retriedAttempts. simpl. rewrite <- !app_assoc. reflexivity. }
    rewrite Hslept, Htrace, <- Hrest. clear Hrest IH Hslept Htrace.
    assert (Hnotlast : (Z.of_nat from =? maxRetries cfg)%Z = false).
    { apply Z.eqb_neq. intros Heq. rewrite <- Heq, Nat2Z.id in Hn. lia. }
    simpl.
    destruct (operation from) as [v|m'|]; simpl in Hm; [discriminate| |];
      injection Hm as <-; rewrite Hclass, Hnotlast; reflexivity.
Qed.

Lemma executeWithRetry_reaches (cfg : RetryConfig) (operation : nat -> Outcome) (k : nat) :
  1 <= k <= Z.to_nat (maxRetries cfg) ->
  (forall j, 1 <= j < k -> retryableAt cfg operation j) ->
  exists lastError,
    executeWithRetry cfg operation
    = retryLoop cfg operation (S (Z.to_nat (maxRetries cfg) - k)) k lastError
        (delayUpTo cfg k) (retriedAttempts cfg 1 (k - 1)).
Proof.
  intros Hk Hretry.
  destruct (retryLoop_skips_retryable cfg operation (Z.to_nat (maxRetries cfg)) eq_refl
              (k - 1) 1 None (numOfZ 0) []) as (lastError & Hskip);
    [lia|intros j Hj; apply Hretry; lia|].
  exists lastError. unfold executeWithRetry, delayUpTo.
  replace (Z.to_nat (maxRetries cfg)) with (Z.to_nat (maxRetries cfg) - 1 + 1) at 1 by lia.
  rewrite Hskip. replace (1 + (k - 1)) with k by lia.
  replace (Z.to_nat (maxRetries cfg) - k + 1) with (S (Z.to_nat (maxRetries cfg) - k)) by lia.
  reflexivity.
Qed.

(** C5.  [executeWithRetry] calls the operation until it resolves, fails with
    an error that is classified as not retryable, or [maxRetries] attempts
    are used up.  After a failed attempt [j] that is followed by another
    attempt it sleeps [retryDelayMs * backoffMultiplier ^ (j - 1)], computed
    in the arithmetic of the host, and after the attempt that ends the run it
    does not sleep; the total delay is the sum of the sleeps.  An error that
    is not retryable ends the run at once, with the attempts made so far.
    With three attempts allowed, an operation whose first two attempts fail
    with retryable errors and whose third resolves gives success with
    [attempts = 3], after sleeps of [retryDelayMs] times the factor to the
    powers 0 and 1. *)
Theorem executeWithRetry_spec (cfg : RetryConfig) (operation : nat -> Outcome) (k : nat) :
  1 <= k <= Z.to_nat (maxRetries cfg) ->
  (forall j, 1 <= j < k -> retryableAt cfg operation j) ->
  (forall v, operation k = Resolved v ->
     executeWithRetry cfg operation
     = (mkRetryResult true (Some v) None (Z.of_nat k) (delayUpTo cfg k),
        traceUpTo cfg k))
  /\ (forall m, failureMessage (operation k) = Some m ->
       isRetryableError cfg m = false ->
       executeWithRetry cfg operation
       = (mkRetryResult false None (Some m) (Z.of_nat k) (delayUpTo cfg k),
          traceUpTo cfg k))
  /\ (forall m, failureMessage (operation k) = Some m ->
       isRetryableError cfg m = true ->
       k = Z.to_nat (maxRetries cfg) ->
       executeWithRetry cfg operation
       = (retriesExceeded cfg (Some m) (delayUpTo cfg k), traceUpTo cfg k))
  /\ (forall v, k = 3 -> operation 3 = Resolved v ->
       let first := numMul (numOfQ (retryDelayMs cfg))
                           (numPow (numOfQ (backoffMultiplier cfg)) 0) in
       let second := numMul (numOfQ (retryDelayMs cfg))
                            (numPow (numOfQ (backoffMultiplier cfg)) 1) in
       executeWithRetry cfg operation
       = (mkRetryResult true (Some v) None 3 (numAdd (numAdd (numOfZ 0) first) second),
          [Call 1; Sleep first; Call 2; Sleep second; Call 3])).
Proof.
  intros Hk Hretry.
  destruct (executeWithRetry_reaches cfg operation k Hk Hretry) as (lastError & ->).
  unfold traceUpTo. simpl. repeat split.
  - intros v ->. reflexivity.
  - intros m Hm Hclass.
    destruct (operation k) as [v|m'|]; simpl in Hm; [discriminate| |];
      injection Hm as <-; rewrite Hclass; reflexivity.
  - intros m Hm Hclass Hlast.
    assert (Heq : (Z.of_nat k =? maxRetries cfg)%Z = true).
    { apply Z.eqb_eq. rewrite Hlast, Z2Nat.id; lia. }
    destruct (operation k) as [v|m'|]; simpl in Hm; [discriminate| |];
      injection Hm as <-; rewrite Hclass, Heq; reflexivity.
  - intros v -> Hv. rewrite Hv. reflexivity.
Qed.

End RetryBackoff.

(** C5 at the run of the example, in a host without rounding: two timeouts,
    then success at the third attempt, after sleeps of 1000 and 2000
    milliseconds. *)
Lemma executeWithRetry_spec_witness :
  executeWithRetry (lang := plainLanguage) threeAttempts timeoutTwiceThenOk
  = (mkRetryResult true (Some (JStr "done")) None 3 (delayUpTo threeAttempts 3),
     [Call 1; Sleep (sleepAfter threeAttempts 1);
      Call 2; Sleep (sleepAfter threeAttempts 2); Call 3])
  /\ Qeq (sleepAfter (lang := plainLanguage) threeAttempts 1) 1000
  /\ Qeq (sleepAfter (lang := plainLanguage) threeAttempts 2) 2000
  /\ Qeq (delayUpTo (lang := plainLanguage) threeAttempts 3) 3000.
Proof.
  split; [|repeat split; vm_compute; reflexivity].
  apply (proj1 (executeWithRetry_spec (lang := plainLanguage) threeAttempts
                  timeoutTwiceThenOk 3
                  ltac:(vm_compute; lia)
                  ltac:(intros j Hj; assert (j = 1 \/ j = 2) as [-> | ->] by lia;
                        exists "Request Timeout"; split; reflexivity))
               (JStr "done") eq_refl).
Defined.

(** ** Majority vote *)

Lemma mapGet_mapSet_eq {V : Type} (k : option string) (v : V) (m : list (option string * V)) :
  mapGet k (mapSet k v m) = Some v.
Proof.
  induction m as [|[k' v'] m IH]; simpl.
  - by rewrite decide_True.
  - destruct (decide (k = k')) as [->|Hne]; simpl.
    + by rewrite decide_True.
    + by rewrite decide_False.
Qed.

Lemma mapGet_mapSet_ne {V : Type} (k k0 : option string) (v : V)
    (m : list (option string * V)) :
  k0 <> k -> mapGet k0 (mapSet k v m) = mapGet k0 m.
Proof.
  intros Hne. induction m as [|[k' v'] m IH]; simpl.
  - by rewrite decide_False.
  - destruct (decide (k = k')) as [->|Hne']; simpl.
    + by rewrite !decide_False.
    + destruct (decide (k0 = k')); [reflexivity|exact IH].
Qed.

Lemma mapGet_In {V : Type} (k : option string) (v : V) (m : list (option string * V)) :
  mapGet k m = Some v -> In (k, v) m.
Proof.
  induction m as [|[k' v'] m IH]; simpl; [discriminate|].
  destruct (decide (k = k')) as [->|Hne].
  - intros [= ->]. by left.
  - intros H. right. by apply IH.
Qed.

Lemma mapGet_None_keys {V : Type} (k : option string) (m : list (option string * V)) :
  mapGet k m = None -> ~ In k (map fst m).
Proof.
  induction m as [|[k' v'] m IH]; simpl; [tauto|].
  destruct (decide (k = k')) as [->|Hne]; [discriminate|].
  intros H [Heq|Hin]; [congruence|by apply IH].
Qed.

Lemma mapSet_keys {V : Type} (k : option string) (v : V) (m : list (option string * V)) :
  map fst (mapSet k v m)
  = match mapGet k m with
    | Some _ => map fst m
    | None => map fst m ++ [k]
    end.
Proof.
  induction m as [|[k' v'] m IH]; simpl; [reflexivity|].
  destruct (decide (k = k')) as [->|Hne]; simpl; [reflexivity|].
  rewrite IH. by destruct (mapGet k m).
Qed.

Lemma mapSet_NoDup {V : Type} (k : option string) (v : V) (m : list (option string * V)) :
  List.NoDup (map fst m) -> List.NoDup (map fst (mapSet k v m)).
Proof.
  intros Hnd. rewrite mapSet_keys. destruct (mapGet k m) eqn:Hget; [exact Hnd|].
  apply NoDup_app_remove_l with (l := []). simpl.
  apply (Permutation.Permutation_NoDup (l := k :: map fst m)).
  - apply Permutation.Permutation_cons_append.
  - constructor; [by apply mapGet_None_keys|exact Hnd].
Qed.

Lemma NoDup_mapGet {V : Type} (k : option string) (v : V) (m : list (option string * V)) :
  List.NoDup (map fst m) -> In (k, v) m -> mapGet k m = Some v.
Proof.
  induction m as [|[k' v'] m IH]; simpl; [tauto|].
  intros Hnd [[= -> ->]|Hin].
  - by rewrite decide_True.
  - inversion Hnd as [|? ? Hnotin Hnd']; subst.
    rewrite decide_False; [by apply IH|].
    intros ->. apply Hnotin. apply in_map_iff. by exists (k', v).
Qed.

Lemma votesOfKey_snoc (done : list JValue) (r : JValue) (key : option string) :
  votesOfKey (done ++ [r]) key
  = votesOfKey done key + (if decide (JSON_stringify r = key) then 1 else 0).
Proof.
  unfold votesOfKey. rewrite List.filter_app, length_app. simpl.
  destruct (decide (JSON_stringify r = key)) as [He|He].
  - by rewrite bool_decide_eq_true_2.
  - by rewrite bool_decide_eq_false_2.
Qed.

(** The vote table holds, for each text, the number of results with that
    text, and no text twice. *)
Lemma countVotes_tally_from (rest done : list JValue) (table : list (option string * nat)) :
  List.NoDup (map fst table) ->
  (forall key, tally table key = votesOfKey done key) ->
  let table' :=
    fold_left
      (fun resultCounts result =>
         let key := JSON_stringify result in
         mapSet key (match mapGet key resultCounts with
                     | Some n => n
                     | None => 0
                     end + 1) resultCounts)
      rest table in
  List.NoDup (map fst table')
  /\ forall key, tally table' key = votesOfKey (done ++ rest) key.
Proof.
  revert done table. induction rest as [|r rest IH]; intros done table Hnd Htally; simpl.
  - split; [exact Hnd|]. intros key. by rewrite app_nil_r.
  - replace (done ++ r :: rest) with ((done ++ [r]) ++ rest)
      by (rewrite <- app_assoc; reflexivity).
    apply IH; [by apply mapSet_NoDup|].
    intros key. rewrite votesOfKey_snoc. unfold tally at 1.
    destruct (decide (JSON_stringify r = key)) as [<-|Hne].
    + rewrite mapGet_mapSet_eq. specialize (Htally (JSON_stringify r)).
      unfold tally in Htally. by rewrite Htally.
    + rewrite mapGet_mapSet_ne by congruence. rewrite Nat.add_0_r. apply Htally.
Qed.

Lemma countVotes_tally (results : list JValue) :
  List.NoDup (map fst (countVotes results))
  /\ forall key, tally (countVotes results) key = votesOfKey results key.
Proof.
  apply (countVotes_tally_from results [] []); [constructor|reflexivity].
Qed.

Lemma countVotes_entry (results : list JValue) key count :
  In (key, count) (countVotes results) -> count = votesOfKey results key.
Proof.
  intros Hin. destruct (countVotes_tally results) as [Hnd Htally].
  rewrite <- Htally. unfold tally. by rewrite (NoDup_mapGet key count _ Hnd Hin).
Qed.

Lemma votesOfKey_pos (results : list JValue) (r : JValue) :
  In r results -> 1 <= votesFor results r.
Proof.
  intros Hin. unfold votesFor, votesOfKey.
  assert (Hf : In r (List.filter
                       (fun x => bool_decide (JSON_stringify x = JSON_stringify r)) results)).
  { apply filter_In. split; [exact Hin|]. by apply bool_decide_eq_true. }
  destruct (List.filter _ results); [inversion Hf|simpl; lia].
Qed.

Lemma countVotes_has (results : list JValue) (r : JValue) :
  In r results -> In (JSON_stringify r, votesFor results r) (countVotes results).
Proof.
  intros Hin. destruct (countVotes_tally results) as [_ Htally].
  specialize (Htally (JSON_stringify r)). unfold tally in Htally.
  pose proof (votesOfKey_pos results r Hin) as Hpos. unfold votesFor in *.
  destruct (mapGet (JSON_stringify r) (countVotes results)) as [n|] eqn:Hget; [|lia].
  subst n. by apply mapGet_In.
Qed.

Lemma votesOfKey_witness (results : list JValue) key :
  1 <= votesOfKey results key -> exists r, In r results /\ JSON_stringify r = key.
Proof.
  unfold votesOfKey. intros Hpos.
  destruct (List.filter (fun x => bool_decide (JSON_stringify x = key)) results)
    as [|r l] eqn:Hf; [simpl in Hpos; lia|].
  assert (Hin : In r (List.filter (fun x => bool_decide (JSON_stringify x = key)) results))
    by (rewrite Hf; by left).
  apply filter_In in Hin as [Hin Hb]. exists r. split; [exact Hin|].
  by apply bool_decide_eq_true in Hb.
Qed.

Lemma parseKey_found (results : list JValue) (text : string) :
  (exists r, In r results /\ JSON_stringify r = Some text) ->
  exists r, In r results /\ JSON_stringify r = Some text
            /\ parseKey results (Some text) = Ok (jsonRoundTrip r).
Proof.
  intros (r0 & Hin0 & Hkey0). unfold parseKey.
  destruct (List.find (fun r => bool_decide (JSON_stringify r = Some text)) results)
    as [r|] eqn:Hfind.
  - apply find_some in Hfind as [Hin Hb]. apply bool_decide_eq_true in Hb. by exists r.
  - pose proof (find_none _ _ Hfind r0 Hin0) as Hb. simpl in Hb.
    by rewrite bool_decide_eq_true_2 in Hb.
Qed.

(** The second loop keeps the largest count met so far and a result that
    received it. *)
Lemma pickMajority_max (results : list JValue) (entries : list (option string * nat)) :
  (forall r, In r results -> JSON_stringify r <> None) ->
  (forall key count, In (key, count) entries -> count = votesOfKey results key) ->
  forall best bestCount,
    exists winner count,
      pickMajority results entries best bestCount = Ok (winner, count)
      /\ bestCount <= count
      /\ (forall key c, In (key, c) entries -> c <= count)
      /\ ((winner = best /\ count = bestCount)
          \/ exists r, In r results /\ winner = jsonRoundTrip r
                       /\ votesFor results r = count).
Proof.
  intros Hdefined.
  induction entries as [|[key c] entries IH]; intros Hentries best bestCount; simpl.
  - exists best, bestCount. repeat split; [lia|tauto|by left].
  - assert (Hrest : forall key' count', In (key', count') entries ->
                      count' = votesOfKey results key').
    { intros key' count' Hin. apply Hentries. by right. }
    pose proof (Hentries key c (or_introl eq_refl)) as Hc.
    destruct (bestCount <? c) eqn:Hlt.
    + apply Nat.ltb_lt in Hlt.
      destruct (votesOfKey_witness results key) as (r0 & Hr0 & Hkey0); [lia|].
      destruct key as [text|]; [|by apply Hdefined in Hr0].
      destruct (parseKey_found results text) as (r & Hr & Hkey & ->); [by exists r0|].
      destruct (IH Hrest (jsonRoundTrip r) c) as (winner & count & -> & Hle & Hall & Hwho).
      exists winner, count. repeat split; [lia| |].
      * intros key' c' [[= <- <-]|Hin]; [exact Hle|by apply (Hall key')].
      * right. destruct Hwho as [[-> ->]|Hwho]; [|exact Hwho].
        exists r. repeat split; [exact Hr|]. unfold votesFor. by rewrite Hkey.
    + apply Nat.ltb_ge in Hlt.
      destruct (IH Hrest best bestCount) as (winner & count & -> & Hle & Hall & Hwho).
      exists winner, count. repeat split; [exact Hle| |exact Hwho].
      intros key' c' [[= <- <-]|Hin]; [lia|by apply (Hall key')].
Qed.

Lemma resultOf_answer (s : SpawnOutcome) :
  truthy (answerOf s) = true -> resultOf s = answerOf s.
Proof.
  unfold resultOf, answerOf. destruct (so_data s) as [d|]; [|discriminate].
  cbv zeta. by intros ->.
Qed.

Section MajorityVote.
Context {host : Host}.

(** C7.  With strategy [majority], when every child has an answer that is
    truthy and has a JSON text, the aggregate is a record of the winning
    answer, its share of the votes and the number of votes: the votes of an
    answer are the answers with the same JSON text, the winner is one of the
    answers, no answer has more votes than the winner, the confidence is the
    winner's votes over the total.  Two children answering [{ok: true}] and
    one answering [{ok: false}] give [{ok: true}] with confidence 2/3 and
    three votes, wherever the dissenting child stands.  Two children writing
    the same record with the properties in another order give the first of
    the two with confidence 1/2. *)
Theorem aggregate_majority (spawnResults : list SpawnOutcome)
    (customAggregation : option string) :
  spawnResults <> [] ->
  (forall s, In s spawnResults -> truthy (answerOf s) = true) ->
  (forall s, In s spawnResults -> JSON_stringify (answerOf s) <> None) ->
  let answers := map answerOf spawnResults in
  (exists winner,
     In winner answers
     /\ (forall r, In r answers -> votesFor answers r <= votesFor answers winner)
     /\ aggregateResults spawnResults AS_majority customAggregation
        = Ok (AggVotes
                (mkMajorityResult (jsonRoundTrip winner)
                   (Some (Qred (Z.of_nat (votesFor answers winner)
                                # Pos.of_nat (length spawnResults))))
                   (length spawnResults))))
  /\ (forall i j k dissent,
        dissent = [okFalse; okTrue; okTrue] \/ dissent = [okTrue; okFalse; okTrue]
        \/ dissent = [okTrue; okTrue; okFalse] ->
        aggregateResults
          (zip_with childAnswer [i; j; k] dissent) AS_majority customAggregation
        = Ok (AggVotes (mkMajorityResult okTrue (Some (2 # 3)) 3)))
  /\ (forall i j,
        aggregateResults
          [childAnswer i sizeThenColour; childAnswer j colourThenSize]
          AS_majority customAggregation
        = Ok (AggVotes (mkMajorityResult sizeThenColour (Some (1 # 2)) 2))).
Proof.
  intros Hne Htruthy Hdefined answers. split; [|split].
  - assert (Hresults : map resultOf spawnResults = answers).
    { apply map_ext_in. intros s Hs. by apply resultOf_answer, Htruthy. }
    assert (Hdef : forall r, In r answers -> JSON_stringify r <> None).
    { intros r Hr. apply in_map_iff in Hr as (s & <- & Hs). by apply Hdefined. }
    destruct (pickMajority_max answers (countVotes answers) Hdef
                (countVotes_entry answers) JNull 0)
      as (winner & count & Hpick & _ & Hall & Hwho).
    assert (Hsome : exists r0, In r0 answers).
    { destruct spawnResults as [|s0 rest]; [congruence|].
      exists (answerOf s0). by left. }
    destruct Hsome as (r0 & Hr0).
    pose proof (Hall _ _ (countVotes_has answers r0 Hr0)) as Hr0le.
    pose proof (votesOfKey_pos answers r0 Hr0) as Hr0pos.
    destruct Hwho as [[_ ->]|(r & Hr & -> & Hvotes)]; [lia|].
    exists r. split; [exact Hr|]. split.
    + intros r' Hr'. rewrite Hvotes. apply (Hall (JSON_stringify r')).
      by apply countVotes_has.
    + unfold aggregateResults, aggregateByMajority. rewrite Hresults, Hpick.
      unfold ratio. subst answers. rewrite length_map, Hvotes.
      destruct (length spawnResults) eqn:Hlen; [|reflexivity].
      apply length_zero_iff_nil in Hlen. congruence.
  - intros i j k dissent [-> | [-> | ->]]; reflexivity.
  - intros i j. reflexivity.
Qed.

End MajorityVote.

(** C7, counterexample: two children write the same record with the
    properties in another order; under deep equality the record has both
    votes, the aggregate gives it one of two. *)
Lemma aggregate_majority_as_stated_fails : ~ majorityAsStated.
Proof.
  intros Hstated.
  destruct (Hstated silentHost [0%Z; 1%Z] [sizeThenColour; colourThenSize] eq_refl
              ltac:(discriminate))
    as (m & winner & Hagg & Hin & _ & _ & Hconfidence & _).
  vm_compute in Hagg. injection Hagg as <-.
  destruct Hin as [<-|[<-|[]]]; vm_compute in Hconfidence; discriminate Hconfidence.
Qed.

(** C7 at the run of the example. *)
Lemma aggregate_majority_witness :
  exists winner,
    In winner (map answerOf twoToOne)
    /\ aggregateResults (host := silentHost) twoToOne AS_majority None
       = Ok (AggVotes
               (mkMajorityResult (jsonRoundTrip winner)
                  (Some (Qred (Z.of_nat (votesFor (map answerOf twoToOne) winner) # 3)))
                  3)).
Proof.
  destruct (proj1 (@aggregate_majority silentHost twoToOne None
                     ltac:(discriminate)
                     ltac:(intros s [<- | [<- | [<- | []]]]; reflexivity)
                     ltac:(intros s [<- | [<- | [<- | []]]]; discriminate)))
    as (winner & Hin & _ & Hagg).
  exists winner. split; [exact Hin|exact Hagg].
Defined.

(** ** Guard evaluation *)

Section GuardErrors.
Context {host : Host}.


End GuardErrors.


(** ** The check of expressions before they are run *)

Section UnsafeExpressions.
Context {host : Host}.

(** C9, at the failing input.  The text [process.env] is on the list of
    unsafe patterns and [safeEval] refuses it, but as a custom aggregation it
    is handed to the host as it stands: the aggregate is whatever the host
    makes of it.  A text that reaches the same object without a listed
    pattern passes the check of [safeEval] too. *)
Theorem custom_aggregation_is_not_checked (results : list JValue)
    (context : list (string * HostValue)) :
  containsUnsafeCode "process.env" = true
  /\ safeEval "process.env" context = Throw "Expression contains unsafe code"
  /\ executeCustomAggregation results "process.env"
     = match runFunction (aggregationContext results) "return process.env" with
       | Ok v => v
       | Throw _ => JArr results
       end
  /\ containsUnsafeCode "globalThis['process']['env']" = false
  /\ safeEval "globalThis['process']['env']" context
     = match runFunction context "return globalThis['process']['env']" with
       | Ok v => Ok v
       | Throw e => Throw ("Expression evaluation failed: " +:+ e)
       end.
Proof.
  repeat split.
Qed.

End UnsafeExpressions.

(** C9 in a host where the access succeeds: the secret is the aggregate, and
    the guard of a condition reads it as well. *)
Lemma custom_aggregation_leaks :
  @aggregateResults leakyHost [] AS_custom (Some "process.env")
  = Ok (AggValue (JObj [("GROQ_API_KEY", JStr "secret")]))
  /\ @safeEval leakyHost "globalThis['process']['env']" []
     = Ok (JObj [("GROQ_API_KEY", JStr "secret")]).
Proof. split; reflexivity. Qed.

(** ** Approval gate *)

Lemma isCircular_false (results : gmap string JValue) :
  isCircular results = false <->
  forall k v, results !! k = Some v -> holdsStepResultsRef v = false.
Proof.
  unfold isCircular. split.
  - intros Hnone k v Hkv.
    destruct (holdsStepResultsRef v) eqn:Hv; [|reflexivity].
    assert (Hex : existsb (fun kv => holdsStepResultsRef (snd kv)) (map_to_list results)
                  = true).
    { apply existsb_exists. exists (k, v). split; [|exact Hv].
      apply list_elem_of_In. by apply elem_of_map_to_list. }
    congruence.
  - intros Hall.
    destruct (existsb (fun kv => holdsStepResultsRef (snd kv)) (map_to_list results))
      eqn:Hex; [|reflexivity].
    apply existsb_exists in Hex as ([k v] & Hin & Hv).
    apply list_elem_of_In, elem_of_map_to_list in Hin. simpl in Hv.
    rewrite (Hall k v Hin) in Hv. discriminate.
Qed.

Lemma isCircular_insert (results : gmap string JValue) k v :
  isCircular results = false -> holdsStepResultsRef v = false ->
  isCircular (<[k := v]> results) = false.
Proof.
  rewrite !isCircular_false. intros Hall Hv k' v' Hlook.
  destruct (decide (k = k')) as [->|Hne].
  - rewrite lookup_insert_eq in Hlook. by injection Hlook as <-.
  - rewrite lookup_insert_ne in Hlook by exact Hne. by apply (Hall k').
Qed.

Lemma isCircular_singleton k v :
  holdsStepResultsRef v = false -> isCircular ({[k := v]} : gmap string JValue) = false.
Proof.
  intros Hv. apply isCircular_false. intros k' v' Hlook.
  apply lookup_singleton_Some in Hlook as [_ <-]. exact Hv.
Qed.

(** What [updateExecutionStatus] leaves in the store. *)
Lemma updateExecutionStatus_stored eid st updates s execution :
  getExecution eid s = Some execution ->
  executionId execution = eid ->
  isCircular (stepResults (applyUpdates updates execution)) = false ->
  exists s',
    updateExecutionStatus eid st updates s = Ok s'
    /\ getExecution eid s'
       = Some (serialized (set_updatedAt (clock s)
                             (set_status st (applyUpdates updates execution))))
    /\ approvalsKV s' = approvalsKV s
    /\ clock s' = clock s.
Proof.
  intros Hget Hid Hacyclic. unfold updateExecutionStatus, saveExecution. rewrite Hget.
  simpl. rewrite Hacyclic. eexists. split; [reflexivity|].
  unfold getExecution. simpl.
  assert (Hkey : executionId (applyUpdates updates execution) = eid).
  { unfold applyUpdates. by destruct updates as [[?|] [?|] [?|] [?|]]. }
  rewrite Hkey, lookup_insert_eq. auto.
Qed.

Lemma pendingRecord_plain message now timeoutAt :
  holdsStepResultsRef (pendingRecord message now timeoutAt) = false.
Proof. by destruct timeoutAt. Qed.

(** The approval step, for an execution that is in the store. *)
Lemma ApprovalExecutor_execute_pauses (node : WorkflowNode) (c : ExecutionContext)
    (s : Store) (stored : ExecutionContext) :
  isValid (ApprovalExecutor_validateConfig (node_config node)) = true ->
  getExecution (executionId c) s = Some stored ->
  executionId stored = executionId c ->
  isCircular (stepResults c) = false ->
  exists request paused_execution,
    let r := ApprovalExecutor_execute node c s in
    apr_success (fst r) = true
    /\ getExecution (executionId c) (snd r) = Some paused_execution
    /\ status paused_execution = paused
    /\ currentNodeId paused_execution = Some (node_id node)
    /\ approvalsKV (snd r) = <[executionId c := request]> (approvalsKV s)
    /\ ar_executionId request = executionId c
    /\ ar_nodeId request = node_id node
    /\ variables paused_execution = roundTripMap (variables stored).
Proof.
  intros Hvalid Hget Hid Hacyclic.
  unfold ApprovalExecutor_execute. rewrite Hvalid. simpl.
  unfold saveApprovalRequest. rewrite Hacyclic, andb_false_r. simpl.
  match goal with
  | |- context [updateExecutionStatus _ paused ?u ?s1] =>
      destruct (updateExecutionStatus_stored (executionId c) paused u s1 stored)
        as (s2 & Hupd & Hstored & Happrovals & _);
        [exact Hget|exact Hid| |]
  end.
  { simpl. apply isCircular_insert; [exact Hacyclic|].
    by destruct (timeoutMinutes (node_config node)) as [m|]; [destruct (m =? 0)%Z|]. }
  destruct (updateExecutionStatus _ _ _ _) as [s0|m]; [|discriminate Hupd].
  injection Hupd as ->. eexists _, _. simpl.
  split; [reflexivity|]. split; [exact Hstored|]. split; [reflexivity|].
  split; [reflexivity|]. split; [exact Happrovals|]. repeat split; reflexivity.
Qed.





(** ** The traversal loop ends *)

Lemma list_sum_le (f g : string -> nat) (ids : list string) :
  (forall y, g y <= f y) -> list_sum (map g ids) <= list_sum (map f ids).
Proof.
  intros Hle. induction ids as [|y ids IH]; simpl; [lia|]. specialize (Hle y). lia.
Qed.

Lemma list_sum_lt (f g : string -> nat) (ids : list string) (x : string) :
  In x ids -> g x < f x -> (forall y, g y <= f y) ->
  list_sum (map g ids) < list_sum (map f ids).
Proof.
  intros Hin Hlt Hle. induction ids as [|y ids IH]; [inversion Hin|].
  simpl. pose proof (list_sum_le f g ids Hle) as Hrest.
  destruct Hin as [->|Hin].
  - lia.
  - specialize (IH Hin). specialize (Hle y). lia.
Qed.

(** One more visit of [nid] lowers the budget. *)
Lemma visit_lowers_budget (limit : nat) (visited : gset string)
    (counts : gmap string nat) (ids : list string) (nid : string) :
  In nid ids ->
  1 <= limit ->
  (nid ∈ visited -> match counts !! nid with Some k => k | None => 0 end < limit) ->
  list_sum (map (budget limit ({[nid]} ∪ visited)
                   (<[nid := match counts !! nid with Some k => k | None => 0 end + 1]>
                      counts)) ids)
  < list_sum (map (budget limit visited counts) ids).
Proof.
  intros Hin Hlimit Hbelow. apply (list_sum_lt _ _ ids nid Hin).
  - unfold budget.
    rewrite decide_True by (apply elem_of_union_l; by apply elem_of_singleton).
    rewrite lookup_insert_eq.
    destruct (decide (nid ∈ visited)) as [Hv|Hv]; [specialize (Hbelow Hv)|]; lia.
  - intros y. unfold budget. destruct (decide (y = nid)) as [->|Hne].
    + rewrite decide_True by (apply elem_of_union_l; by apply elem_of_singleton).
      rewrite lookup_insert_eq. destruct (decide (nid ∈ visited)); lia.
    + rewrite lookup_insert_ne by congruence.
      destruct (decide (y ∈ visited)) as [Hy|Hy].
      * rewrite decide_True by (by apply elem_of_union_r). lia.
      * rewrite decide_False; [lia|].
        intros Hyin. apply elem_of_union in Hyin as [Hyin|Hyin]; [|exact (Hy Hyin)].
        apply elem_of_singleton in Hyin. exact (Hne Hyin).
Qed.

Lemma targetNodes_in_workflow (w : Workflow) (es : list WorkflowEdge) (n : WorkflowNode) :
  In n (targetNodes w es) -> In n (nodes w).
Proof.
  unfold targetNodes. intros Hin. apply in_flat_map in Hin as (e & _ & Hn).
  destruct (findNode (nodes w) (target e)) as [m|] eqn:Hfind; [|inversion Hn].
  destruct Hn as [<-|[]]. unfold findNode in Hfind. by apply find_some in Hfind as [? _].
Qed.

Lemma getNextNodes_in_workflow (w : Workflow) (node n : WorkflowNode) :
  In n (getNextNodes w node) -> In n (nodes w).
Proof. apply targetNodes_in_workflow. Qed.

Lemma getConditionalNextNodes_in_workflow (w : Workflow) (node n : WorkflowNode) (b : bool) :
  In n (getConditionalNextNodes w node b) -> In n (nodes w).
Proof. unfold getConditionalNextNodes. destruct b; apply targetNodes_in_workflow. Qed.

(** Under a name that is not inherited the count read is the entry of the
    map, and a visit writes the entry plus one. *)
Lemma ordinary_not_proto (nid : string) :
  inheritedName nid = false -> String.eqb nid "__proto__" = false.
Proof.
  intros Hordinary. apply String.eqb_neq. intros ->. vm_compute in Hordinary.
  discriminate Hordinary.
Qed.

Lemma readVisitCount_ordinary (c : ExecutionContext) (nid : string) :
  inheritedName nid = false ->
  readVisitCount c nid = CountNumber (Z.of_nat (visitCountOf c nid)).
Proof. intros Hordinary. unfold readVisitCount. by rewrite Hordinary. Qed.

Lemma countVisit_ordinary (c : ExecutionContext) (nid : string) :
  inheritedName nid = false ->
  countVisit c nid = <[nid := visitCountOf c nid + 1]> (nodeVisitCounts c).
Proof.
  intros Hordinary. unfold countVisit. by rewrite (ordinary_not_proto _ Hordinary).
Qed.

(** Under an inherited name the count read is a text, which no limit
    stops. *)
Lemma reaches_inherited (c : ExecutionContext) (nid : string) (limit : Z) :
  inheritedName nid = true -> reaches (readVisitCount c nid) limit = false.
Proof. intros Hinherited. unfold readVisitCount. by rewrite Hinherited. Qed.

Section Termination.
Context {host : Host}.
Variables (options : RequiredOptions) (w : Workflow) (triggerData : JValue).

(** A turn that goes on to the next one has used up budget and keeps the
    stack among the known nodes. *)
Lemma engineTurn_continue (ids : list string) (st st' : EngineState) :
  (forall x, In x ids -> inheritedName x = false) ->
  (forall n, In n (nodes w) -> In (node_id n) ids) ->
  stackWithin ids st ->
  engineTurn options w triggerData st = Continue st' ->
  stackWithin ids st'
  /\ totalBudget (visitLimit options) ids st' < totalBudget (visitLimit options) ids st.
Proof.
  intros Hordinary Hnodes Hstack. unfold engineTurn.
  destruct (es_stack st) as [|currentNode rest] eqn:Hst; [discriminate|].
  assert (Hcur : In (node_id currentNode) ids) by (apply Hstack; rewrite Hst; by left).
  assert (Hrest : forall n, In n rest -> In (node_id n) ids).
  { intros n Hn. apply Hstack. rewrite Hst. by right. }
  rewrite (readVisitCount_ordinary _ _ (Hordinary _ Hcur)),
          (countVisit_ordinary _ _ (Hordinary _ Hcur)).
  cbn [reaches].
  destruct (bool_decide (node_id currentNode ∈ es_visited st)
            && (opt_maxIterations options
                <=? Z.of_nat (visitCountOf (es_context st) (node_id currentNode)))%Z)
    eqn:Hcheck; [discriminate|].
  assert (Hbudget :
    list_sum (map (budget (visitLimit options) ({[node_id currentNode]} ∪ es_visited st)
                     (<[node_id currentNode :=
                          visitCountOf (es_context st) (node_id currentNode) + 1]>
                        (nodeVisitCounts (es_context st)))) ids)
    < totalBudget (visitLimit options) ids st).
  { apply visit_lowers_budget; [exact Hcur|unfold visitLimit; lia|].
    intros Hv. rewrite bool_decide_eq_true_2 in Hcheck by exact Hv. simpl in Hcheck.
    apply Z.leb_gt in Hcheck. unfold visitCountOf in Hcheck. unfold visitLimit. lia. }
  destruct (saveExecution _ (es_store st)) as [s1|m]; [|discriminate].
  destruct (executeNode w _ currentNode triggerData s1) as [[nodeResult vars] s2].
  destruct (negb (nr_success nodeResult)); [discriminate|].
  destruct (bool_decide (node_type currentNode = NT_human_approval)); [discriminate|].
  destruct (bool_decide (node_type currentNode = NT_loop)
            && truthy (jget "shouldContinue" (nr_data nodeResult))).
  - intros [= <-]. split; [|exact Hbudget].
    intros n [<-|Hn]; [exact Hcur|by apply Hrest].
  - destruct (saveExecution _ s2) as [s3|m]; [|discriminate].
    intros [= <-]. split; [|exact Hbudget].
    intros n Hn. simpl in Hn. apply in_app_or in Hn as [Hn|Hn]; [|by apply Hrest].
    apply Hnodes.
    destruct (bool_decide (node_type currentNode = NT_condition)).
    + by apply getConditionalNextNodes_in_workflow in Hn.
    + by apply getNextNodes_in_workflow in Hn.
Qed.

(** With more turns allowed than budget left, the loop ends. *)
Lemma engineLoop_ends (ids : list string) :
  (forall x, In x ids -> inheritedName x = false) ->
  (forall n, In n (nodes w) -> In (node_id n) ids) ->
  forall fuel st,
    stackWithin ids st ->
    totalBudget (visitLimit options) ids st < fuel ->
    exists final, engineLoop fuel options w triggerData st = Some final.
Proof.
  intros Hordinary Hnodes. induction fuel as [|fuel IH]; intros st Hstack Hlt; [lia|].
  simpl. destruct (loopCondition st); [|by eexists].
  destruct (engineTurn options w triggerData st) as [st'|st'|m st'] eqn:Hturn;
    [|by eexists..].
  destruct (engineTurn_continue ids st st' Hordinary Hnodes Hstack Hturn)
    as [Hstack' Hless].
  apply IH; [exact Hstack'|lia].
Qed.

(** More turns allowed do not change the outcome. *)
Lemma engineLoop_more_fuel (fuel extra : nat) (st : EngineState) final :
  engineLoop fuel options w triggerData st = Some final ->
  engineLoop (fuel + extra) options w triggerData st = Some final.
Proof.
  revert st. induction fuel as [|fuel IH]; intros st; simpl; [discriminate|].
  destruct (loopCondition st); [|tauto].
  destruct (engineTurn options w triggerData st); [apply IH|tauto..].
Qed.

Lemma initial_budget (c : ExecutionContext) (startNode : WorkflowNode) (s : Store)
    (ids : list string) :
  totalBudget (visitLimit options) ids (initialState c startNode s)
  = length ids * visitLimit options.
Proof.
  unfold totalBudget, initialState. simpl.
  induction ids as [|x ids IH]; simpl; [reflexivity|].
  rewrite IH. unfold budget at 1. rewrite decide_False by set_solver. lia.
Qed.

End Termination.

Section TraversalEnds.
Context {host : Host}.

Lemma turnBound_enough (options : RequiredOptions) (w : Workflow) (c : ExecutionContext)
    (startNode : WorkflowNode) (triggerData : JValue) (s : Store) :
  (forall n, In n (startNode :: nodes w) -> inheritedName (node_id n) = false) ->
  exists final,
    engineLoop (turnBound options w) options w triggerData (initialState c startNode s)
    = Some final.
Proof.
  intros Hordinary.
  apply (engineLoop_ends options w triggerData
           (node_id startNode :: map node_id (nodes w))).
  - intros x Hx. change (In x (map node_id (startNode :: nodes w))) in Hx.
    apply in_map_iff in Hx as (n & <- & Hn). by apply Hordinary.
  - intros n Hn. right. by apply in_map.
  - intros n [<-|[]]. by left.
  - rewrite initial_budget. unfold turnBound, visitLimit. simpl.
    rewrite length_map. lia.
Qed.

(** A turn that passes the visit check counts one more visit of the node it
    popped. *)
Lemma engineTurn_counts_visit (options : RequiredOptions) (w : Workflow)
    (triggerData : JValue) (st st' : EngineState) (node : WorkflowNode)
    (rest : list WorkflowNode) :
  inheritedName (node_id node) = false ->
  es_stack st = node :: rest ->
  engineTurn options w triggerData st = Continue st'
  \/ engineTurn options w triggerData st = Break st' ->
  visitCountOf (es_context st') (node_id node)
  = visitCountOf (es_context st) (node_id node) + 1.
Proof.
  intros Hordinary Hstack. unfold engineTurn. rewrite Hstack.
  rewrite (countVisit_ordinary _ _ Hordinary).
  destruct (bool_decide (node_id node ∈ es_visited st) && _);
    [intros [H|H]; discriminate H|].
  destruct (saveExecution _ (es_store st)) as [s1|m]; [|intros [H|H]; discriminate H].
  destruct (executeNode w _ node triggerData s1) as [[nodeResult vars] s2].
  assert (Hcount : forall c' : ExecutionContext,
            nodeVisitCounts c'
            = <[node_id node := visitCountOf (es_context st) (node_id node) + 1]>
                (nodeVisitCounts (es_context st)) ->
            visitCountOf c' (node_id node)
            = visitCountOf (es_context st) (node_id node) + 1).
  { intros c' Hc'. unfold visitCountOf at 1. by rewrite Hc', lookup_insert_eq. }
  destruct (negb (nr_success nodeResult)).
  { intros [H|H]; [discriminate H|]. injection H as <-. by apply Hcount. }
  destruct (bool_decide (node_type node = NT_human_approval)).
  { intros [H|H]; [discriminate H|]. injection H as <-. by apply Hcount. }
  destruct (bool_decide (node_type node = NT_loop) && _).
  { intros [H|H]; [|discriminate H]. injection H as <-. by apply Hcount. }
  destruct (saveExecution _ s2) as [s3|m]; [|intros [H|H]; discriminate H].
  intros [H|H]; [|discriminate H]. injection H as <-. by apply Hcount.
Qed.

(** A visited node whose count has reached the limit stops the loop with the
    iteration-limit error. *)
Lemma engineTurn_limit (options : RequiredOptions) (w : Workflow)
    (triggerData : JValue) (st : EngineState) (node : WorkflowNode)
    (rest : list WorkflowNode) :
  inheritedName (node_id node) = false ->
  es_stack st = node :: rest ->
  node_id node ∈ es_visited st ->
  (opt_maxIterations options <= Z.of_nat (visitCountOf (es_context st) (node_id node)))%Z ->
  engineTurn options w triggerData st
  = Raise (iterationLimitMessage (opt_maxIterations options) (node_id node))
          (mkEngine (es_context st) rest (es_visited st) (Some node) (es_store st)).
Proof.
  intros Hordinary Hstack Hvisited Hreached. unfold engineTurn. rewrite Hstack.
  rewrite bool_decide_eq_true_2 by exact Hvisited.
  rewrite (readVisitCount_ordinary _ _ Hordinary). cbn [reaches].
  replace (opt_maxIterations options
           <=? Z.of_nat (visitCountOf (es_context st) (node_id node)))%Z with true
    by (symmetry; by apply Z.leb_le).
  reflexivity.
Qed.

(** What is raised inside the loop ends the run as failed, unless the last
    [saveExecution] throws in its turn. *)
Lemma catchBlock_fails (m : string) (st : EngineState) :
  match fst (catchBlock m st) with
  | Ok r => er_success r = false /\ er_status r = failed /\ er_error r = Some m
  | Throw _ => True
  end.
Proof.
  unfold catchBlock. destruct (saveExecution _ (es_store st)); simpl; auto.
Qed.

End TraversalEnds.

(** The text read as the count of an inherited name grows by one digit with
    a visit. *)
Lemma ones_succ (k : nat) : ones (k + 1) = ones k +:+ "1".
Proof. induction k as [|k IH]; simpl; [reflexivity|]. rewrite IH. reflexivity. Qed.

Lemma append_assoc (a b c : string) : (a +:+ b) +:+ c = a +:+ (b +:+ c).
Proof.
  induction a as [|x a IH]; [reflexivity|].
  change (String x ((a +:+ b) +:+ c) = String x (a +:+ (b +:+ c))). by rewrite IH.
Qed.

(** On the self-edge of [toString] every turn goes on to the next one: the
    node is on the stack again, the run is still running, and the count read
    has one digit more. *)
Lemma engineTurn_toString (options : RequiredOptions) (triggerData : JValue)
    (st : EngineState) :
  es_stack st = [formatNode] ->
  isCircular (stepResults (es_context st)) = false ->
  exists st',
    engineTurn (host := obligingHost) options selfLoop triggerData st = Continue st'
    /\ es_stack st' = [formatNode]
    /\ status (es_context st') = status (es_context st)
    /\ isCircular (stepResults (es_context st')) = false
    /\ readVisitCount (es_context st') "toString"
       = plusOne (readVisitCount (es_context st) "toString").
Proof.
  intros Hstack Hacyclic. unfold engineTurn. rewrite Hstack.
  rewrite (reaches_inherited _ "toString" _ eq_refl), andb_false_r.
  cbv zeta. change (node_id formatNode) with "toString".
  unfold saveExecution at 1. cbn [stepResults set_nodeStatuses set_currentNodeId
                                   set_nodeVisitCounts].
  rewrite Hacyclic.
  unfold executeNode. cbn [node_type formatNode externalExecute obligingHost].
  cbn [negb nr_success nr_data nr_error].
  rewrite (bool_decide_eq_false_2 (NT_action = NT_human_approval)) by discriminate.
  rewrite (bool_decide_eq_false_2 (NT_action = NT_loop)) by discriminate.
  rewrite (bool_decide_eq_false_2 (NT_action = NT_condition)) by discriminate.
  cbn [andb].
  unfold saveExecution.
  cbn [stepResults set_nodeStatuses set_currentNodeId set_nodeVisitCounts set_variables
       set_stepResults set_updatedAt].
  assert (Hnext : isCircular (<["toString" := JObj [("x", JNum 1)]]>
                               (stepResults (es_context st))) = false).
  { apply isCircular_insert; [exact Hacyclic|reflexivity]. }
  rewrite Hnext.
  eexists. split; [reflexivity|].
  cbn [es_stack es_context status stepResults set_nodeStatuses set_currentNodeId set_nodeVisitCounts set_variables
       set_stepResults set_updatedAt].
  split; [vm_compute; reflexivity|].
  split; [reflexivity|].
  split; [exact Hnext|].
  unfold readVisitCount, visitCountOf, countVisit.
  cbn [nodeVisitCounts set_nodeStatuses set_currentNodeId set_nodeVisitCounts set_variables
       set_stepResults set_updatedAt inheritedName].
  change (inheritedName "toString") with true.
  change (String.eqb "toString" "__proto__") with false.
  cbn [andb plusOne]. rewrite lookup_insert_eq.
  by rewrite ones_succ, <- append_assoc.
Qed.

(** The first turn, at the trigger, leads there. *)
Lemma engineTurn_to_toString (options : RequiredOptions) (triggerData : JValue)
    (c : ExecutionContext) (s : Store) :
  isCircular (stepResults c) = false ->
  exists st',
    engineTurn (host := obligingHost) options selfLoop triggerData
               (initialState c startNodeOfSelfLoop s) = Continue st'
    /\ es_stack st' = [formatNode]
    /\ status (es_context st') = status c
    /\ isCircular (stepResults (es_context st')) = false.
Proof.
  intros Hacyclic. unfold engineTurn, initialState. cbn [es_stack es_visited es_context].
  cbv zeta. change (node_id startNodeOfSelfLoop) with "start".
  rewrite (bool_decide_eq_false_2 ("start" ∈ (∅ : gset string))) by set_solver.
  cbn [andb].
  unfold saveExecution at 1. cbn [stepResults set_nodeStatuses set_currentNodeId
                                   set_nodeVisitCounts].
  rewrite Hacyclic.
  unfold executeNode.
  cbn [node_type startNodeOfSelfLoop externalExecute obligingHost].
  cbn [negb nr_success nr_data nr_error].
  rewrite (bool_decide_eq_false_2 (NT_trigger = NT_human_approval)) by discriminate.
  rewrite (bool_decide_eq_false_2 (NT_trigger = NT_loop)) by discriminate.
  rewrite (bool_decide_eq_false_2 (NT_trigger = NT_condition)) by discriminate.
  cbn [andb].
  unfold saveExecution.
  cbn [stepResults set_nodeStatuses set_currentNodeId set_nodeVisitCounts set_variables
       set_stepResults set_updatedAt].
  assert (Hnext : isCircular (<["start" := JObj [("x", JNum 1)]]> (stepResults c)) = false).
  { apply isCircular_insert; [exact Hacyclic|reflexivity]. }
  rewrite Hnext.
  eexists. split; [reflexivity|].
  cbn [es_stack es_context status stepResults set_nodeStatuses set_currentNodeId
       set_nodeVisitCounts set_variables set_stepResults set_updatedAt].
  split; [vm_compute; reflexivity|].
  split; [reflexivity|exact Hnext].
Qed.

(** So the loop of that run never ends. *)
Lemma engineLoop_toString (options : RequiredOptions) (triggerData : JValue)
    (fuel : nat) :
  forall st,
    es_stack st = [formatNode] ->
    status (es_context st) = running ->
    isCircular (stepResults (es_context st)) = false ->
    engineLoop (host := obligingHost) fuel options selfLoop triggerData st = None.
Proof.
  induction fuel as [|fuel IH]; intros st Hstack Hrunning Hacyclic; [reflexivity|].
  simpl. unfold loopCondition.
  rewrite Hstack, (bool_decide_eq_true_2 _ Hrunning). cbn [length Nat.eqb negb andb].
  destruct (engineTurn_toString options triggerData st Hstack Hacyclic)
    as (st' & -> & Hstack' & Hstatus & Hacyclic' & _).
  apply IH; [exact Hstack'|by rewrite Hstatus|exact Hacyclic'].
Qed.

Section TraversalOutcome.
Context {host : Host}.

(** C10.  In a workflow none of whose node identifiers is a name that
    objects inherit, for every host whose calls return and every context,
    start node and store, the loop of [executeFromNode] ends within
    [turnBound] turns, and allowing more turns changes nothing; a turn that passes the visit check adds one to the
    visit count of the node it popped; a visited node whose count has
    reached the [maxIterations] option is not run again but raises the
    iteration-limit error, and what is raised ends the run as failed; the
    option is 1000 when it is not given.  Under the identifier [toString]
    the count read is a text, which every visit makes longer and which
    reaches no limit: in the workflow [selfLoop], which [validateWorkflow]
    accepts, with external steps that all succeed, the loop of the run does
    not end, whatever the option and however many turns are allowed. *)
Theorem traversal_terminates_unless_count_is_text (options : RequiredOptions) :
  (forall w c startNode triggerData s,
     (forall n, In n (startNode :: nodes w) -> inheritedName (node_id n) = false) ->
     exists outcome,
       executeFromNodeFuel (turnBound options w) options w c startNode triggerData s
       = Some outcome
       /\ (forall extra,
             executeFromNodeFuel (turnBound options w + extra) options w c startNode
                                 triggerData s = Some outcome)
       /\ executeFromNode options w c startNode triggerData s = outcome)
  /\ (forall w triggerData st st' node rest,
        inheritedName (node_id node) = false ->
        es_stack st = node :: rest ->
        engineTurn options w triggerData st = Continue st'
        \/ engineTurn options w triggerData st = Break st' ->
        visitCountOf (es_context st') (node_id node)
        = visitCountOf (es_context st) (node_id node) + 1
        /\ readVisitCount (es_context st') (node_id node)
           = CountNumber (Z.of_nat (visitCountOf (es_context st) (node_id node) + 1)))
  /\ (forall w triggerData st node rest,
        inheritedName (node_id node) = false ->
        es_stack st = node :: rest ->
        node_id node ∈ es_visited st ->
        (opt_maxIterations options
         <= Z.of_nat (visitCountOf (es_context st) (node_id node)))%Z ->
        exists st',
          engineTurn options w triggerData st
          = Raise (iterationLimitMessage (opt_maxIterations options) (node_id node)) st'
          /\ forall fuel,
               engineLoop (S fuel) options w triggerData st
               = (if loopCondition st
                  then Some (st', Some (iterationLimitMessage (opt_maxIterations options)
                                                               (node_id node)))
                  else Some (st, None)))
  /\ (forall m st,
        match fst (catchBlock m st) with
        | Ok r => er_success r = false /\ er_status r = failed /\ er_error r = Some m
        | Throw _ => True
        end)
  /\ opt_maxIterations (newWorkflowExecutor (mkOptions None None None None)) = 1000%Z
  /\ isValid (fst (validateWorkflow selfLoop)) = true
  /\ (forall triggerData st,
        es_stack st = [formatNode] ->
        isCircular (stepResults (es_context st)) = false ->
        exists st',
          engineTurn (host := obligingHost) options selfLoop triggerData st = Continue st'
          /\ es_stack st' = [formatNode]
          /\ readVisitCount (es_context st') "toString"
             = plusOne (readVisitCount (es_context st) "toString")
          /\ reaches (readVisitCount (es_context st') "toString")
                     (opt_maxIterations options) = false)
  /\ (forall c triggerData s fuel,
        status c = running ->
        isCircular (stepResults c) = false ->
        executeFromNodeFuel (host := obligingHost) fuel options selfLoop c
                            startNodeOfSelfLoop triggerData s = None).
Proof.
  split; [|split; [|split; [|split; [|split; [|split; [|split]]]]]].
  - intros w c startNode triggerData s Hordinary.
    destruct (turnBound_enough options w c startNode triggerData s Hordinary)
      as (final & Hfinal).
    assert (Hmore : forall extra,
              executeFromNodeFuel (turnBound options w + extra) options w c startNode
                                  triggerData s
              = executeFromNodeFuel (turnBound options w) options w c startNode
                                    triggerData s).
    { intros extra. unfold executeFromNodeFuel.
      by rewrite (engineLoop_more_fuel options w triggerData _ extra _ final Hfinal),
                 Hfinal. }
    assert (Hsome : exists outcome,
              executeFromNodeFuel (turnBound options w) options w c startNode
                                  triggerData s = Some outcome).
    { unfold executeFromNodeFuel. rewrite Hfinal.
      destruct final as [st [m|]]; [by eexists|].
      destruct (afterLoop st) as [st' [m|]]; by eexists. }
    destruct Hsome as (outcome & Houtcome). exists outcome.
    split; [exact Houtcome|]. split.
    + intros extra. by rewrite Hmore.
    + unfold executeFromNode. by rewrite Houtcome.
  - intros w triggerData st st' node rest Hordinary Hstack Hturn.
    pose proof (engineTurn_counts_visit options w triggerData st st' node rest
                  Hordinary Hstack Hturn) as Hcount.
    split; [exact Hcount|].
    by rewrite (readVisitCount_ordinary _ _ Hordinary), Hcount.
  - intros w triggerData st node rest Hordinary Hstack Hvisited Hreached. eexists. split.
    + by apply engineTurn_limit.
    + intros fuel. simpl.
      rewrite (engineTurn_limit options w triggerData st node rest Hordinary Hstack
                 Hvisited Hreached).
      reflexivity.
  - intros m st. apply catchBlock_fails.
  - reflexivity.
  - vm_compute. reflexivity.
  - intros triggerData st Hstack Hacyclic.
    destruct (engineTurn_toString options triggerData st Hstack Hacyclic)
      as (st' & Hturn & Hstack' & _ & _ & Hcount).
    exists st'. split; [exact Hturn|]. split; [exact Hstack'|]. split; [exact Hcount|].
    by apply reaches_inherited.
  - intros c triggerData s fuel Hrunning Hacyclic. unfold executeFromNodeFuel.
    destruct fuel as [|fuel]; [reflexivity|].
    cbn [engineLoop]. unfold loopCondition.
    cbn [initialState es_stack es_context length Nat.eqb negb andb].
    rewrite (bool_decide_eq_true_2 _ Hrunning).
    destruct (engineTurn_to_toString options triggerData c s Hacyclic)
      as (st' & -> & Hstack' & Hstatus & Hacyclic').
    rewrite (engineLoop_toString options triggerData fuel st' Hstack');
      [reflexivity|by rewrite Hstatus|exact Hacyclic'].
Qed.

End TraversalOutcome.

(** C10 on two graphs with a cycle and no loop node.  In [pingPong] the run
    ends, failed, when [a] comes up for its sixth visit.  In [selfLoop] a
    hundred turns do not end the run. *)
Lemma traversal_terminates_unless_count_is_text_witness :
  (er_status <$> resultOrNone (fst pingPongRun)) = Some failed
  /\ (er_error <$> resultOrNone (fst pingPongRun))
     = Some (Some "Maximum iterations (5) exceeded for node a")
  /\ nodeVisitCounts (es_context (snd pingPongRun)) !! "a" = Some 5
  /\ executeFromNodeFuel (host := obligingHost) 100 fiveVisits selfLoop freshContext
                         startNodeOfSelfLoop (JObj []) (mkStore ∅ ∅ ∅ 0) = None.
Proof.
  destruct (@traversal_terminates_unless_count_is_text obligingHost fiveVisits)
    as (Hends & _ & _ & _ & _ & _ & _ & Hnever).
  destruct (Hends pingPong
              (mkContext "w" "e" running None ∅ ∅ 0 0 None None ∅ ∅ None [])
              (mkNode "t" NT_trigger "T" emptyConfig) (JObj [])
              (mkStore ∅ ∅ ∅ 0))
    as (outcome & _ & _ & Hrun).
  { intros n [<-|[<-|[<-|[<-|[]]]]]; reflexivity. }
  fold pingPongRun in Hrun.
  assert (Houtcome : outcome = pingPongRun) by (symmetry; exact Hrun).
  split; [|split; [|split]].
  - rewrite Hrun, Houtcome. vm_compute. reflexivity.
  - rewrite Hrun, Houtcome. vm_compute. reflexivity.
  - rewrite Hrun, Houtcome. vm_compute. reflexivity.
  - apply Hnever; reflexivity.
Defined.

(** ** Routing after a condition *)

Lemma isTrueEdge_spec (e : WorkflowEdge) :
  isTrueEdge e = true <-> guardMatches true (condition e).
Proof.
  unfold isTrueEdge, guardMatches, nonEmpty. destruct (condition e) as [g|].
  - destruct (String.eqb g "") eqn:Hempty.
    + apply String.eqb_eq in Hempty as ->. split; [auto|reflexivity].
    + rewrite orb_true_iff, !String.eqb_eq. apply String.eqb_neq in Hempty.
      split.
      * intros [->| ->]; auto.
      * intros [H|[H|[H|H]]]; [discriminate|congruence|left|right]; congruence.
  - split; [auto|reflexivity].
Qed.

Lemma isFalseEdge_spec (e : WorkflowEdge) :
  isFalseEdge e = true <-> guardMatches false (condition e).
Proof.
  unfold isFalseEdge, guardMatches. destruct (condition e) as [g|].
  - rewrite orb_true_iff, !String.eqb_eq. split.
    + intros [->| ->]; auto.
    + intros [H|H]; [left|right]; congruence.
  - split; [discriminate|]. intros [H|H]; discriminate.
Qed.

Lemma targetNodes_spec (w : Workflow) (es : list WorkflowEdge) (n : WorkflowNode) :
  In n (targetNodes w es) <->
  exists e, In e es /\ findNode (nodes w) (target e) = Some n.
Proof.
  unfold targetNodes. rewrite in_flat_map. split.
  - intros (e & He & Hn). exists e. split; [exact He|].
    destruct (findNode (nodes w) (target e)); [|inversion Hn].
    destruct Hn as [->|[]]. reflexivity.
  - intros (e & He & Hfind). exists e. split; [exact He|]. rewrite Hfind. by left.
Qed.

Lemma outgoingEdges_spec (es : list WorkflowEdge) (nid : string) (e : WorkflowEdge) :
  In e (outgoingEdges es nid) <-> In e es /\ source e = nid.
Proof. unfold outgoingEdges. by rewrite filter_In, String.eqb_eq. Qed.

(** C4, as the code has it.  The nodes selected after a condition node are
    the targets of its outgoing edges whose guard matches the result: for
    [true] an edge without guard or with the guard ["true"] or ["True"], for
    [false] an edge with the guard ["false"] or ["False"]; when no edge
    matches the selection is empty, which is not an error. *)
Theorem conditional_routing (w : Workflow) (conditionNode : WorkflowNode)
    (result : bool) :
  (forall n,
     In n (getConditionalNextNodes w conditionNode result) <->
     exists e, In e (edges w) /\ source e = node_id conditionNode
               /\ guardMatches result (condition e)
               /\ findNode (nodes w) (target e) = Some n)
  /\ ((forall e, In e (edges w) -> source e = node_id conditionNode ->
                 ~ guardMatches result (condition e)) ->
      getConditionalNextNodes w conditionNode result = []).
Proof.
  assert (Hiff : forall n,
     In n (getConditionalNextNodes w conditionNode result) <->
     exists e, In e (edges w) /\ source e = node_id conditionNode
               /\ guardMatches result (condition e)
               /\ findNode (nodes w) (target e) = Some n).
  { intros n. unfold getConditionalNextNodes.
    destruct result; rewrite targetNodes_spec; split.
    - intros (e & He & Hfind). apply filter_In in He as [He Hguard].
      apply outgoingEdges_spec in He as [He Hsrc]. apply isTrueEdge_spec in Hguard.
      by exists e.
    - intros (e & He & Hsrc & Hguard & Hfind). exists e. split; [|exact Hfind].
      apply filter_In. split; [by apply outgoingEdges_spec|by apply isTrueEdge_spec].
    - intros (e & He & Hfind). apply filter_In in He as [He Hguard].
      apply outgoingEdges_spec in He as [He Hsrc]. apply isFalseEdge_spec in Hguard.
      by exists e.
    - intros (e & He & Hsrc & Hguard & Hfind). exists e. split; [|exact Hfind].
      apply filter_In. split; [by apply outgoingEdges_spec|by apply isFalseEdge_spec]. }
  split; [exact Hiff|].
  intros Hnone.
  destruct (getConditionalNextNodes w conditionNode result) as [|n l];
    [reflexivity|].
  exfalso. destruct (proj1 (Hiff n)) as (e & He & Hsrc & Hguard & _);
    [by left|]. exact (Hnone e He Hsrc Hguard).
Qed.

(** C4, counterexample: an edge guarded by ["True"], which is neither absent
    nor the text ["true"], is followed when the result is [true]. *)
Lemma conditional_routing_follows_capitalised : ~ routingAsStated.
Proof.
  intros Hstated.
  destruct (Hstated capitalisedGuard (mkNode "check" NT_condition "Check" emptyConfig)
              (mkNode "big" NT_action "Big order" emptyConfig) true)
    as (e & He & _ & Hguard & _).
  - vm_compute. by left.
  - destruct He as [<-|[]]. destruct Hguard as [H|H]; discriminate H.
Qed.

(** C4 on that graph. *)
Lemma conditional_routing_witness :
  getConditionalNextNodes capitalisedGuard
    (mkNode "check" NT_condition "Check" emptyConfig) true
  = [mkNode "big" NT_action "Big order" emptyConfig]
  /\ getConditionalNextNodes capitalisedGuard
       (mkNode "check" NT_condition "Check" emptyConfig) false = [].
Proof.
  split; [reflexivity|].
  apply (proj2 (conditional_routing capitalisedGuard
                  (mkNode "check" NT_condition "Check" emptyConfig) false)).
  intros e [<-|[]] _ [H|H]; discriminate H.
Defined.

(** *** The checkpoint after a condition step *)

Lemma isCircular_true (results : gmap string JValue) k v :
  results !! k = Some v -> holdsStepResultsRef v = true -> isCircular results = true.
Proof.
  intros Hkv Hv. unfold isCircular. apply existsb_exists. exists (k, v).
  split; [|exact Hv]. apply list_elem_of_In. by apply elem_of_map_to_list.
Qed.

Section ConditionCheckpoint.
Context {host : Host}.

(** The result of a successful condition step carries the sanitized context,
    a shallow copy that holds the [stepResults] of the execution by
    reference.  Once the engine has put that result into [stepResults], the
    record contains itself and [saveExecution] throws: the turn selects the
    next nodes and then raises, whatever the result of the condition. *)
Lemma condition_turn_cannot_checkpoint (options : RequiredOptions) (w : Workflow)
    (triggerData : JValue) (st : EngineState) (node : WorkflowNode)
    (rest : list WorkflowNode) :
  es_stack st = node :: rest ->
  node_type node = NT_condition ->
  isValid (ConditionExecutor_validateConfig (node_config node)) = true ->
  node_id node ∉ es_visited st ->
  isCircular (stepResults (es_context st)) = false ->
  exists st' result,
    engineTurn options w triggerData st = Raise circularMessage st'
    /\ es_stack st' = getConditionalNextNodes w node result ++ rest.
Proof.
  intros Hstack Htype Hvalid Hfresh Hacyclic.
  unfold engineTurn. rewrite Hstack.
  rewrite bool_decide_eq_false_2 by exact Hfresh. cbn [andb].
  set (c1 := set_nodeStatuses _ (set_currentNodeId _ (set_nodeVisitCounts _ _))).
  unfold saveExecution at 1.
  replace (isCircular (stepResults c1)) with false by (symmetry; exact Hacyclic).
  unfold executeNode. rewrite Htype.
  unfold ConditionExecutor_execute. rewrite Hvalid. cbn [negb].
  cbn [cr_success cr_data cr_error nr_success nr_data nr_error negb].
  rewrite !bool_decide_eq_false_2 by discriminate. cbn [andb].
  rewrite bool_decide_eq_true_2 by reflexivity.
  unfold saveExecution.
  match goal with
  | |- context [isCircular ?m] =>
      replace (isCircular m) with true
  end.
  - eexists _, _. split; reflexivity.
  - symmetry. cbn. eapply isCircular_true; [apply lookup_insert_eq|reflexivity].
Qed.

End ConditionCheckpoint.

(** ** Loop nodes in the engine *)

Section LoopNodes.
Context {host : Host}.
Variables (options : RequiredOptions) (w : Workflow) (triggerData : JValue).




End LoopNodes.

Section LoopOfThree.
Context {host : Host}.


End LoopOfThree.



(** ** Resuming at the approval gate *)

Section Resume.
Context {host : Host}.

(** The turn of the engine on an approval node it has not visited in this
    call: the node is run, and the loop stops with the execution paused. *)
Lemma engineTurn_approval (options : RequiredOptions) (w : Workflow)
    (triggerData : JValue) (st : EngineState) (node : WorkflowNode)
    (rest : list WorkflowNode) :
  es_stack st = node :: rest ->
  node_type node = NT_human_approval ->
  isValid (ApprovalExecutor_validateConfig (node_config node)) = true ->
  node_id node ∉ es_visited st ->
  isCircular (stepResults (es_context st)) = false ->
  exists st' request stored,
    engineTurn options w triggerData st = Break st'
    /\ status (es_context st') = paused
    /\ error (es_context st') = error (es_context st)
    /\ nodeVisitCounts (es_context st') = countVisit (es_context st) (node_id node)
    /\ es_stack st' = rest
    /\ getExecution (executionId (es_context st)) (es_store st') = Some stored
    /\ status stored = paused
    /\ getApprovalRequest (executionId (es_context st)) (es_store st') = Some request
    /\ ar_nodeId request = node_id node
    /\ variables stored = roundTripMap (roundTripMap (variables (es_context st))).
Proof.
  intros Hstack Htype Hvalid Hfresh Hacyclic.
  unfold engineTurn. rewrite Hstack.
  rewrite bool_decide_eq_false_2 by exact Hfresh. cbn [andb].
  set (c1 := set_nodeStatuses _ (set_currentNodeId _ (set_nodeVisitCounts _ _))).
  unfold saveExecution at 1.
  replace (isCircular (stepResults c1)) with false by (symmetry; exact Hacyclic).
  set (s1 := set_executionsKV _ (es_store st)).
  destruct (ApprovalExecutor_execute_pauses node c1 s1 (serialized c1))
    as (request & stored & Hsuccess & Hget & Hstatus & _ & Happrovals & _ & Hnode & Hvars);
    [exact Hvalid| |reflexivity|exact Hacyclic|].
  { unfold getExecution, s1. cbn. apply lookup_insert_eq. }
  unfold executeNode. rewrite Htype.
  destruct (ApprovalExecutor_execute node c1 s1) as [r s2]. cbn in Hsuccess, Hget, Happrovals.
  cbn [nr_success nr_data nr_error]. rewrite Hsuccess. cbn [negb].
  rewrite bool_decide_eq_true_2 by reflexivity.
  eexists _, request, stored. split; [reflexivity|]. cbn.
  split; [reflexivity|]. split; [reflexivity|]. split; [reflexivity|].
  split; [reflexivity|]. split; [exact Hget|]. split; [exact Hstatus|].
  split; [|split; [exact Hnode|exact Hvars]].
  unfold getApprovalRequest. rewrite Happrovals. apply lookup_insert_eq.
Qed.

(** C2.  [resumeExecution] throws [Execution <id> not found] when the store
    has no such execution and [Execution <id> is not paused] when its status
    is not paused.  When the execution is paused at an approval node whose
    configuration is valid, the approval data are merged into the variables
    and the traversal is entered again at that node, which is then run once
    more: a new approval request is stored, the execution is paused anew,
    and no node behind the gate is reached.  The call reports success with
    status paused; the stored variables are the merged ones, as JSON keeps
    them. *)
Theorem resume_pauses_at_the_gate_again (options : RequiredOptions) (eid : string)
    (approvalData : option (gmap string JValue)) (s : Store) :
  (getExecution eid s = None ->
   fst (resumeExecution options eid approvalData s)
   = Throw ("Execution " +:+ eid +:+ " not found"))
  /\ (forall context,
        getExecution eid s = Some context -> status context <> paused ->
        fst (resumeExecution options eid approvalData s)
        = Throw ("Execution " +:+ eid +:+ " is not paused"))
  /\ (forall context w gate,
        getExecution eid s = Some context ->
        executionId context = eid ->
        status context = paused ->
        getWorkflow (workflowId context) s = Some w ->
        currentNodeId context = Some (node_id gate) ->
        findNode (nodes w) (node_id gate) = Some gate ->
        node_type gate = NT_human_approval ->
        isValid (ApprovalExecutor_validateConfig (node_config gate)) = true ->
        isCircular (stepResults context) = false ->
        exists r s' stored request,
          resumeExecution options eid approvalData s = (Ok r, s')
          /\ xr_success r = true
          /\ xr_status r = paused
          /\ getExecution eid s' = Some stored
          /\ status stored = paused
          /\ getApprovalRequest eid s' = Some request
          /\ ar_nodeId request = node_id gate
          /\ variables stored
             = roundTripMap (roundTripMap (mergedVariables approvalData (variables context)))).
Proof.
  split; [|split].
  - intros Hnone. unfold resumeExecution. by rewrite Hnone.
  - intros context Hget Hstatus. unfold resumeExecution. rewrite Hget.
    by rewrite bool_decide_eq_false_2.
  - intros context w gate Hget Hid Hpaused Hw Hcurrent Hfind Htype Hvalid Hacyclic.
    unfold resumeExecution. rewrite Hget.
    rewrite bool_decide_eq_true_2 by exact Hpaused. cbn [negb].
    set (c1 := match approvalData with
               | Some d => set_variables (d ∪ variables context) context
               | None => context
               end).
    assert (Hc1 : workflowId c1 = workflowId context /\ executionId c1 = eid
                  /\ currentNodeId c1 = Some (node_id gate)
                  /\ stepResults c1 = stepResults context).
    { unfold c1. destruct approvalData; cbn; auto. }
    destruct Hc1 as (Hwid & Heid & Hcur & Hresults).
    rewrite Hwid, Hw.
    set (c2 := set_updatedAt (clock s) (set_status running c1)).
    unfold saveExecution at 1.
    replace (isCircular (stepResults c2)) with false
      by (symmetry; cbn; rewrite Hresults; exact Hacyclic).
    replace (currentNodeId c2) with (Some (node_id gate)) by (symmetry; exact Hcur).
    rewrite Hfind.
    set (s1 := set_executionsKV _ s).
    unfold executeFromNode, executeFromNodeFuel, turnBound. cbn [engineLoop].
    replace (loopCondition (initialState c2 gate s1)) with true by reflexivity.
    destruct (engineTurn_approval options w (JObj []) (initialState c2 gate s1) gate [])
      as (st' & request & stored & -> & Hstatus & _ & _ & Hstack & Hstored & Hstoredstatus
          & Hrequest & Hnode & Hvars);
      [reflexivity|exact Htype|exact Hvalid|set_solver|
       cbn; rewrite Hresults; exact Hacyclic|].
    cbn in Hstored, Hrequest. rewrite Heid in Hstored, Hrequest.
    unfold afterLoop. rewrite Hstatus.
    rewrite bool_decide_eq_false_2 by discriminate. cbn.
    rewrite Hstatus. cbn.
    eexists _, _, stored, request. split; [reflexivity|]. cbn.
    split; [reflexivity|]. split; [reflexivity|]. split; [exact Hstored|].
    split; [exact Hstoredstatus|]. split; [exact Hrequest|]. split; [exact Hnode|].
    rewrite Hvars. unfold c2, c1, mergedVariables. by destruct approvalData.
Qed.

End Resume.

(** C2 at the failing input: the paused order is resumed with the approval
    [approved: true]; the call answers success with status paused, the gate
    has been run a second time, a request is pending again, and [ship] was
    never visited. *)
Lemma resume_pauses_at_the_gate_again_witness :
  (exists result, fst resumedOrder = Ok result /\ xr_status result = paused)
  /\ (status <$> getExecution "exec-1" (snd resumedOrder)) = Some paused
  /\ (variables <$> getExecution "exec-1" (snd resumedOrder))
     = Some {["approved" := JBool true]}
  /\ ((fun c => nodeVisitCounts c !! "gate") <$> getExecution "exec-1" (snd resumedOrder))
     = Some (Some 2)
  /\ ((fun c => nodeVisitCounts c !! "ship") <$> getExecution "exec-1" (snd resumedOrder))
     = Some None
  /\ (ar_nodeId <$> getApprovalRequest "exec-1" (snd resumedOrder)) = Some "gate".
Proof.
  destruct (proj2 (proj2 (@resume_pauses_at_the_gate_again obligingHost defaultOptions
                            "exec-1" (Some {["approved" := JBool true]}) pausedStore))
              pausedAtGate gatedWorkflow gateNode)
    as (result & s' & stored & request & Hrun & _ & Hstatus & _);
    [reflexivity..|vm_compute; reflexivity|vm_compute; reflexivity|].
  fold resumedOrder in Hrun. split.
  - exists result. rewrite Hrun. split; [reflexivity|exact Hstatus].
  - vm_compute. repeat split.
Defined.

(** ** Sample runs *)

(** A start node followed by an action that answers [{x: 1}]: the run is
    completed and the answer is the step result of the action. *)
Example linear_workflow_completes :
  fst echoRun = Ok (mkExecutionResult true "run-1" completed None 2)
  /\ ((fun c => stepResults c !! "echo") <$> getExecution "run-1" (snd echoRun))
     = Some (Some (JObj [("x", JNum 1)])).
Proof. vm_compute. split; reflexivity. Qed.

(** A start node followed by a condition with both branches: the condition
    step succeeds, the checkpoint after it throws, and the run is failed
    before either branch is visited. *)
Example condition_workflow_fails_at_checkpoint :
  fst branchRun
  = Ok (mkExecutionResult false "run-2" failed (Some circularMessage) 0)
  /\ ((fun c => (nodeVisitCounts c !! "big", nodeVisitCounts c !! "small"))
        <$> getExecution "run-2" (snd branchRun)) = Some (None, None).
Proof. vm_compute. split; reflexivity. Qed.

(** ** Cancelling *)

(** X2.  [cancelExecution] answers false and changes nothing when the
    execution is not in the store.  Otherwise it answers true and the stored
    execution becomes cancelled, with the time of the call as its completion
    time, whatever its status was, completed and failed included; the approval
    requests are left as they are. *)
Theorem cancelExecution_overrides_any_status (eid : string) (s : Store) :
  (getExecution eid s = None -> cancelExecution eid s = (false, s))
  /\ (forall stored,
        getExecution eid s = Some stored ->
        executionId stored = eid ->
        isCircular (stepResults stored) = false ->
        exists s' c,
          cancelExecution eid s = (true, s')
          /\ getExecution eid s' = Some c
          /\ status c = cancelled
          /\ completedAt c = Some (clock s)
          /\ error c = error stored
          /\ currentNodeId c = currentNodeId stored
          /\ approvalsKV s' = approvalsKV s).
Proof.
  split.
  - intros Hnone. unfold cancelExecution, updateExecutionStatus. by rewrite Hnone.
  - intros stored Hget Hid Hplain. unfold cancelExecution.
    destruct (updateExecutionStatus_stored eid cancelled
                (mkUpdates None None None (Some (clock s))) s stored Hget Hid Hplain)
      as (s' & -> & Hstored & Happrovals & _).
    exists s'. eexists. split; [reflexivity|]. split; [exact Hstored|].
    repeat split; try reflexivity. exact Happrovals.
Qed.

(** X2 on an execution that had completed. *)
Lemma cancelExecution_overrides_any_status_witness :
  (status <$> getExecution "exec-7" finishedStore) = Some completed
  /\ fst (cancelExecution "exec-7" finishedStore) = true
  /\ (status <$> getExecution "exec-7" (snd (cancelExecution "exec-7" finishedStore)))
     = Some cancelled.
Proof.
  destruct (proj2 (cancelExecution_overrides_any_status "exec-7" finishedStore)
              finishedRun eq_refl eq_refl ltac:(vm_compute; reflexivity))
    as (s' & c & Hcancel & Hget & Hstatus & _).
  rewrite Hcancel. cbn [fst snd]. rewrite Hget. cbn. rewrite Hstatus.
  repeat split; reflexivity.
Defined.

(** ** Verdicts on an approval request *)

(** X3.  [approve] and [reject] refuse, without touching the store, when no
    request is stored for the execution.  [approve] refuses a request whose
    time has run out and deletes it, the stored executions staying as they
    are, so that the execution stays paused with no request left.  When the
    request is there but the execution is not, [approve] refuses with the
    store's error and the request stays. *)
Theorem approve_refusals (eid who : string) (reason : option string)
    (additionalData : option JValue) (s : Store) :
  (getApprovalRequest eid s = None ->
     approve eid who reason additionalData s
     = (mkVerdict false (Some "Approval request not found"), s)
     /\ reject eid who reason s
        = (mkVerdict false (Some "Approval request not found"), s))
  /\ (forall request,
        getApprovalRequest eid s = Some request ->
        isExpired request (clock s) = true ->
        fst (approve eid who reason additionalData s)
        = mkVerdict false (Some "Approval request has expired")
        /\ getApprovalRequest eid (snd (approve eid who reason additionalData s)) = None
        /\ executionsKV (snd (approve eid who reason additionalData s)) = executionsKV s)
  /\ (forall request,
        getApprovalRequest eid s = Some request ->
        isExpired request (clock s) = false ->
        getExecution eid s = None ->
        approve eid who reason additionalData s
        = (mkVerdict false (Some ("Execution " +:+ eid +:+ " not found")), s)).
Proof.
  split; [|split].
  - intros Hnone. unfold approve, reject. by rewrite Hnone.
  - intros request Hreq Hexpired. unfold approve. rewrite Hreq, Hexpired.
    cbn [fst snd]. split; [reflexivity|]. split; [|reflexivity].
    unfold getApprovalRequest, deleteApprovalRequest. cbn. apply lookup_delete_eq.
  - intros request Hreq Hfresh Hnone. unfold approve, updateExecutionStatus.
    by rewrite Hreq, Hfresh, Hnone.
Qed.

(** X3 on a request that timed out: refused and deleted, the execution is
    still paused. *)
Lemma approve_refusals_witness :
  fst (approve "exec-7" "ana" None None staleStore)
  = mkVerdict false (Some "Approval request has expired")
  /\ getApprovalRequest "exec-7" (snd (approve "exec-7" "ana" None None staleStore)) = None
  /\ (status <$> getExecution "exec-7" (snd (approve "exec-7" "ana" None None staleStore)))
     = Some paused.
Proof.
  destruct (proj1 (proj2 (approve_refusals "exec-7" "ana" None None staleStore))
              staleRequest eq_refl eq_refl) as (Hverdict & Hgone & Hkept).
  split; [exact Hverdict|]. split; [exact Hgone|].
  unfold getExecution. rewrite Hkept. reflexivity.
Defined.

Lemma roundTripMap_singleton (k : string) (fields : list (string * JValue)) :
  roundTripMap {[ k := JObj fields ]} = {[ k := jsonRoundTrip (JObj fields) ]}.
Proof. unfold roundTripMap. by apply omap_singleton_Some. Qed.

(** X4.  A verdict replaces the step results of the stored execution: after
    a successful [approve] or [reject] the stored execution holds one step
    result, the verdict under the gate's identifier, and the results of the
    steps before the gate are gone. *)
Theorem verdict_drops_earlier_results (eid who : string) (reason : option string)
    (s : Store) (request : ApprovalRequest) (stored : ExecutionContext) :
  getApprovalRequest eid s = Some request ->
  isExpired request (clock s) = false ->
  getExecution eid s = Some stored ->
  executionId stored = eid ->
  (exists resumed v,
     getExecution eid (snd (approve eid who reason None s)) = Some resumed
     /\ stepResults resumed = {[ ar_nodeId request := v ]}
     /\ jget "status" v = JStr "approved")
  /\ (exists rejected v,
        getExecution eid (snd (reject eid who reason s)) = Some rejected
        /\ stepResults rejected = {[ ar_nodeId request := v ]}
        /\ jget "status" v = JStr "rejected").
Proof.
  intros Hreq Hfresh Hget Hid. split.
  - unfold approve. rewrite Hreq, Hfresh.
    match goal with
    | |- context [updateExecutionStatus eid running ?u s] =>
        destruct (updateExecutionStatus_stored eid running u s stored)
          as (s1 & -> & Hstored & _); [exact Hget|exact Hid| |]
    end.
    { cbn. apply isCircular_singleton. by destruct reason. }
    cbn [snd]. eexists _, _. split.
    { unfold getExecution, deleteApprovalRequest. cbn. exact Hstored. }
    cbn. split; [apply roundTripMap_singleton|reflexivity].
  - unfold reject. rewrite Hreq.
    match goal with
    | |- context [updateExecutionStatus eid failed ?u s] =>
        destruct (updateExecutionStatus_stored eid failed u s stored)
          as (s1 & -> & Hstored & _); [exact Hget|exact Hid| |]
    end.
    { cbn. apply isCircular_singleton. by destruct reason. }
    cbn [snd]. eexists _, _. split.
    { unfold getExecution, deleteApprovalRequest. cbn. exact Hstored. }
    cbn. split; [apply roundTripMap_singleton|reflexivity].
Qed.

(** X4 on an execution paused after one step: the result of step [t] is in
    the store before the verdict and not after it. *)
Lemma verdict_drops_earlier_results_witness :
  (exists c, getExecution "exec-7" pendingStore = Some c
             /\ stepResults c !! "t" = Some (JObj [("ok", JBool true)]))
  /\ (exists c, getExecution "exec-7" (snd (approve "exec-7" "ana" None None pendingStore))
                = Some c
                /\ stepResults c !! "t" = None)
  /\ (exists c, getExecution "exec-7" (snd (reject "exec-7" "ana" None pendingStore))
                = Some c
                /\ stepResults c !! "t" = None).
Proof.
  destruct (verdict_drops_earlier_results "exec-7" "ana" None pendingStore staleRequest
              pausedRun eq_refl eq_refl eq_refl eq_refl)
    as ((resumed & v & Hget & Hresults & _) & (rejected & v' & Hget' & Hresults' & _)).
  split; [exists pausedRun; split; reflexivity|]. split.
  - exists resumed. split; [exact Hget|]. rewrite Hresults. reflexivity.
  - exists rejected. split; [exact Hget'|]. rewrite Hresults'. reflexivity.
Defined.

(** X5.  Cancelling does not withdraw the approval request: a paused
    execution that is cancelled keeps its request, and approving it
    afterwards succeeds and sets the cancelled execution to running. *)
Theorem approve_revives_cancelled_execution (eid who : string) (reason : option string)
    (s : Store) (request : ApprovalRequest) (stored : ExecutionContext) :
  getExecution eid s = Some stored ->
  executionId stored = eid ->
  isCircular (stepResults stored) = false ->
  getApprovalRequest eid s = Some request ->
  isExpired request (clock s) = false ->
  exists s1 c1 c2,
    cancelExecution eid s = (true, s1)
    /\ getExecution eid s1 = Some c1 /\ status c1 = cancelled
    /\ getApprovalRequest eid s1 = Some request
    /\ v_success (fst (approve eid who reason None s1)) = true
    /\ getExecution eid (snd (approve eid who reason None s1)) = Some c2
    /\ status c2 = running.
Proof.
  intros Hget Hid Hplain Hreq Hfresh. unfold cancelExecution.
  destruct (updateExecutionStatus_stored eid cancelled
              (mkUpdates None None None (Some (clock s))) s stored Hget Hid Hplain)
    as (s1 & -> & Hstored & Happrovals & Hclock).
  assert (Hreq1 : getApprovalRequest eid s1 = Some request).
  { unfold getApprovalRequest. by rewrite Happrovals. }
  exists s1. eexists. 
  unfold approve. rewrite Hreq1, Hclock, Hfresh.
  match goal with
  | |- context [updateExecutionStatus eid running ?u s1] =>
      destruct (updateExecutionStatus_stored eid running u s1 _ Hstored)
        as (s2 & -> & Hstored2 & _); [exact Hid| |]
  end.
  { cbn. apply isCircular_singleton. by destruct reason. }
  eexists. split; [reflexivity|]. split; [exact Hstored|]. split; [reflexivity|].
  split; [reflexivity|]. split; [reflexivity|].
  split; [unfold getExecution, deleteApprovalRequest; cbn; exact Hstored2|]. reflexivity.
Qed.

(** X5 on the execution paused at the gate. *)
Lemma approve_revives_cancelled_execution_witness :
  (status <$> getExecution "exec-7" (snd (cancelExecution "exec-7" pendingStore)))
  = Some cancelled
  /\ (status <$> getExecution "exec-7"
        (snd (approve "exec-7" "ana" None None
                (snd (cancelExecution "exec-7" pendingStore)))))
     = Some running.
Proof.
  destruct (approve_revives_cancelled_execution "exec-7" "ana" None pendingStore
              staleRequest pausedRun eq_refl eq_refl ltac:(vm_compute; reflexivity)
              eq_refl eq_refl)
    as (s1 & c1 & c2 & Hcancel & Hget1 & Hstatus1 & _ & _ & Hget2 & Hstatus2).
  rewrite Hcancel. cbn [snd]. rewrite Hget1, Hget2. cbn.
  rewrite Hstatus1, Hstatus2. split; reflexivity.
Defined.

(** X6.  [approve] succeeds exactly when [checkApprovalStatus] reports a
    request that exists and has not expired, for an execution that is in the
    store. *)
Theorem approve_agrees_with_checkApprovalStatus (eid who : string)
    (reason : option string) (s : Store) (stored : ExecutionContext) :
  getExecution eid s = Some stored ->
  executionId stored = eid ->
  v_success (fst (approve eid who reason None s))
  = as_exists (checkApprovalStatus eid s)
    && negb (as_isExpired (checkApprovalStatus eid s)).
Proof.
  intros Hget Hid. unfold approve, checkApprovalStatus.
  destruct (getApprovalRequest eid s) as [request|]; [|reflexivity].
  destruct (isExpired request (clock s)); [reflexivity|].
  match goal with
  | |- context [updateExecutionStatus eid running ?u s] =>
      destruct (updateExecutionStatus_stored eid running u s stored)
        as (s1 & -> & _); [exact Hget|exact Hid| |]
  end.
  { cbn. apply isCircular_singleton. by destruct reason. }
  reflexivity.
Qed.

(** X6 on a request that is pending and on one that timed out. *)
Lemma approve_agrees_with_checkApprovalStatus_witness :
  v_success (fst (approve "exec-7" "ana" None None pendingStore)) = true
  /\ v_success (fst (approve "exec-7" "ana" None None staleStore)) = false
  /\ as_isExpired (checkApprovalStatus "exec-7" staleStore) = true.
Proof.
  rewrite (approve_agrees_with_checkApprovalStatus "exec-7" "ana" None pendingStore
             pausedRun eq_refl eq_refl).
  rewrite (approve_agrees_with_checkApprovalStatus "exec-7" "ana" None staleStore
             pausedRun eq_refl eq_refl).
  repeat split; reflexivity.
Defined.

(** ** Starting and resuming *)

Lemma roundTripMap_empty : roundTripMap ∅ = ∅.
Proof. unfold roundTripMap. apply omap_empty. Qed.

Section StartFailures.
Context {host : Host}.

(** X7.  A workflow without a trigger node is not run: [executeWorkflow]
    returns a failed result with the message [No trigger node found in
    workflow] and no step executed.  The execution it had already stored is
    marked failed only when the caller passed an execution identifier;
    without one, the stored execution keeps the status running. *)
Theorem executeWorkflow_without_trigger (options : RequiredOptions) (w : Workflow)
    (input : gmap string JValue) (fresh : string) (s : Store) :
  findStartNode w = None ->
  (exists s',
     executeWorkflow options w input None fresh s
     = (Ok (mkExecutionResult false fresh failed
              (Some "No trigger node found in workflow") 0), s')
     /\ (status <$> getExecution fresh s') = Some running)
  /\ (forall eid, eid <> "" ->
      exists s' stored,
        executeWorkflow options w input (Some eid) fresh s
        = (Ok (mkExecutionResult false eid failed
                 (Some "No trigger node found in workflow") 0), s')
        /\ getExecution eid s' = Some stored
        /\ status stored = failed
        /\ error stored = Some "No trigger node found in workflow"
        /\ completedAt stored = Some (clock s)).
Proof.
  intros Hnone. split.
  - unfold executeWorkflow. cbn [nonEmpty]. unfold saveExecution at 1.
    cbn [stepResults]. change (isCircular ∅) with false. cbv iota.
    rewrite Hnone. eexists. split; [reflexivity|].
    unfold getExecution. cbn. by rewrite lookup_insert_eq.
  - intros eid Hne. unfold executeWorkflow.
    assert (Hid : nonEmpty (Some eid) = Some eid).
    { cbn. destruct (String.eqb_spec eid ""); [contradiction|reflexivity]. }
    rewrite Hid. unfold saveExecution at 1.
    cbn [stepResults]. change (isCircular ∅) with false. cbv iota.
    rewrite Hnone.
    match goal with
    | |- context [updateExecutionStatus eid failed ?u ?s1] =>
        destruct (updateExecutionStatus_stored eid failed u s1
                    (serialized (mkContext (wf_id w) eid running None ∅ input
                                   (clock s) (clock s) None None ∅ ∅ None [])))
          as (s2 & -> & Hstored & _)
    end.
    { unfold getExecution. cbn. by rewrite lookup_insert_eq. }
    { reflexivity. }
    { cbn -[roundTripMap]. by rewrite roundTripMap_empty. }
    eexists _, _. split; [reflexivity|]. split; [exact Hstored|].
    repeat split; reflexivity.
Qed.

End StartFailures.

(** X7 on a workflow of one action node, started without an identifier. *)
Lemma executeWorkflow_without_trigger_witness :
  (xr_status <$> match fst (@executeWorkflow silentHost defaultOptions noTrigger ∅ None
                              "exec-9" emptyStore) with
                 | Ok r => Some r
                 | Throw _ => None
                 end) = Some failed
  /\ (status <$> getExecution "exec-9"
        (snd (@executeWorkflow silentHost defaultOptions noTrigger ∅ None "exec-9"
                emptyStore)))
     = Some running.
Proof.
  destruct (proj1 (@executeWorkflow_without_trigger silentHost defaultOptions noTrigger
                     ∅ "exec-9" emptyStore eq_refl)) as (s' & Hrun & Hstatus).
  rewrite Hrun. cbn [fst snd]. split; [reflexivity|exact Hstatus].
Defined.

(** X8.  A workflow that [validateWorkflow] accepts has a start node:
    [findStartNode] returns its first trigger node, and nodes before it are
    not triggers. *)
Theorem validated_workflow_has_start_node (w : Workflow) :
  isValid (fst (validateWorkflow w)) = true ->
  exists before start after,
    findStartNode w = Some start
    /\ node_type start = NT_trigger
    /\ nodes w = before ++ start :: after
    /\ Forall (fun n => node_type n <> NT_trigger) before.
Proof.
  unfold validateWorkflow, findStartNode. cbn [fst isValid].
  destruct (Nat.eqb (length (List.filter isTrigger (nodes w))) 0) eqn:Hnone.
  { cbn. discriminate. }
  intros _. apply Nat.eqb_neq in Hnone.
  induction (nodes w) as [|n ns IH]; [contradiction Hnone; reflexivity|].
  cbn [List.find List.filter] in *. unfold isTrigger at 1.
  unfold isTrigger at 1 in Hnone.
  destruct (bool_decide (node_type n = NT_trigger)) eqn:Hn.
  - apply bool_decide_eq_true in Hn.
    exists [], n, ns. repeat split; [exact Hn|constructor].
  - apply bool_decide_eq_false in Hn.
    destruct (IH Hnone) as (before & start & after & Hfind & Htype & Hsplit & Hbefore).
    exists (n :: before), start, after.
    split; [exact Hfind|]. split; [exact Htype|]. split; [by rewrite Hsplit|].
    by constructor.
Qed.

(** X8 on a workflow whose trigger is its second node. *)
Lemma validated_workflow_has_start_node_witness :
  exists start,
    findStartNode (mkWorkflow "w"
                     [mkNode "a" NT_action "A" emptyConfig;
                      mkNode "t" NT_trigger "T" emptyConfig]
                     [mkEdge "e" "t" "a" None]) = Some start
    /\ node_id start = "t".
Proof.
  destruct (validated_workflow_has_start_node
              (mkWorkflow "w"
                 [mkNode "a" NT_action "A" emptyConfig;
                  mkNode "t" NT_trigger "T" emptyConfig]
                 [mkEdge "e" "t" "a" None])
              ltac:(vm_compute; reflexivity))
    as (before & start & after & Hfind & _).
  exists start. split; [exact Hfind|].
  vm_compute in Hfind. by injection Hfind as <-.
Defined.

Section ResumeFailures.
Context {host : Host}.

(** X9.  [resumeExecution] on a paused execution whose workflow is not in
    the store throws and leaves the store as it is.  When the workflow is
    there but the recorded current node is not one of its nodes, it throws
    [Current node ... not found] after it has stored the execution as
    running: the execution is left running and nothing runs it. *)
Theorem resumeExecution_lost_position (options : RequiredOptions) (eid : string)
    (approvalData : option (gmap string JValue)) (s : Store) (stored : ExecutionContext) :
  getExecution eid s = Some stored ->
  status stored = paused ->
  (getWorkflow (workflowId stored) s = None ->
     resumeExecution options eid approvalData s
     = (Throw ("Workflow " +:+ workflowId stored +:+ " not found"), s))
  /\ (forall w nid,
        getWorkflow (workflowId stored) s = Some w ->
        currentNodeId stored = Some nid ->
        findNode (nodes w) nid = None ->
        executionId stored = eid ->
        isCircular (stepResults stored) = false ->
        exists s' c,
          resumeExecution options eid approvalData s
          = (Throw ("Current node " +:+ nid +:+ " not found"), s')
          /\ getExecution eid s' = Some c
          /\ status c = running
          /\ currentNodeId c = Some nid).
Proof.
  intros Hget Hpaused. split.
  - intros Hnone. unfold resumeExecution. rewrite Hget, Hpaused.
    rewrite bool_decide_eq_true_2 by reflexivity. cbn [negb].
    destruct approvalData; cbn [workflowId set_variables]; by rewrite Hnone.
  - intros w nid Hw Hnode Hmissing Hid Hplain. unfold resumeExecution.
    rewrite Hget, Hpaused. rewrite bool_decide_eq_true_2 by reflexivity. cbn [negb].
    assert (Hw' : forall c1 : ExecutionContext,
              workflowId c1 = workflowId stored -> getWorkflow (workflowId c1) s = Some w).
    { intros c1 ->. exact Hw. }
    destruct approvalData as [d|].
    + rewrite (Hw' (set_variables _ stored) eq_refl).
      unfold saveExecution. cbn [stepResults set_updatedAt set_status set_variables].
      rewrite Hplain. cbn [currentNodeId set_updatedAt set_status set_variables].
      rewrite Hnode, Hmissing. eexists _, _. split; [reflexivity|].
      unfold getExecution. cbn. rewrite Hid, lookup_insert_eq.
      split; [reflexivity|]. cbn. auto.
    + rewrite Hw.
      unfold saveExecution. cbn [stepResults set_updatedAt set_status].
      rewrite Hplain. cbn [currentNodeId set_updatedAt set_status].
      rewrite Hnode, Hmissing. eexists _, _. split; [reflexivity|].
      unfold getExecution. cbn. rewrite Hid, lookup_insert_eq.
      split; [reflexivity|]. cbn. auto.
Qed.

End ResumeFailures.

(** X9 on an execution paused at a node the workflow no longer has. *)
Lemma resumeExecution_lost_position_witness :
  fst (@resumeExecution silentHost defaultOptions "exec-7" None strayStore)
  = Throw "Current node gate not found"
  /\ (status <$> getExecution "exec-7"
        (snd (@resumeExecution silentHost defaultOptions "exec-7" None strayStore)))
     = Some running.
Proof.
  destruct (proj2 (@resumeExecution_lost_position silentHost defaultOptions "exec-7" None
                     strayStore pausedRun eq_refl eq_refl)
              strayWorkflow "gate" eq_refl eq_refl eq_refl eq_refl
              ltac:(vm_compute; reflexivity))
    as (s' & c & Hrun & Hget & Hstatus & _).
  rewrite Hrun. cbn [fst snd]. rewrite Hget. cbn. rewrite Hstatus.
  split; reflexivity.
Defined.

(** ** Graph searches *)

Lemma edgeRel_outgoing (es : list WorkflowEdge) (x z : string) :
  edgeRel es x z <-> z ∈ map target (outgoingEdges es x).
Proof.
  unfold edgeRel, outgoingEdges. rewrite list_elem_of_In, in_map_iff. split.
  - intros (e & He & Hs & Ht). exists e. split; [exact Ht|].
    apply filter_In. split; [by apply list_elem_of_In|]. by apply String.eqb_eq.
  - intros (e & Ht & He). apply filter_In in He as [He Hs].
    exists e. split; [by apply list_elem_of_In|]. split; [by apply String.eqb_eq|exact Ht].
Qed.

Lemma elem_of_rev {A : Type} (x : A) (l : list A) : x ∈ rev l <-> x ∈ l.
Proof. rewrite !list_elem_of_In. symmetry. apply in_rev. Qed.

Lemma isNodeInLoopFrom_total (U : list string) (es : list WorkflowEdge) :
  (forall e, e ∈ es -> target e ∈ U) ->
  forall fuel visited stack,
    (forall x, x ∈ stack -> x ∈ U) ->
    unvisited U visited < fuel ->
    exists found, isNodeInLoopFrom fuel es visited stack = Some found.
Proof.
  intros Htargets. induction fuel as [|fuel IH]; intros visited stack Hstack Hlt; [lia|].
  cbn. destruct stack as [|current rest]; [by eexists|].
  destruct (decide (current ∈ visited)) as [|Hfresh]; [by eexists|].
  apply IH.
  - intros x Hx. apply elem_of_app in Hx as [Hx|Hx].
    + apply elem_of_rev, edgeRel_outgoing in Hx as (e & He & _ & <-).
      by apply Htargets.
    + apply Hstack. by right.
  - assert (Hin : current ∈ U) by (apply Hstack; left).
    pose proof (unvisited_lt U visited current Hin Hfresh). lia.
Qed.

Lemma isNodeInLoop_run (nodeId : string) (w : Workflow) :
  isNodeInLoopFrom (S (S (length (edges w)))) (edges w) ∅ [nodeId]
  = Some (isNodeInLoop nodeId w).
Proof.
  unfold isNodeInLoop.
  destruct (isNodeInLoopFrom_total (nodeId :: map target (edges w)) (edges w))
    with (fuel := S (S (length (edges w)))) (visited := (∅ : gset string))
         (stack := [nodeId]) as (found & ->); [| | |reflexivity].
  - intros e He. right. apply list_elem_of_fmap. by exists e.
  - intros x Hx. apply list_elem_of_singleton in Hx as ->. by left.
  - pose proof (unvisited_le_length (nodeId :: map target (edges w)) ∅) as Hle.
    cbn [length] in Hle. rewrite length_map in Hle. lia.
Qed.

(** A search that answers false has met no node twice: no walk from the
    stack leads into the visited set, and two walks from the stack that end
    in the same node start at the same place of the stack and are the same
    walk. *)
Lemma isNodeInLoopFrom_false (es : list WorkflowEdge) :
  forall fuel visited stack,
    isNodeInLoopFrom fuel es visited stack = Some false ->
    (forall x p y, x ∈ stack -> walk es x p y -> y ∉ visited)
    /\ (forall i j x x' p p' y,
          stack !! i = Some x -> stack !! j = Some x' ->
          walk es x p y -> walk es x' p' y -> i = j /\ p = p').
Proof.
  induction fuel as [|fuel IH]; intros visited stack Hrun; [discriminate|].
  cbn in Hrun. destruct stack as [|current rest].
  { split; [intros x p y Hx; inversion Hx|intros i j x x' p p' y Hi; discriminate]. }
  destruct (decide (current ∈ visited)) as [|Hfresh]; [discriminate|].
  set (T := map target (outgoingEdges es current)) in *.
  destruct (IH _ _ Hrun) as [Havoid Hunique]. clear IH Hrun.
  assert (Hpushed : forall z, edgeRel es current z ->
            exists k, (rev T ++ rest) !! k = Some z /\ k < length T).
  { intros z Hz. apply edgeRel_outgoing in Hz. fold T in Hz.
    apply elem_of_rev, list_elem_of_lookup in Hz as (k & Hk).
    exists k. split; [by apply lookup_app_l_Some|].
    apply lookup_lt_Some in Hk. by rewrite length_rev in Hk. }
  assert (Hkept : forall i x, rest !! i = Some x ->
            (rev T ++ rest) !! (length T + i) = Some x).
  { intros i x Hi. rewrite lookup_app_r by (rewrite length_rev; lia).
    rewrite length_rev. by replace (length T + i - length T) with i by lia. }
  assert (Hback : forall x p, x ∈ rev T ++ rest -> walk es x p current -> False).
  { intros x p Hx Hp. apply (Havoid x p current Hx Hp).
    apply elem_of_union_l, elem_of_singleton. reflexivity. }
  assert (Hstep : forall z q, edgeRel es current z -> walk es z q current -> False).
  { intros z q Hz Hq. destruct (Hpushed z Hz) as (k & Hk & _).
    apply (Hback z q); [|exact Hq]. by apply list_elem_of_lookup_2 in Hk. }
  assert (Hrest : forall i x q, rest !! i = Some x -> walk es x q current -> False).
  { intros i x q Hi Hq. apply (Hback x q); [|exact Hq].
    apply elem_of_app. right. by apply list_elem_of_lookup_2 in Hi. }
  split.
  - intros x p y Hx Hp Hy. apply elem_of_cons in Hx as [->|Hx].
    + destruct p as [|z q]; cbn in Hp.
      * by subst y.
      * destruct Hp as [Hz Hq]. destruct (Hpushed z Hz) as (k & Hk & _).
        apply (Havoid z q y);
          [by apply list_elem_of_lookup_2 in Hk|exact Hq|by apply elem_of_union_r].
    + apply (Havoid x p y);
        [apply elem_of_app; by right|exact Hp|by apply elem_of_union_r].
  - intros i j x x' p p' y Hi Hj Hp Hp'.
    destruct i as [|i], j as [|j]; cbn in Hi, Hj.
    + injection Hi as <-. injection Hj as <-.
      destruct p as [|z q], p' as [|z' q']; cbn in Hp, Hp'.
      * done.
      * subst y. destruct Hp' as [Hz Hq]. destruct (Hstep z' q' Hz Hq).
      * subst y. destruct Hp as [Hz Hq]. destruct (Hstep z q Hz Hq).
      * destruct Hp as [Hz Hq], Hp' as [Hz' Hq'].
        destruct (Hpushed z Hz) as (k & Hk & _), (Hpushed z' Hz') as (k' & Hk' & _).
        destruct (Hunique k k' z z' q q' y Hk Hk' Hq Hq') as [-> ->].
        rewrite Hk in Hk'. by injection Hk' as ->.
    + injection Hi as <-. destruct p as [|z q]; cbn in Hp.
      * subst y. destruct (Hrest j x' p' Hj Hp').
      * destruct Hp as [Hz Hq]. destruct (Hpushed z Hz) as (k & Hk & Hlt).
        destruct (Hunique k (length T + j) z x' q p' y Hk (Hkept j x' Hj) Hq Hp')
          as [Heq _]. lia.
    + injection Hj as <-. destruct p' as [|z q]; cbn in Hp'.
      * subst y. destruct (Hrest i x p Hi Hp).
      * destruct Hp' as [Hz Hq]. destruct (Hpushed z Hz) as (k & Hk & Hlt).
        destruct (Hunique (length T + i) k x z p q y (Hkept i x Hi) Hk Hp Hq)
          as [Heq _]. lia.
    + destruct (Hunique (length T + i) (length T + j) x x' p p' y
                  (Hkept i x Hi) (Hkept j x' Hj) Hp Hp') as [Heq ->].
      split; [lia|reflexivity].
Qed.

(** X10.  [isNodeInLoop] answers false only for a node from which every
    node is reached by at most one walk: two walks along edges that start at
    the node and end in the same node are the same walk.  So it answers true
    for a node on a cycle or leading to one, and also for a node with two
    different paths to one node, where there is no cycle. *)
Theorem isNodeInLoop_false_unique_walks (nodeId : string) (w : Workflow)
    (p p' : list string) (y : string) :
  isNodeInLoop nodeId w = false ->
  walk (edges w) nodeId p y ->
  walk (edges w) nodeId p' y ->
  p = p'.
Proof.
  intros Hfalse Hp Hp'. pose proof (isNodeInLoop_run nodeId w) as Hrun.
  rewrite Hfalse in Hrun.
  destruct (isNodeInLoopFrom_false _ _ _ _ Hrun) as [_ Hunique].
  by destruct (Hunique 0 0 nodeId nodeId p p' y eq_refl eq_refl Hp Hp').
Qed.

(** X10 on the diamond: two walks from [a] to [d], and the answer is true;
    from [b] the walk to [d] is the only one. *)
Lemma isNodeInLoop_false_unique_walks_witness :
  isNodeInLoop "a" diamond = true
  /\ isNodeInLoop "b" diamond = false
  /\ forall p, walk (edges diamond) "b" p "d" -> p = ["d"].
Proof.
  split; [reflexivity|]. split; [reflexivity|].
  intros p Hp.
  apply (isNodeInLoop_false_unique_walks "b" diamond p ["d"] "d" eq_refl Hp).
  split; [|reflexivity]. eexists (mkEdge "e3" "b" "d" None).
  split; [|split; reflexivity]. right. right. left.
Defined.

(** ** Dependencies of a node *)

Lemma edgeRel_incoming (es : list WorkflowEdge) (z x : string) :
  edgeRel es z x <-> z ∈ map source (incomingEdges es x).
Proof.
  unfold edgeRel, incomingEdges. rewrite list_elem_of_In, in_map_iff. split.
  - intros (e & He & Hs & Ht). exists e. split; [exact Hs|].
    apply filter_In. split; [by apply list_elem_of_In|]. by apply String.eqb_eq.
  - intros (e & Hs & He). apply filter_In in He as [He Ht].
    exists e. split; [by apply list_elem_of_In|]. split; [exact Hs|by apply String.eqb_eq].
Qed.

Lemma elem_of_pushed (V : gset string) (l : list string) (x : string) :
  x ∈ List.filter (fun y => negb (bool_decide (y ∈ V))) l <-> x ∈ l /\ x ∉ V.
Proof.
  rewrite !list_elem_of_In, filter_In, negb_true_iff, bool_decide_eq_false. tauto.
Qed.

Lemma unexplored_visit (es : list WorkflowEdge) (V : gset string) (c : string) :
  c ∉ V ->
  unexplored es V = unexplored es ({[c]} ∪ V) + length (incomingEdges es c).
Proof.
  intros Hc. unfold unexplored, incomingEdges.
  induction es as [|e es IH]; [reflexivity|]. cbn [List.filter].
  destruct (String.eqb_spec (target e) c) as [Heq|Hne].
  - rewrite bool_decide_eq_false_2 by (by rewrite Heq).
    rewrite bool_decide_eq_true_2
      by (rewrite Heq; apply elem_of_union_l, elem_of_singleton; reflexivity).
    cbn [negb length]. lia.
  - destruct (decide (target e ∈ V)) as [Hin|Hout].
    + rewrite !bool_decide_eq_true_2 by (try apply elem_of_union_r; exact Hin).
      cbn [negb]. exact IH.
    + rewrite !bool_decide_eq_false_2.
      * cbn [negb length]. lia.
      * intros [Hin%elem_of_singleton|Hin]%elem_of_union; [by apply Hne|by apply Hout].
      * exact Hout.
Qed.

Lemma unexplored_le_length (es : list WorkflowEdge) (V : gset string) :
  unexplored es V <= length es.
Proof. unfold unexplored. apply List.filter_length_le. Qed.

Lemma dependenciesFrom_total (es : list WorkflowEdge) :
  forall fuel visited stack dependencies,
    length stack + unexplored es visited < fuel ->
    exists result, dependenciesFrom fuel es visited stack dependencies = Some result.
Proof.
  induction fuel as [|fuel IH]; intros visited stack dependencies Hlt; [lia|].
  cbn. destruct stack as [|c rest]; [by eexists|]. cbn [length] in Hlt.
  destruct (decide (c ∈ visited)) as [|Hfresh]; [apply IH; lia|].
  apply IH. rewrite length_app, length_rev.
  pose proof (unexplored_visit es visited c Hfresh) as Hsplit.
  match goal with
  | |- context [List.filter ?f (map source (incomingEdges es c))] =>
      pose proof (List.filter_length_le f (map source (incomingEdges es c))) as Hle
  end.
  rewrite length_map in Hle. lia.
Qed.

Lemma getNodeDependencies_run (nodeId : string) (w : Workflow) :
  dependenciesFrom (S (S (length (edges w)))) (edges w) ∅ [nodeId] []
  = Some (getNodeDependencies nodeId w).
Proof.
  unfold getNodeDependencies.
  destruct (dependenciesFrom_total (edges w) (S (S (length (edges w)))) ∅ [nodeId] [])
    as (result & ->); [|reflexivity].
  pose proof (unexplored_le_length (edges w) ∅). cbn [length]. lia.
Qed.

(** What the search adds was not visited and leads to the stack. *)
Lemma dependenciesFrom_sound (es : list WorkflowEdge) :
  forall fuel visited stack dependencies result,
    dependenciesFrom fuel es visited stack dependencies = Some result ->
    forall x, x ∈ result ->
      x ∈ dependencies
      \/ ((x ∉ visited) /\ (forall rest, stack <> x :: rest)
          /\ exists s, s ∈ stack /\ tc (edgeRel es) x s).
Proof.
  induction fuel as [|fuel IH]; intros visited stack dependencies result Hrun x Hx;
    [discriminate|].
  cbn in Hrun. destruct stack as [|c rest].
  { injection Hrun as <-. by left. }
  destruct (decide (c ∈ visited)) as [Hseen|Hfresh].
  - destruct (IH _ _ _ _ Hrun x Hx) as [Hold|(Hout & _ & s & Hs & Hreach)];
      [by left|right].
    split; [exact Hout|]. split.
    + intros rest' Heq. injection Heq as <- _. by apply Hout.
    + exists s. split; [by right|exact Hreach].
  - destruct (IH _ _ _ _ Hrun x Hx) as [Hold|(Hout & _ & s & Hs & Hreach)].
    + apply elem_of_app in Hold as [Hold|Hnew]; [by left|right].
      apply elem_of_pushed in Hnew as [Hsrc Hout]. split; [|split].
      * intros Hin. apply Hout. by apply elem_of_union_r.
      * intros rest' Heq. injection Heq as <- _.
        apply Hout. apply elem_of_union_l, elem_of_singleton. reflexivity.
      * exists c. split; [by left|]. apply tc_once. by apply edgeRel_incoming.
    + right. split; [|split].
      * intros Hin. apply Hout. by apply elem_of_union_r.
      * intros rest' Heq. injection Heq as <- _.
        apply Hout. apply elem_of_union_l, elem_of_singleton. reflexivity.
      * apply elem_of_app in Hs as [Hs|Hs].
        -- apply elem_of_rev, elem_of_pushed in Hs as [Hsrc _].
           exists c. split; [by left|].
           apply (tc_r x s c Hreach). by apply edgeRel_incoming.
        -- exists s. split; [by right|exact Hreach].
Qed.

Lemma avoiding_split (es : list WorkflowEdge) (V : gset string) (c x s : string) :
  rtc (avoiding es V) x s ->
  rtc (avoiding es ({[c]} ∪ V)) x s \/ rtc (avoiding es ({[c]} ∪ V)) x c.
Proof.
  induction 1 as [x|x y s [Hedge Hout] _ IH]; [by left|].
  destruct (decide (x = c)) as [->|Hne]; [by right|].
  assert (Hstep : avoiding es ({[c]} ∪ V) x y).
  { split; [exact Hedge|].
    intros [Hin%elem_of_singleton|Hin]%elem_of_union; [by apply Hne|by apply Hout]. }
  destruct IH as [IH|IH]; [left|right]; by apply (rtc_l _ x y).
Qed.

(** Whatever leads to a node of the stack that is not visited yet, by a
    walk outside the visited set, is in the result or on the stack. *)
Lemma dependenciesFrom_complete (es : list WorkflowEdge) :
  forall fuel visited stack dependencies result,
    dependenciesFrom fuel es visited stack dependencies = Some result ->
    (forall x, x ∈ dependencies -> x ∈ result)
    /\ (forall s x, s ∈ stack -> s ∉ visited -> rtc (avoiding es visited) x s ->
          x ∈ result \/ x ∈ stack).
Proof.
  induction fuel as [|fuel IH]; intros visited stack dependencies result Hrun;
    [discriminate|].
  cbn in Hrun. destruct stack as [|c rest].
  { injection Hrun as <-. split; [auto|]. intros s x Hs. inversion Hs. }
  destruct (decide (c ∈ visited)) as [Hseen|Hfresh].
  - destruct (IH _ _ _ _ Hrun) as [Hkeep Hreach]. split; [exact Hkeep|].
    intros s x Hs Hout Hwalk. apply elem_of_cons in Hs as [->|Hs]; [contradiction|].
    destruct (Hreach s x Hs Hout Hwalk) as [?|?]; [by left|right; by right].
  - set (V' := {[c]} ∪ visited) in *.
    set (P := List.filter (fun y => negb (bool_decide (y ∈ V')))
                          (map source (incomingEdges es c))) in *.
    destruct (IH _ _ _ _ Hrun) as [Hkeep Hreach]. clear IH Hrun.
    assert (Hstack : forall x, x ∈ result \/ x ∈ rev P ++ rest ->
              x ∈ result \/ x ∈ c :: rest).
    { intros x [Hx|Hx]; [by left|].
      apply elem_of_app in Hx as [Hx|Hx].
      - left. apply Hkeep, elem_of_app. right. by apply elem_of_rev.
      - right. by right. }
    assert (Htop : forall x, rtc (avoiding es V') x c -> x ∈ result \/ x ∈ c :: rest).
    { intros x Hwalk. apply rtc_inv_r in Hwalk as [->|(z & Hwalk & Hedge & Hout)].
      - right. by left.
      - apply Hstack, (Hreach z x); [|exact Hout|exact Hwalk].
        apply elem_of_app. left. apply elem_of_rev, elem_of_pushed.
        split; [by apply edgeRel_incoming|exact Hout]. }
    split.
    + intros x Hx. apply Hkeep, elem_of_app. by left.
    + intros s x Hs Hout Hwalk.
      destruct (avoiding_split es visited c x s Hwalk) as [Hwalk'|Hwalk'];
        [|by apply Htop].
      apply elem_of_cons in Hs as [->|Hs]; [by apply Htop|].
      destruct (decide (s = c)) as [->|Hne]; [by apply Htop|].
      apply Hstack, (Hreach s x); [apply elem_of_app; by right| |exact Hwalk'].
      intros [Hin%elem_of_singleton|Hin]%elem_of_union; [by apply Hne|by apply Hout].
Qed.

Lemma avoiding_nothing (es : list WorkflowEdge) (x y : string) :
  rtc (edgeRel es) x y -> rtc (avoiding es ∅) x y.
Proof.
  induction 1 as [x|x y z Hedge _ IH]; [apply rtc_refl|].
  apply (rtc_l _ x y); [|exact IH]. split; [exact Hedge|]. apply not_elem_of_empty.
Qed.

Lemma getNodeDependencies_elem (nodeId : string) (w : Workflow) (x : string) :
  x ∈ getNodeDependencies nodeId w
  <-> x <> nodeId /\ tc (edgeRel (edges w)) x nodeId.
Proof.
  pose proof (getNodeDependencies_run nodeId w) as Hrun. split.
  - intros Hx.
    destruct (dependenciesFrom_sound _ _ _ _ _ _ Hrun x Hx)
      as [Hnil|(_ & Htop & s & Hs & Hreach)]; [inversion Hnil|].
    apply list_elem_of_singleton in Hs as ->. split; [|exact Hreach].
    intros ->. by apply (Htop []).
  - intros [Hne Hreach].
    destruct (dependenciesFrom_complete _ _ _ _ _ _ Hrun) as [_ Hall].
    destruct (Hall nodeId x) as [Hx|Hx]; [by left|apply not_elem_of_empty| |exact Hx|].
    + by apply avoiding_nothing, tc_rtc.
    + apply list_elem_of_singleton in Hx. contradiction.
Qed.

(** X11.  [getNodeDependencies] returns the nodes from which the node is
    reached by one edge or more, the node itself left out: every
    identifier it returns leads to the node, and every other identifier
    that leads to the node is returned. *)
Theorem getNodeDependencies_are_ancestors (nodeId : string) (w : Workflow) (x : string) :
  x ∈ getNodeDependencies nodeId w
  <-> x <> nodeId /\ tc (edgeRel (edges w)) x nodeId.
Proof. apply getNodeDependencies_elem. Qed.

Lemma hasDirectDependency_spec (es : list WorkflowEdge) (a b : string) :
  existsb (fun e => (String.eqb (source e) a && String.eqb (target e) b)
                    || (String.eqb (source e) b && String.eqb (target e) a)) es
  = true
  <-> edgeRel es a b \/ edgeRel es b a.
Proof.
  rewrite existsb_exists. unfold edgeRel. split.
  - intros (e & He & Hmatch). apply list_elem_of_In in He.
    apply orb_true_iff in Hmatch as [Hm|Hm];
      apply andb_true_iff in Hm as [Hs%String.eqb_eq Ht%String.eqb_eq];
      [left|right]; by exists e.
  - intros [(e & He & Hs & Ht)|(e & He & Hs & Ht)]; exists e;
      (split; [by apply list_elem_of_In|]); subst;
      rewrite !String.eqb_refl; [reflexivity|]. cbn. apply orb_true_r.
Qed.

(** A common dependency: another node that leads to both. *)
Lemma hasCommonDependency_spec (w : Workflow) (a b : string) :
  existsb (fun dep => bool_decide (dep ∈ getNodeDependencies b w))
          (getNodeDependencies a w) = true
  <-> exists x, x <> a /\ x <> b
                /\ tc (edgeRel (edges w)) x a /\ tc (edgeRel (edges w)) x b.
Proof.
  rewrite existsb_exists. split.
  - intros (x & Hxa & Hxb). apply list_elem_of_In, getNodeDependencies_elem in Hxa.
    apply bool_decide_eq_true, getNodeDependencies_elem in Hxb.
    exists x. tauto.
  - intros (x & Hna & Hnb & Ha & Hb). exists x. split.
    + apply list_elem_of_In, getNodeDependencies_elem. tauto.
    + apply bool_decide_eq_true, getNodeDependencies_elem. tauto.
Qed.

Lemma canExecuteInParallel_iff (node1 node2 : WorkflowNode) (w : Workflow) :
  canExecuteInParallel node1 node2 w = true
  <-> ~ edgeRel (edges w) (node_id node1) (node_id node2)
      /\ ~ edgeRel (edges w) (node_id node2) (node_id node1)
      /\ ~ (exists x, x <> node_id node1 /\ x <> node_id node2
                       /\ tc (edgeRel (edges w)) x (node_id node1)
                       /\ tc (edgeRel (edges w)) x (node_id node2)).
Proof.
  unfold canExecuteInParallel.
  pose proof (hasDirectDependency_spec (edges w) (node_id node1) (node_id node2))
    as Hdirect.
  pose proof (hasCommonDependency_spec w (node_id node1) (node_id node2)) as Hcommon.
  destruct (existsb _ (edges w)).
  - split; [discriminate|]. intros (Hn1 & Hn2 & _).
    destruct (proj1 Hdirect eq_refl); contradiction.
  - destruct (existsb _ (getNodeDependencies (node_id node1) w)); cbn [negb].
    + split; [discriminate|]. intros (_ & _ & Hnone). destruct Hnone.
      by apply Hcommon.
    + split; [|reflexivity]. intros _. split; [|split].
      * intros Hedge. assert (false = true) by (apply Hdirect; by left). discriminate.
      * intros Hedge. assert (false = true) by (apply Hdirect; by right). discriminate.
      * intros Hex. assert (false = true) by (by apply Hcommon). discriminate.
Qed.

(** X12.  [canExecuteInParallel] answers true exactly when no edge joins
    the two nodes, in either direction, and no third node leads to both of
    them; the answer does not depend on the order of the two nodes. *)
Theorem canExecuteInParallel_spec (node1 node2 : WorkflowNode) (w : Workflow) :
  (canExecuteInParallel node1 node2 w = true
   <-> ~ edgeRel (edges w) (node_id node1) (node_id node2)
       /\ ~ edgeRel (edges w) (node_id node2) (node_id node1)
       /\ ~ (exists x, x <> node_id node1 /\ x <> node_id node2
                        /\ tc (edgeRel (edges w)) x (node_id node1)
                        /\ tc (edgeRel (edges w)) x (node_id node2)))
  /\ canExecuteInParallel node1 node2 w = canExecuteInParallel node2 node1 w.
Proof.
  split; [apply canExecuteInParallel_iff|].
  pose proof (canExecuteInParallel_iff node1 node2 w) as H12.
  pose proof (canExecuteInParallel_iff node2 node1 w) as H21.
  destruct (canExecuteInParallel node1 node2 w), (canExecuteInParallel node2 node1 w);
    try reflexivity.
  - symmetry. apply H21. destruct (proj1 H12 eq_refl) as (Ha & Hb & Hc).
    split; [exact Hb|]. split; [exact Ha|].
    intros (x & Hx2 & Hx1 & Ht2 & Ht1). apply Hc. by exists x.
  - apply H12. destruct (proj1 H21 eq_refl) as (Ha & Hb & Hc).
    split; [exact Hb|]. split; [exact Ha|].
    intros (x & Hx2 & Hx1 & Ht2 & Ht1). apply Hc. by exists x.
Qed.

(** X13.  [canExecuteInParallel] does not look for a path between the two
    nodes: a node without incoming edges is reported as able to run in
    parallel with every node it is not joined to by one edge, also with a
    node it leads to through other nodes. *)
Theorem canExecuteInParallel_misses_longer_paths (node1 node2 : WorkflowNode)
    (w : Workflow) :
  (forall x, ~ edgeRel (edges w) x (node_id node1)) ->
  ~ edgeRel (edges w) (node_id node1) (node_id node2) ->
  canExecuteInParallel node1 node2 w = true.
Proof.
  intros Hroot Hnone. apply canExecuteInParallel_iff.
  split; [exact Hnone|]. split; [apply Hroot|].
  intros (x & _ & _ & Hreach & _).
  induction Hreach as [x y Hedge|x y z _ _ IH]; [by apply (Hroot x)|].
  by apply IH.
Qed.

(** X13 on the chain [t -> a -> b]: [b] is reached from [t], and the two
    are reported as able to run in parallel. *)
Lemma canExecuteInParallel_misses_longer_paths_witness :
  tc (edgeRel (edges chainOfThree)) "t" "b"
  /\ canExecuteInParallel (mkNode "t" NT_trigger "T" emptyConfig)
                          (mkNode "b" NT_action "B" emptyConfig) chainOfThree = true.
Proof.
  split.
  - apply (tc_l _ "t" "a" "b").
    + exists (mkEdge "e1" "t" "a" None). split; [left|split; reflexivity].
    + apply tc_once. exists (mkEdge "e2" "a" "b" None).
      split; [right; left|split; reflexivity].
  - apply canExecuteInParallel_misses_longer_paths.
    + intros x (e & He & _ & Ht). cbn in He.
      apply elem_of_cons in He as [->|He]; [discriminate|].
      apply list_elem_of_singleton in He as ->. discriminate.
    + intros (e & He & Hs & Ht). cbn in He.
      apply elem_of_cons in He as [->|He]; [discriminate|].
      apply list_elem_of_singleton in He as ->. discriminate.
Defined.

(** ** Cycle detection *)

Lemma indexOf_elem (x : string) (path : list string) :
  x ∈ path -> exists i, indexOf x path = Some i /\ path !! i = Some x.
Proof.
  induction path as [|y path IH]; intros Hx; [inversion Hx|]. cbn.
  destruct (String.eqb_spec y x) as [->|Hne]; [by exists 0|].
  apply elem_of_cons in Hx as [Heq|Hx]; [congruence|].
  destruct (IH Hx) as (i & -> & Hi). by exists (S i).
Qed.

Lemma chain_tail (es : list WorkflowEdge) (x : string) (l : list string) :
  chain es (x :: l) -> chain es l.
Proof. destruct l as [|y l]; [done|]. by intros [_ H]. Qed.

Lemma chain_drop (es : list WorkflowEdge) (i : nat) (l : list string) :
  chain es l -> chain es (drop i l).
Proof.
  revert l. induction i as [|i IH]; intros l Hl; [by rewrite drop_0|].
  destruct l as [|x l]; [done|]. cbn [drop]. apply IH. by apply chain_tail in Hl.
Qed.

Lemma chain_snoc (es : list WorkflowEdge) (l : list string) (n : string) :
  chain es l -> (forall y, last l = Some y -> edgeRel es y n) -> chain es (l ++ [n]).
Proof.
  induction l as [|x l IH]; intros Hl Hlast; [done|].
  destruct l as [|y l].
  - cbn. split; [|done]. by apply Hlast.
  - destruct Hl as [Hxy Hl]. change ((x :: y :: l) ++ [n]) with (x :: (y :: l) ++ [n]).
    cbn [chain app]. split; [exact Hxy|]. apply IH; [exact Hl|].
    intros z Hz. apply Hlast. by rewrite last_cons_cons.
Qed.

Lemma last_drop_lookup {A : Type} (i : nat) (l : list A) (x : A) :
  l !! i = Some x -> last (drop i l) = last l.
Proof.
  intros Hi. apply lookup_lt_Some in Hi.
  rewrite !last_lookup, lookup_drop, length_drop. f_equal. lia.
Qed.

(** The nodes of a chain lead to one another, in the order of the list. *)
Lemma chain_head_reaches (es : list WorkflowEdge) (l : list string) :
  forall x j y, chain es (x :: l) -> (x :: l) !! j = Some y -> rtc (edgeRel es) x y.
Proof.
  induction l as [|z l IH]; intros x j y Hl Hj.
  - destruct j as [|j]; [|discriminate]. injection Hj as ->. apply rtc_refl.
  - destruct j as [|j].
    + injection Hj as ->. apply rtc_refl.
    + destruct Hl as [Hxz Hl]. apply (rtc_l _ x z); [exact Hxz|].
      by apply (IH z j y).
Qed.

Lemma chain_reaches (es : list WorkflowEdge) (l : list string) (i j : nat) (x y : string) :
  chain es l -> l !! i = Some x -> l !! j = Some y -> i <= j ->
  rtc (edgeRel es) x y.
Proof.
  intros Hl Hi Hj Hle.
  pose proof (chain_drop es i l Hl) as Hdrop.
  assert (Hhead : drop i l !! 0 = Some x) by (by rewrite lookup_drop, Nat.add_0_r).
  assert (Hj' : drop i l !! (j - i) = Some y).
  { rewrite lookup_drop. by replace (i + (j - i)) with j by lia. }
  destruct (drop i l) as [|x' rest]; [discriminate|]. injection Hhead as ->.
  by apply (chain_head_reaches es rest x (j - i) y).
Qed.

(** Every node of a closed walk is on a cycle. *)
Lemma closedWalk_on_cycle (es : list WorkflowEdge) (c : list string) (z : string) :
  closedWalk es c -> z ∈ c -> tc (edgeRel es) z z.
Proof.
  intros (x & y & Hhead & Hlast & Hchain & Hback) Hz.
  apply list_elem_of_lookup in Hz as (i & Hi).
  rewrite head_lookup in Hhead. rewrite last_lookup in Hlast.
  assert (Hzy : rtc (edgeRel es) z y).
  { apply (chain_reaches es c i (pred (length c))); [done..|].
    apply lookup_lt_Some in Hi. lia. }
  assert (Hxz : rtc (edgeRel es) x z).
  { apply (chain_reaches es c 0 i); [done..|lia]. }
  apply (tc_rtc_l z y z Hzy). by apply (tc_rtc_r y x z); [apply tc_once|].
Qed.

Lemma forEdges_invariant (I : DfsState -> Prop)
    (body : WorkflowEdge -> DfsState -> option DfsState) (es : list WorkflowEdge) :
  (forall e st st', e ∈ es -> I st -> body e st = Some st' -> I st') ->
  forall st st', I st -> forEdges body es st = Some st' -> I st'.
Proof.
  induction es as [|e es IH]; intros Hbody st st' Hst Hrun; cbn in Hrun.
  - by injection Hrun as <-.
  - destruct (body e st) as [st1|] eqn:He; [|discriminate].
    apply (IH (fun e' s s' Hin => Hbody e' s s' (list_elem_of_further _ _ _ Hin)) st1);
      [|exact Hrun].
    apply (Hbody e st); [left|exact Hst|exact He].
Qed.

(** What [dfs] records is a closed walk, and it leaves on the recursion
    stack no more than it found there. *)
Lemma dfs_sound (es : list WorkflowEdge) :
  forall fuel nodeId path st st',
    dfs fuel es nodeId path st = Some st' ->
    chain es path ->
    (forall y, last path = Some y -> edgeRel es y nodeId) ->
    (forall x, x ∈ recursionStack st -> x ∈ path) ->
    Forall (closedWalk es) (cycles st) ->
    Forall (closedWalk es) (cycles st')
    /\ (forall x, x ∈ recursionStack st' -> x ∈ recursionStack st).
Proof.
  induction fuel as [|fuel IH]; intros nodeId path st st' Hrun Hchain Hlast Hstack Hcycles;
    [discriminate|].
  simpl in Hrun. destruct (decide (nodeId ∈ recursionStack st)) as [Hon|Hoff].
  { injection Hrun as <-. cbn [cycles recursionStack]. split; [|auto].
    apply Forall_app. split; [exact Hcycles|]. apply Forall_singleton.
    destruct (indexOf_elem nodeId path (Hstack nodeId Hon)) as (i & Hindex & Hi).
    unfold sliceFromIndexOf. rewrite Hindex.
    destruct (last path) as [y|] eqn:Hy.
    - exists nodeId, y. split; [by rewrite head_lookup, lookup_drop, Nat.add_0_r|].
      split; [by rewrite (last_drop_lookup i path nodeId Hi)|].
      split; [by apply chain_drop|by apply Hlast].
    - apply last_None in Hy. subst path. discriminate. }
  destruct (decide (nodeId ∈ dfs_visited st)) as [|Hfresh].
  { injection Hrun as <-. auto. }
  destruct (forEdges _ _ _) as [st2|] eqn:Hloop; [|discriminate].
  injection Hrun as <-. cbn [cycles recursionStack].
  apply (forEdges_invariant
           (fun s => Forall (closedWalk es) (cycles s)
                     /\ forall x, x ∈ recursionStack s ->
                                  x ∈ {[nodeId]} ∪ recursionStack st)) in Hloop.
  - destruct Hloop as [Hcycles2 Hstack2]. split; [exact Hcycles2|].
    intros x [Hx Hne]%elem_of_difference.
    apply Hstack2, elem_of_union in Hx as [Hx|Hx]; [contradiction|exact Hx].
  - intros e s s' He [Hc Hs] Hcall.
    apply outgoingEdges_elem in He as [He Hsrc].
    destruct (IH (target e) (path ++ [nodeId]) s s' Hcall) as [Hc' Hs'].
    + by apply chain_snoc.
    + intros y Hy. rewrite last_snoc in Hy. injection Hy as <-. by exists e.
    + intros x Hx. apply Hs, elem_of_union in Hx as [Hx%elem_of_singleton|Hx].
      * subst x. apply elem_of_app. right. by left.
      * apply elem_of_app. left. by apply Hstack.
    + exact Hc.
    + split; [exact Hc'|]. intros x Hx. by apply Hs, Hs'.
  - cbn [cycles recursionStack]. split; [exact Hcycles|]. auto.
Qed.

Lemma forNodes_sound (es : list WorkflowEdge) (fuel : nat) :
  forall ns st st',
    forNodes fuel es ns st = Some st' ->
    (forall x, x ∉ recursionStack st) ->
    Forall (closedWalk es) (cycles st) ->
    Forall (closedWalk es) (cycles st').
Proof.
  induction ns as [|n ns IH]; intros st st' Hrun Hempty Hcycles; simpl in Hrun.
  - by injection Hrun as <-.
  - destruct (decide (node_id n ∈ dfs_visited st)); [by apply (IH st)|].
    destruct (dfs fuel es (node_id n) [] st) as [st1|] eqn:Hcall; [|discriminate].
    destruct (dfs_sound es fuel (node_id n) [] st st1 Hcall) as [Hc Hs];
      [done|discriminate|intros x Hx; by apply Hempty in Hx|exact Hcycles|].
    apply (IH st1); [exact Hrun| |exact Hc].
    intros x Hx. by apply Hs, Hempty in Hx.
Qed.

(** X14.  What [detectCycles] reports is a cycle of the graph: each
    reported list is a walk along edges whose last node has an edge back to
    its first node, so that every node of the list is on a cycle. *)
Theorem detectCycles_sound (w : Workflow) (c : list string) :
  c ∈ detectCycles w ->
  closedWalk (edges w) c /\ forall z, z ∈ c -> tc (edgeRel (edges w)) z z.
Proof.
  intros Hc. destruct (detectCycles_returns w) as (st & Hrun & Heq).
  rewrite Heq in Hc. unfold detectCyclesRun in Hrun.
  apply forNodes_sound in Hrun; [|intros x; apply not_elem_of_empty|constructor].
  rewrite Forall_forall in Hrun. specialize (Hrun c Hc).
  split; [exact Hrun|]. intros z Hz. by apply (closedWalk_on_cycle (edges w) c).
Qed.

(** X14 on the triangle entered from [t]: one cycle is reported, the three
    nodes in the order of the walk, and each is on a cycle. *)
Lemma detectCycles_sound_witness :
  detectCycles triangle = [["a"; "b"; "c"]]
  /\ tc (edgeRel (edges triangle)) "b" "b".
Proof.
  split; [vm_compute; reflexivity|].
  apply (proj2 (detectCycles_sound triangle ["a"; "b"; "c"]
                  ltac:(vm_compute; left))).
  right. left.
Defined.

Lemma forEdges_cycles_grow (body : WorkflowEdge -> DfsState -> option DfsState)
    (es : list WorkflowEdge) :
  (forall e st st', e ∈ es -> body e st = Some st' ->
     exists extra, cycles st' = cycles st ++ extra) ->
  forall st st', forEdges body es st = Some st' ->
    exists extra, cycles st' = cycles st ++ extra.
Proof.
  induction es as [|e es IH]; intros Hbody st st' Hrun; cbn in Hrun.
  - injection Hrun as <-. exists []. by rewrite app_nil_r.
  - destruct (body e st) as [st1|] eqn:He; [|discriminate].
    destruct (Hbody e st st1) as (extra1 & H1); [left|exact He|].
    destruct (IH (fun e' s s' Hin => Hbody e' s s' (list_elem_of_further _ _ _ Hin))
                 st1 st' Hrun) as (extra2 & H2).
    exists (extra1 ++ extra2). by rewrite H2, H1, app_assoc.
Qed.

Lemma dfs_cycles_grow (es : list WorkflowEdge) :
  forall fuel nodeId path st st',
    dfs fuel es nodeId path st = Some st' ->
    exists extra, cycles st' = cycles st ++ extra.
Proof.
  induction fuel as [|fuel IH]; intros nodeId path st st' Hrun; [discriminate|].
  simpl in Hrun. destruct (decide (nodeId ∈ recursionStack st)).
  { injection Hrun as <-. by eexists. }
  destruct (decide (nodeId ∈ dfs_visited st)).
  { injection Hrun as <-. exists []. by rewrite app_nil_r. }
  destruct (forEdges _ _ _) as [st2|] eqn:Hloop; [|discriminate].
  injection Hrun as <-. cbn [cycles].
  apply forEdges_cycles_grow in Hloop; [exact Hloop|].
  intros e s s' _ Hcall. by apply (IH _ _ _ _ Hcall).
Qed.

Lemma app_eq_self {A : Type} (l extra : list A) : l = l ++ extra -> extra = [].
Proof.
  intros H. apply (f_equal length) in H. rewrite length_app in H.
  destruct extra; [reflexivity|]. cbn in H. lia.
Qed.

Lemma finished_closed (es : list WorkflowEdge) (st : DfsState) (x y : string) :
  finishedAcyclic es st -> finished st x -> rtc (edgeRel es) x y -> finished st y.
Proof.
  intros [Hclosed _] Hx Hwalk. induction Hwalk as [x|x z y Hedge _ IH]; [exact Hx|].
  apply IH. by apply (Hclosed x z).
Qed.

(** A call of [dfs] that records no cycle finishes the node it was called
    on, with everything the node leads to, and none of them is on a cycle. *)
Lemma dfs_complete (es : list WorkflowEdge) :
  forall fuel nodeId path st st',
    dfs fuel es nodeId path st = Some st' ->
    cycles st' = cycles st ->
    finishedAcyclic es st ->
    finishedAcyclic es st'
    /\ recursionStack st' = recursionStack st
    /\ (forall x, x ∈ dfs_visited st -> x ∈ dfs_visited st')
    /\ finished st' nodeId.
Proof.
  induction fuel as [|fuel IH]; intros nodeId path st st' Hrun Hsame Hinv;
    [discriminate|].
  simpl in Hrun. destruct (decide (nodeId ∈ recursionStack st)) as [Hon|Hoff].
  { injection Hrun as <-. cbn [cycles] in Hsame. symmetry in Hsame.
    apply app_eq_self in Hsame. discriminate. }
  destruct (decide (nodeId ∈ dfs_visited st)) as [Hseen|Hfresh].
  { injection Hrun as <-.
    split; [exact Hinv|]. split; [reflexivity|]. split; [auto|]. by split. }
  destruct (forEdges _ _ _) as [st2|] eqn:Hloop; [|discriminate].
  injection Hrun as <-. cbn [cycles] in Hsame.
  set (st1 := mkDfs (cycles st) ({[nodeId]} ∪ dfs_visited st)
                    ({[nodeId]} ∪ recursionStack st)) in *.
  assert (Hfin1 : forall x, finished st1 x <-> finished st x).
  { intros x. unfold finished. cbn. split.
    - intros [Hx Hn].
      assert (Hne : x <> nodeId).
      { intros ->. apply Hn, elem_of_union_l, elem_of_singleton. reflexivity. }
      split.
      + apply elem_of_union in Hx as [Hx%elem_of_singleton|Hx]; [contradiction|exact Hx].
      + intros Hs. apply Hn. by apply elem_of_union_r.
    - intros [Hx Hn]. split; [by apply elem_of_union_r|].
      intros [Hs%elem_of_singleton|Hs]%elem_of_union; [|contradiction].
      subst x. contradiction. }
  assert (Hinv1 : finishedAcyclic es st1).
  { destruct Hinv as [Hclosed Hacyclic]. split.
    - intros x y Hx Hedge. apply Hfin1. apply (Hclosed x y); [by apply Hfin1|exact Hedge].
    - intros x Hx. by apply Hacyclic, Hfin1. }
  assert (Hloop' :
    forall l s s',
      (forall e, e ∈ l -> e ∈ outgoingEdges es nodeId) ->
      forEdges (fun e => dfs fuel es (target e) (path ++ [nodeId])) l s = Some s' ->
      cycles s' = cycles s ->
      finishedAcyclic es s ->
      finishedAcyclic es s'
      /\ recursionStack s' = recursionStack s
      /\ (forall x, x ∈ dfs_visited s -> x ∈ dfs_visited s')
      /\ (forall e, e ∈ l -> finished s' (target e))).
  { clear Hloop Hsame st2. induction l as [|e l IHl]; intros s s' Hl Hrun Hsame' Hinv';
      cbn in Hrun.
    - injection Hrun as <-.
      split; [exact Hinv'|]. split; [reflexivity|]. split; [auto|].
      intros e He. inversion He.
    - destruct (dfs fuel es (target e) (path ++ [nodeId]) s) as [sa|] eqn:Hcall;
        [|discriminate].
      destruct (dfs_cycles_grow es _ _ _ _ _ Hcall) as (extra1 & H1).
      destruct (forEdges_cycles_grow _ l
                  (fun e' s0 s0' _ Hc => dfs_cycles_grow es _ _ _ _ _ Hc) sa s' Hrun)
        as (extra2 & H2).
      assert (Hnil : extra1 ++ extra2 = []).
      { apply (app_eq_self (cycles s)). by rewrite app_assoc, <- H1, <- H2. }
      apply app_eq_nil in Hnil as [-> ->]. rewrite app_nil_r in H1, H2.
      destruct (IH _ _ _ _ Hcall H1 Hinv') as (Hinva & Hstacka & Hvisa & Hfina).
      destruct (IHl sa s' (fun e' He' => Hl e' (list_elem_of_further _ _ _ He'))
                    Hrun H2 Hinva) as (Hinvb & Hstackb & Hvisb & Hfinb).
      split; [exact Hinvb|]. split; [by rewrite Hstackb|]. split; [auto|].
      intros e' [->|He']%elem_of_cons; [|by apply Hfinb].
      destruct Hfina as [Hv Hs]. split; [by apply Hvisb|]. by rewrite Hstackb. }
  destruct (Hloop' _ st1 st2 (fun e He => He) Hloop Hsame Hinv1)
    as (Hinv2 & Hstack2 & Hvis2 & Hfin2).
  cbn [recursionStack dfs_visited] in Hstack2, Hvis2.
  set (st' := mkDfs (cycles st2) (dfs_visited st2) (recursionStack st2 ∖ {[nodeId]})).
  assert (Hnode : nodeId ∈ dfs_visited st2).
  { apply Hvis2, elem_of_union_l, elem_of_singleton. reflexivity. }
  assert (Hfin' : forall x, finished st' x <-> finished st2 x \/ x = nodeId).
  { intros x. unfold finished, st'. cbn. rewrite elem_of_difference, elem_of_singleton.
    split.
    - intros [Hx Hn]. destruct (decide (x = nodeId)) as [->|Hne]; [by right|].
      left. split; [exact Hx|]. intros Hin. apply Hn. by split.
    - intros [[Hx Hn]| ->].
      + split; [exact Hx|]. intros [Hin _]. contradiction.
      + split; [exact Hnode|]. intros [_ Hne]. by apply Hne. }
  assert (Hsucc : forall y, edgeRel es nodeId y -> finished st2 y).
  { intros y (e & He & Hs & <-). apply Hfin2.
    unfold outgoingEdges. apply list_elem_of_In, filter_In.
    split; [by apply list_elem_of_In|]. by apply String.eqb_eq. }
  assert (Hnot2 : ~ finished st2 nodeId).
  { intros [_ Hn]. apply Hn. rewrite Hstack2.
    apply elem_of_union_l, elem_of_singleton. reflexivity. }
  split; [|split; [|split]].
  - destruct Hinv2 as [Hclosed Hacyclic]. split.
    + intros x y Hx Hedge. apply Hfin'. left.
      apply Hfin' in Hx as [Hx| ->]; [by apply (Hclosed x y)|by apply Hsucc].
    + intros x Hx Hcycle. apply Hfin' in Hx as [Hx| ->]; [by apply (Hacyclic x)|].
      apply Hnot2.
      assert (Hstep : exists y, edgeRel es nodeId y /\ rtc (edgeRel es) y nodeId).
      { inversion Hcycle as [? ? Hedge|? y ? Hedge Hrest]; subst.
        - exists nodeId. split; [exact Hedge|apply rtc_refl].
        - exists y. split; [exact Hedge|by apply tc_rtc]. }
      destruct Hstep as (y & Hedge & Hback).
      apply (finished_closed es st2 y nodeId); [by split|by apply Hsucc|exact Hback].
  - unfold st'. cbn [recursionStack]. rewrite Hstack2. unfold st1.
    cbn [recursionStack]. apply set_eq. intros x.
    rewrite elem_of_difference, elem_of_union, elem_of_singleton. split; [tauto|].
    intros Hx. split; [by right|]. by intros ->.
  - intros x Hx. unfold st'. cbn [dfs_visited]. by apply Hvis2, elem_of_union_r.
  - apply Hfin'. by right.
Qed.

Lemma forNodes_complete (es : list WorkflowEdge) (fuel : nat) :
  forall ns st st',
    forNodes fuel es ns st = Some st' ->
    cycles st' = cycles st ->
    finishedAcyclic es st ->
    recursionStack st = ∅ ->
    finishedAcyclic es st'
    /\ recursionStack st' = ∅
    /\ (forall x, x ∈ dfs_visited st -> x ∈ dfs_visited st')
    /\ (forall n, n ∈ ns -> node_id n ∈ dfs_visited st').
Proof.
  assert (Hgrow : forall ns st st', forNodes fuel es ns st = Some st' ->
            exists extra, cycles st' = cycles st ++ extra).
  { induction ns as [|n ns IH]; intros st st' Hrun; simpl in Hrun.
    - injection Hrun as <-. exists []. by rewrite app_nil_r.
    - destruct (decide (node_id n ∈ dfs_visited st)); [by apply IH|].
      destruct (dfs fuel es (node_id n) [] st) as [st1|] eqn:Hcall; [|discriminate].
      destruct (dfs_cycles_grow es _ _ _ _ _ Hcall) as (extra1 & H1).
      destruct (IH st1 st' Hrun) as (extra2 & H2).
      exists (extra1 ++ extra2). by rewrite H2, H1, app_assoc. }
  induction ns as [|n ns IH]; intros st st' Hrun Hsame Hinv Hempty; simpl in Hrun.
  - injection Hrun as <-.
    split; [exact Hinv|]. split; [exact Hempty|]. split; [auto|].
    intros n Hn. inversion Hn.
  - destruct (decide (node_id n ∈ dfs_visited st)) as [Hseen|Hfresh].
    + destruct (IH st st' Hrun Hsame Hinv Hempty) as (Hinv' & Hempty' & Hvis' & Hall).
      split; [exact Hinv'|]. split; [exact Hempty'|]. split; [exact Hvis'|].
      intros m [->|Hm]%elem_of_cons; [by apply Hvis'|by apply Hall].
    + destruct (dfs fuel es (node_id n) [] st) as [st1|] eqn:Hcall; [|discriminate].
      destruct (dfs_cycles_grow es _ _ _ _ _ Hcall) as (extra1 & H1).
      destruct (Hgrow ns st1 st' Hrun) as (extra2 & H2).
      assert (Hnil : extra1 ++ extra2 = []).
      { apply (app_eq_self (cycles st)). by rewrite app_assoc, <- H1, <- H2. }
      apply app_eq_nil in Hnil as [-> ->]. rewrite app_nil_r in H1, H2.
      destruct (dfs_complete es _ _ _ _ _ Hcall H1 Hinv) as (Hinv1 & Hstack1 & Hvis1 & Hfin1).
      destruct (IH st1 st' Hrun H2 Hinv1) as (Hinv' & Hempty' & Hvis' & Hall).
      { by rewrite Hstack1. }
      split; [exact Hinv'|]. split; [exact Hempty'|]. split; [auto|].
      intros m [->|Hm]%elem_of_cons; [|by apply Hall].
      apply Hvis'. by destruct Hfin1.
Qed.

(** X15.  When [detectCycles] reports nothing, no node of the workflow
    leads to a cycle: nothing that is reached from a node of the workflow
    is on a cycle. *)
Theorem detectCycles_complete (w : Workflow) (n : WorkflowNode) (y : string) :
  detectCycles w = [] ->
  n ∈ nodes w ->
  rtc (edgeRel (edges w)) (node_id n) y ->
  ~ tc (edgeRel (edges w)) y y.
Proof.
  intros Hnone Hn Hreach. destruct (detectCycles_returns w) as (st & Hrun & Heq).
  rewrite Hnone in Heq. unfold detectCyclesRun in Hrun.
  destruct (forNodes_complete _ _ _ _ _ Hrun) as (Hinv & Hempty & _ & Hall);
    [by rewrite <- Heq| |reflexivity|].
  { split; [intros x0 y0 [Hx _]|intros x0 [Hx _]]; cbn in Hx;
      by apply not_elem_of_empty in Hx. }
  assert (Hfin : finished st (node_id n)).
  { split; [by apply Hall|]. rewrite Hempty. apply not_elem_of_empty. }
  destruct Hinv as [Hclosed Hacyclic]. apply Hacyclic.
  by apply (finished_closed (edges w) st (node_id n) y).
Qed.

(** X15 on the diamond, which has no cycle, and its contrapositive on the
    triangle. *)
Lemma detectCycles_complete_witness :
  ~ tc (edgeRel (edges diamond)) "d" "d" /\ detectCycles triangle <> [].
Proof.
  split; [|discriminate].
  apply (detectCycles_complete diamond (mkNode "a" NT_trigger "A" emptyConfig) "d");
    [vm_compute; reflexivity|left|].
  apply (rtc_l _ "a" "b").
  - exists (mkEdge "e1" "a" "b" None). split; [left|split; reflexivity].
  - apply rtc_once. exists (mkEdge "e3" "b" "d" None).
    split; [right; right; left|split; reflexivity].
Defined.

(** ** The in-memory store *)

Lemma objGet_objSet_eq {A : Type} (k : string) (v : A) (o : list (string * A)) :
  objGet k (objSet k v o) = Some v.
Proof.
  induction o as [|[k' v'] o IH]; cbn.
  - by rewrite String.eqb_refl.
  - destruct (String.eqb_spec k k') as [->|Hne]; cbn.
    + by rewrite String.eqb_refl.
    + destruct (String.eqb_spec k k'); [contradiction|exact IH].
Qed.

Lemma objGet_objSet_ne {A : Type} (k k' : string) (v : A) (o : list (string * A)) :
  k <> k' -> objGet k' (objSet k v o) = objGet k' o.
Proof.
  intros Hne. induction o as [|[k0 v0] o IH]; cbn.
  - destruct (String.eqb_spec k' k); [congruence|reflexivity].
  - destruct (String.eqb_spec k k0) as [->|Hne0]; cbn.
    + destruct (String.eqb_spec k' k0); [congruence|reflexivity].
    + destruct (String.eqb_spec k' k0); [reflexivity|exact IH].
Qed.

Lemma objGet_objDelete_ne {A : Type} (k k' : string) (o : list (string * A)) :
  k <> k' -> objGet k' (objDelete k o) = objGet k' o.
Proof.
  intros Hne. induction o as [|[k0 v0] o IH]; cbn; [reflexivity|].
  destruct (String.eqb_spec k k0) as [->|Hne0]; cbn.
  - destruct (String.eqb_spec k' k0); [congruence|reflexivity].
  - destruct (String.eqb_spec k' k0); [reflexivity|exact IH].
Qed.

Lemma objGet_None_keys {A : Type} (k : string) (o : list (string * A)) :
  objGet k o = None <-> k ∉ map fst o.
Proof.
  induction o as [|[k' v'] o IH]; cbn.
  - split; [intros _ H; inversion H|reflexivity].
  - rewrite not_elem_of_cons. destruct (String.eqb_spec k k') as [->|Hne].
    + split; [discriminate|]. by intros [? _].
    + rewrite IH. tauto.
Qed.

Lemma objGet_objDelete_eq {A : Type} (k : string) (o : list (string * A)) :
  NoDup (map fst o) -> objGet k (objDelete k o) = None.
Proof.
  induction o as [|[k' v'] o IH]; cbn; [reflexivity|]. intros [Hk' Ho]%NoDup_cons.
  destruct (String.eqb_spec k k') as [->|Hne]; cbn.
  - by apply objGet_None_keys.
  - destruct (String.eqb_spec k k'); [contradiction|by apply IH].
Qed.

Lemma objSet_keys_NoDup {A : Type} (k : string) (v : A) (o : list (string * A)) :
  NoDup (map fst o) -> NoDup (map fst (objSet k v o)).
Proof.
  induction o as [|[k' v'] o IH]; cbn.
  - intros _. apply NoDup_singleton.
  - intros [Hk' Ho]%NoDup_cons. destruct (String.eqb_spec k k') as [->|Hne]; cbn.
    + by apply NoDup_cons.
    + apply NoDup_cons. split; [|by apply IH].
      intros Hin. apply Hk'. clear IH Ho Hk'.
      induction o as [|[k0 v0] o IH]; cbn in *.
      * apply list_elem_of_singleton in Hin. congruence.
      * destruct (String.eqb_spec k k0) as [->|Hne0]; cbn in *; [exact Hin|].
        apply elem_of_cons in Hin as [->|Hin]; [left|right; by apply IH].
Qed.

(** X16.  A value stored with a positive time-to-live is read back until
    its time has run out, the last millisecond included; after that [get]
    answers [null] and removes the entry.  With a time-to-live of zero or
    less the entry never expires. *)
Theorem setex_then_get (now now' ttlSeconds : Z) (key value : string)
    (store : list (string * Entry)) :
  (0 <= now)%Z ->
  NoDup (map fst store) ->
  ((0 < ttlSeconds)%Z -> (now' <= now + ttlSeconds * 1000)%Z ->
     redisGet now' key (setex now key ttlSeconds value store)
     = (Some value, setex now key ttlSeconds value store))
  /\ ((0 < ttlSeconds)%Z -> (now + ttlSeconds * 1000 < now')%Z ->
        fst (redisGet now' key (setex now key ttlSeconds value store)) = None
        /\ objGet key (snd (redisGet now' key (setex now key ttlSeconds value store)))
           = None)
  /\ ((ttlSeconds <= 0)%Z ->
        redisGet now' key (setex now key ttlSeconds value store)
        = (Some value, setex now key ttlSeconds value store)).
Proof.
  intros Hnow Hkeys. unfold redisGet, setex. rewrite objGet_objSet_eq.
  unfold entryExpired. cbn [expiresAt entry_value].
  split; [|split].
  - intros Hpos Hlive. replace (0 <? ttlSeconds)%Z with true by (symmetry; lia).
    replace (now + ttlSeconds * 1000 <? now')%Z with false by (symmetry; lia).
    by rewrite andb_false_r.
  - intros Hpos Hdead. replace (0 <? ttlSeconds)%Z with true by (symmetry; lia).
    replace (now + ttlSeconds * 1000 <? now')%Z with true by (symmetry; lia).
    replace (now + ttlSeconds * 1000 =? -1)%Z with false by (symmetry; lia).
    cbn [negb andb fst snd]. split; [reflexivity|].
    apply objGet_objDelete_eq. by apply objSet_keys_NoDup.
  - intros Hnone. replace (0 <? ttlSeconds)%Z with false by (symmetry; lia).
    reflexivity.
Qed.

(** X16 at the clock 1000 with one minute to live: read at 61000, gone at
    61001; stored with zero seconds, still there a day later. *)
Lemma setex_then_get_witness :
  fst (redisGet 61000 "k" (setex 1000 "k" 60 "v" [])) = Some "v"
  /\ fst (redisGet 61001 "k" (setex 1000 "k" 60 "v" [])) = None
  /\ fst (redisGet 86400000 "k" (setex 1000 "k" 0 "v" [])) = Some "v".
Proof.
  destruct (setex_then_get 1000 61000 60 "k" "v" [] ltac:(lia) (NoDup_nil_2 (A:=string)))
    as (Hlive & _ & _).
  destruct (setex_then_get 1000 61001 60 "k" "v" [] ltac:(lia) (NoDup_nil_2 (A:=string)))
    as (_ & Hdead & _).
  destruct (setex_then_get 1000 86400000 0 "k" "v" [] ltac:(lia) (NoDup_nil_2 (A:=string)))
    as (_ & _ & Hnever).
  rewrite (Hlive ltac:(lia) ltac:(lia)), (Hnever ltac:(lia)).
  split; [reflexivity|]. split; [|reflexivity].
  exact (proj1 (Hdead ltac:(lia) ltac:(lia))).
Defined.

(** X17.  At the millisecond an entry expires, [get] and [exists] still
    see it while [ttl] answers [-2], as for a missing key, and removes it:
    a [get] that follows the [ttl] answers [null]. *)
Theorem ttl_and_get_disagree_at_expiry (now ttlSeconds : Z) (key value : string)
    (store : list (string * Entry)) :
  (0 <= now)%Z ->
  (0 < ttlSeconds)%Z ->
  NoDup (map fst store) ->
  let stored := setex now key ttlSeconds value store in
  let expiry := (now + ttlSeconds * 1000)%Z in
  fst (redisGet expiry key stored) = Some value
  /\ fst (redisExists expiry key stored) = 1%Z
  /\ fst (ttl expiry key stored) = (-2)%Z
  /\ fst (redisGet expiry key (snd (ttl expiry key stored))) = None.
Proof.
  intros Hnow Hpos Hkeys stored expiry.
  assert (Hentry : objGet key stored = Some (mkEntry value expiry)).
  { unfold stored, setex. rewrite objGet_objSet_eq.
    by replace (0 <? ttlSeconds)%Z with true by (symmetry; lia). }
  assert (Hunique : NoDup (map fst stored)).
  { unfold stored, setex. by apply objSet_keys_NoDup. }
  assert (Httl : ttl expiry key stored = ((-2)%Z, objDelete key stored)).
  { unfold ttl. rewrite Hentry. cbn [expiresAt].
    replace (expiry =? -1)%Z with false by (symmetry; unfold expiry; lia).
    by replace (expiry - expiry <=? 0)%Z with true by (symmetry; lia). }
  rewrite Httl. unfold redisGet, redisExists. rewrite Hentry.
  unfold entryExpired. cbn [expiresAt entry_value fst snd].
  replace (expiry <? expiry)%Z with false by (symmetry; lia).
  rewrite andb_false_r. cbn [fst]. repeat split.
  by rewrite objGet_objDelete_eq.
Qed.

(** X17 at the clock 1000 with one minute to live, asked at 61000. *)
Lemma ttl_and_get_disagree_at_expiry_witness :
  fst (redisGet 61000 "k" (setex 1000 "k" 60 "v" [])) = Some "v"
  /\ fst (ttl 61000 "k" (setex 1000 "k" 60 "v" [])) = (-2)%Z.
Proof.
  destruct (ttl_and_get_disagree_at_expiry 1000 60 "k" "v" []
              ltac:(lia) ltac:(lia) (NoDup_nil_2 (A:=string))) as (Hget & _ & Httl & _).
  split; [exact Hget|exact Httl].
Defined.

(** X18.  While an entry stored with a positive time-to-live has time
    left, [ttl] answers the seconds left, rounded up: a number from 1 to the
    time-to-live it was stored with, and that very number at the time of the
    [setex]; the store is not changed. *)
Theorem ttl_counts_down (now now' ttlSeconds : Z) (key value : string)
    (store : list (string * Entry)) :
  (0 <= now)%Z ->
  (0 < ttlSeconds)%Z ->
  (now <= now' < now + ttlSeconds * 1000)%Z ->
  let stored := setex now key ttlSeconds value store in
  (1 <= fst (ttl now' key stored) <= ttlSeconds)%Z
  /\ (fst (ttl now' key stored) * 1000 - 1000 < now + ttlSeconds * 1000 - now'
      <= fst (ttl now' key stored) * 1000)%Z
  /\ fst (ttl now key stored) = ttlSeconds
  /\ snd (ttl now' key stored) = stored.
Proof.
  intros Hnow Hpos Hlive stored. unfold ttl, stored, setex.
  rewrite !objGet_objSet_eq. cbn [expiresAt].
  replace (0 <? ttlSeconds)%Z with true by (symmetry; lia).
  replace (now + ttlSeconds * 1000 =? -1)%Z with false by (symmetry; lia).
  replace (now + ttlSeconds * 1000 - now' <=? 0)%Z with false by (symmetry; lia).
  replace (now + ttlSeconds * 1000 - now <=? 0)%Z with false by (symmetry; lia).
  cbn [fst snd].
  set (r := (now + ttlSeconds * 1000 - now')%Z).
  assert (Hr : (0 < r <= ttlSeconds * 1000)%Z) by (unfold r; lia).
  pose proof (Z.div_mod (- r) 1000 ltac:(lia)) as Hdm.
  pose proof (Z.mod_pos_bound (- r) 1000 ltac:(lia)) as Hmod.
  split; [lia|]. split; [lia|]. split; [|reflexivity].
  replace (now + ttlSeconds * 1000 - now)%Z with (ttlSeconds * 1000)%Z by lia.
  replace (- (ttlSeconds * 1000))%Z with ((- ttlSeconds) * 1000)%Z by lia.
  rewrite Z.div_mul by lia. lia.
Qed.

(** X18 at the clock 1000 with one minute to live, asked half a second
    later. *)
Lemma ttl_counts_down_witness :
  fst (ttl 1500 "k" (setex 1000 "k" 60 "v" [])) = 60%Z
  /\ fst (ttl 2000 "k" (setex 1000 "k" 60 "v" [])) = 59%Z.
Proof.
  pose proof (ttl_counts_down 1000 1500 60 "k" "v" [] ltac:(lia) ltac:(lia) ltac:(lia))
    as (Hrange & Hceil & _).
  pose proof (ttl_counts_down 1000 2000 60 "k" "v" [] ltac:(lia) ltac:(lia) ltac:(lia))
    as (Hrange' & Hceil' & _).
  cbv zeta in *. lia.
Defined.

(** *** Sweeping the store *)

Lemma objDelete_absent {A : Type} (k : string) (o : list (string * A)) :
  objGet k o = None -> objDelete k o = o.
Proof.
  induction o as [|[k' v'] o IH]; cbn; [reflexivity|].
  destruct (String.eqb_spec k k'); [discriminate|]. intros H. by rewrite IH.
Qed.

Lemma filter_key {A : Type} (P : A -> bool) (k : string) (o : list (string * A)) :
  NoDup (map fst o) ->
  List.filter (fun kv => negb (String.eqb (fst kv) k && P (snd kv))) o
  = match objGet k o with
    | Some v => if P v then objDelete k o else o
    | None => o
    end.
Proof.
  induction o as [|[k' v'] o IH]; cbn; [reflexivity|]. intros [Hk' Ho]%NoDup_cons.
  rewrite (IH Ho). rewrite (String.eqb_sym k' k).
  destruct (String.eqb_spec k k') as [->|Hne]; cbn.
  - apply objGet_None_keys in Hk'. rewrite Hk'. by destruct (P v').
  - destruct (objGet k o) as [v|]; [|reflexivity]. by destruct (P v).
Qed.

Lemma filter_keys_NoDup {A : Type} (f : string * A -> bool) (o : list (string * A)) :
  NoDup (map fst o) -> NoDup (map fst (List.filter f o)).
Proof.
  induction o as [|kv o IH]; cbn; [done|]. intros [Hk Ho]%NoDup_cons.
  destruct (f kv); cbn; [|by apply IH].
  apply NoDup_cons. split; [|by apply IH]. intros Hin. apply Hk.
  apply list_elem_of_fmap in Hin as (kv' & -> & Hin).
  apply list_elem_of_fmap. exists kv'. split; [reflexivity|].
  apply list_elem_of_In, filter_In in Hin as [Hin _]. by apply list_elem_of_In.
Qed.

Lemma filter_filter {A : Type} (f g : A -> bool) (l : list A) :
  List.filter f (List.filter g l) = List.filter (fun x => g x && f x) l.
Proof.
  induction l as [|x l IH]; cbn; [reflexivity|].
  destruct (g x); cbn; [|exact IH]. destruct (f x); by rewrite IH.
Qed.

(** One turn of the inner loop removes the entry of the key when [ttl] sees
    it as gone. *)
Lemma cleanup_turn (now : Z) (key : string) (store : list (string * Entry)) :
  NoDup (map fst store) ->
  (let '(t, st') := ttl now key store in if (t =? -2)%Z then del key st' else st')
  = List.filter (fun kv => negb (String.eqb (fst kv) key && lapsed now (snd kv))) store.
Proof.
  intros Hkeys. rewrite (filter_key (lapsed now) key store Hkeys).
  unfold ttl, del, lapsed. destruct (objGet key store) as [entry|] eqn:Hentry.
  - destruct (expiresAt entry =? -1)%Z; cbn [negb andb]; [reflexivity|].
    destruct (expiresAt entry - now <=? 0)%Z eqn:Hleft.
    + cbn. apply objDelete_absent. by apply objGet_objDelete_eq.
    + apply Z.leb_gt in Hleft.
      pose proof (Z.div_mod (- (expiresAt entry - now)) 1000 ltac:(lia)) as Hdm.
      pose proof (Z.mod_pos_bound (- (expiresAt entry - now)) 1000 ltac:(lia)) as Hmod.
      replace (- (- (expiresAt entry - now) / 1000) =? -2)%Z with false
        by (symmetry; lia).
      reflexivity.
  - cbn. by apply objDelete_absent.
Qed.

Lemma cleanupKeys_filter (now : Z) (ks : list string) :
  forall store,
    NoDup (map fst store) ->
    cleanupKeys now ks store
    = List.filter (fun kv => negb (existsb (String.eqb (fst kv)) ks
                                   && lapsed now (snd kv))) store.
Proof.
  unfold cleanupKeys. induction ks as [|k ks IH]; intros store Hkeys; cbn [fold_left].
  - cbn. induction store as [|kv store IHs]; [reflexivity|]. cbn. f_equal.
    apply IHs. by apply NoDup_cons in Hkeys as [_ ?].
  - rewrite (cleanup_turn now k store Hkeys).
    rewrite IH by (by apply filter_keys_NoDup). rewrite filter_filter.
    apply filter_ext. intros [k' e]. cbn.
    destruct (String.eqb k' k), (existsb (String.eqb k') ks), (lapsed now e); reflexivity.
Qed.

Lemma cleanupPattern_filter (now : Z) (pre : string) (store : list (string * Entry)) :
  NoDup (map fst store) ->
  cleanupKeys now (List.filter (fun k => String.prefix pre k) (map fst store)) store
  = List.filter (fun kv => negb (String.prefix pre (fst kv) && lapsed now (snd kv))) store.
Proof.
  intros Hkeys. rewrite (cleanupKeys_filter now _ store Hkeys).
  apply filter_ext_in. intros [k e] Hin. cbn. f_equal. f_equal.
  destruct (String.prefix pre k) eqn:Hpre.
  - apply existsb_exists. exists k. split; [|apply String.eqb_refl].
    apply filter_In. split; [|exact Hpre]. apply in_map_iff. by exists (k, e).
  - destruct (existsb _ _) eqn:Hex; [|reflexivity].
    apply existsb_exists in Hex as (k' & Hk' & Heq). apply String.eqb_eq in Heq as <-.
    apply filter_In in Hk' as [_ Hk']. congruence.
Qed.

(** X19.  [cleanupExpiredData] removes the entries under [workflow:],
    [execution:], [approval:] and [copilot:] that have an expiry time not
    later than the time of the call, those that expire at that very
    millisecond included, and nothing else: the other entries stay, in their
    order, also expired entries under other prefixes. *)
Theorem cleanupExpiredData_removes_lapsed (now : Z) (store : list (string * Entry)) :
  NoDup (map fst store) ->
  cleanupExpiredData now store
  = List.filter (fun kv => negb (swept (fst kv) && lapsed now (snd kv))) store.
Proof.
  intros Hkeys. unfold cleanupExpiredData. cbn [fold_left].
  change (keys "workflow:*") with
    (fun st : list (string * Entry) =>
       List.filter (fun k => String.prefix "workflow:" k) (map fst st)).
  change (keys "execution:*") with
    (fun st : list (string * Entry) =>
       List.filter (fun k => String.prefix "execution:" k) (map fst st)).
  change (keys "approval:*") with
    (fun st : list (string * Entry) =>
       List.filter (fun k => String.prefix "approval:" k) (map fst st)).
  change (keys "copilot:*") with
    (fun st : list (string * Entry) =>
       List.filter (fun k => String.prefix "copilot:" k) (map fst st)).
  cbv beta.
  rewrite (cleanupPattern_filter now "workflow:" store Hkeys).
  match goal with
  | |- context [cleanupKeys now _ (List.filter ?f store)] =>
      pose proof (filter_keys_NoDup f store Hkeys) as Hkeys1;
      rewrite (cleanupPattern_filter now "execution:" (List.filter f store) Hkeys1)
  end.
  match goal with
  | |- context [cleanupKeys now _ (List.filter ?g ?s1)] =>
      pose proof (filter_keys_NoDup g s1 Hkeys1) as Hkeys2;
      rewrite (cleanupPattern_filter now "approval:" (List.filter g s1) Hkeys2)
  end.
  match goal with
  | |- context [cleanupKeys now _ (List.filter ?h ?s2)] =>
      pose proof (filter_keys_NoDup h s2 Hkeys2) as Hkeys3;
      rewrite (cleanupPattern_filter now "copilot:" (List.filter h s2) Hkeys3)
  end.
  rewrite !filter_filter. apply filter_ext. intros [k e]. unfold swept. cbn [fst snd].
  destruct (String.prefix "workflow:" k), (String.prefix "execution:" k),
    (String.prefix "approval:" k), (String.prefix "copilot:" k), (lapsed now e);
    reflexivity.
Qed.

(** X19 on the sample store, swept at 5000: the execution and the approval
    go, the approval although [get] would still have returned it; the
    workflow and the expired key of another kind stay. *)
Lemma cleanupExpiredData_removes_lapsed_witness :
  map fst (cleanupExpiredData 5000 sampleStore) = ["workflow:w"; "session:x"]
  /\ fst (redisGet 5000 "approval:e" sampleStore) = Some "{}".
Proof.
  rewrite (cleanupExpiredData_removes_lapsed 5000 sampleStore).
  - split; reflexivity.
  - cbn. repeat (apply NoDup_cons; split; [by repeat (apply not_elem_of_cons; split);
                                             try apply not_elem_of_nil|]).
    apply NoDup_nil_2.
Defined.

(** ** Retry policies *)

Section RetryPolicies.
Context {lang : Language}.

Lemma retryableAt_dec (cfg : RetryConfig) (operation : nat -> Outcome) (j : nat) :
  retryableAt cfg operation j \/ ~ retryableAt cfg operation j.
Proof.
  unfold retryableAt. destruct (failureMessage (operation j)) as [m|] eqn:Hm.
  - destruct (isRetryableError cfg m) eqn:Hclass.
    + left. by exists m.
    + right. intros (m' & Hm' & Hclass'). congruence.
  - right. intros (m' & Hm' & _). discriminate.
Qed.

(** The attempt at which a run stops: the first that is not a retryable
    failure, or the last one allowed. *)
Lemma first_stop (cfg : RetryConfig) (operation : nat -> Outcome) (n : nat) :
  1 <= n ->
  exists k, 1 <= k <= n
            /\ (forall j, 1 <= j < k -> retryableAt cfg operation j)
            /\ (k = n \/ ~ retryableAt cfg operation k).
Proof.
  induction n as [|n IH]; [lia|]. intros _.
  destruct n as [|n].
  { exists 1. split; [lia|]. split; [intros j Hj; lia|by left]. }
  destruct IH as (k & Hk & Hbefore & Hstop); [lia|].
  destruct Hstop as [->|Hstop].
  - destruct (retryableAt_dec cfg operation (S n)) as [Hretry|Hnot].
    + exists (S (S n)). split; [lia|]. split; [|by left].
      intros j Hj. destruct (decide (j = S n)) as [->|Hne]; [exact Hretry|].
      apply Hbefore. lia.
    + exists (S n). split; [lia|]. split; [exact Hbefore|by right].
  - exists k. split; [lia|]. split; [exact Hbefore|by right].
Qed.

(** Whatever the operation does, a run with at least one attempt allowed
    has the shape of a run that stops at some attempt [k]. *)
Lemma executeWithRetry_stops (cfg : RetryConfig) (operation : nat -> Outcome) :
  (1 <= maxRetries cfg)%Z ->
  exists k,
    1 <= k <= Z.to_nat (maxRetries cfg)
    /\ snd (executeWithRetry cfg operation) = traceUpTo cfg k
    /\ rr_attempts (fst (executeWithRetry cfg operation)) = Z.of_nat k
    /\ rr_totalDelayMs (fst (executeWithRetry cfg operation)) = delayUpTo cfg k
    /\ (rr_success (fst (executeWithRetry cfg operation)) = true
        <-> exists v, operation k = Resolved v).
Proof.
  intros Hmax.
  destruct (first_stop cfg operation (Z.to_nat (maxRetries cfg))) as (k & Hk & Hbefore & Hstop);
    [lia|].
  exists k. split; [exact Hk|].
  destruct (executeWithRetry_reaches cfg operation k Hk Hbefore) as (lastError & ->).
  unfold traceUpTo. cbn [retryLoop].
  destruct (operation k) as [v|m|] eqn:Hop.
  - cbn. do 3 (split; [reflexivity|]). split; [by eexists|reflexivity].
  - destruct (isRetryableError cfg m) eqn:Hclass; cbn [negb].
    + destruct Hstop as [->|Hnot].
      * rewrite Z2Nat.id by lia. rewrite Z.eqb_refl. cbn.
        do 3 (split; [reflexivity|]).
        split; [discriminate|intros (v & Hv); discriminate].
      * destruct Hnot. exists m. by rewrite Hop.
    + cbn. do 3 (split; [reflexivity|]).
      split; [discriminate|intros (v & Hv); discriminate].
  - destruct (isRetryableError cfg "Unknown error") eqn:Hclass; cbn [negb].
    + destruct Hstop as [->|Hnot].
      * rewrite Z2Nat.id by lia. rewrite Z.eqb_refl. cbn.
        do 3 (split; [reflexivity|]).
        split; [discriminate|intros (v & Hv); discriminate].
      * destruct Hnot. exists "Unknown error". by rewrite Hop.
    + cbn. do 3 (split; [reflexivity|]).
      split; [discriminate|intros (v & Hv); discriminate].
Qed.

(** X20.  Whatever the operation does, [executeWithRetry] with at least one
    attempt allowed calls it [k] times for some [k] from 1 to [maxRetries],
    attempt after attempt with the backoff sleeps between the calls and none
    after the last, reports [k] as the number of attempts and the sum of the
    sleeps as the total delay, and reports success exactly when the [k]-th
    call resolved.  With [maxRetries] below 1 the operation is not called at
    all and the result is a failure with the message [Max retries
    exceeded]. *)
Theorem executeWithRetry_always (cfg : RetryConfig) (operation : nat -> Outcome) :
  ((1 <= maxRetries cfg)%Z ->
   exists k,
     1 <= k <= Z.to_nat (maxRetries cfg)
     /\ snd (executeWithRetry cfg operation) = traceUpTo cfg k
     /\ rr_attempts (fst (executeWithRetry cfg operation)) = Z.of_nat k
     /\ rr_totalDelayMs (fst (executeWithRetry cfg operation)) = delayUpTo cfg k
     /\ (rr_success (fst (executeWithRetry cfg operation)) = true
         <-> exists v, operation k = Resolved v))
  /\ ((maxRetries cfg < 1)%Z ->
      executeWithRetry cfg operation
      = (mkRetryResult false None (Some "Max retries exceeded") (maxRetries cfg)
                       (numOfZ 0), [])).
Proof.
  split; [apply executeWithRetry_stops|].
  intros Hnone. unfold executeWithRetry.
  replace (Z.to_nat (maxRetries cfg)) with 0 by lia. reflexivity.
Qed.

(** The sleeps of the policies that [createForNode] builds, where whole
    numbers are not rounded. *)
Lemma createForNode_delay (node : WorkflowNode) (k : nat) :
  exactOnWholeNumbers ->
  1 <= k <= Z.to_nat (maxRetries (createForNode node)) ->
  exists ms, delayUpTo (createForNode node) k = numOfZ ms /\ (0 <= ms <= 6000)%Z.
Proof.
  intros (Hpow0 & Hpow1 & Hmul & Hadd) Hk.
  assert (Hone : forall b, (0 <= b <= 6000)%Z ->
            numAdd (numOfZ 0) (numMul (numOfZ b) (numOfZ 1)) = numOfZ b).
  { intros b Hb. rewrite Hmul by lia. rewrite Hadd by lia. f_equal. lia. }
  unfold createForNode in *.
  destruct (node_type node); cbn in Hk;
    (assert (Hcases : k = 1 \/ k = 2 \/ k = 3) by lia);
    destruct Hcases as [->|[->| ->]]; try lia;
    match goal with
    | |- context [delayUpTo ?cfg _] =>
        let b := eval vm_compute in (retryDelayMs cfg) in
        let f := eval vm_compute in (backoffMultiplier cfg) in
        assert (Hb : retryDelayMs cfg = b) by (vm_compute; reflexivity);
        assert (Hf : backoffMultiplier cfg = f) by (vm_compute; reflexivity);
        unfold delayUpTo, sleptFor, sleepAfter; rewrite Hb, ?Hf; clear Hb Hf
    end;
    cbn [seq map fold_left Nat.sub];
    try (exists 0%Z; split; [reflexivity|lia]);
    change (Z.of_nat 1 - 1)%Z with 0%Z; change (Z.of_nat 2 - 1)%Z with 1%Z;
    rewrite ?Hpow0, ?Hpow1.
  all: try (exists 1000%Z; split; [exact (Hone 1000%Z ltac:(lia))|lia]).
  all: try (exists 2000%Z; split; [exact (Hone 2000%Z ltac:(lia))|lia]).
  all: try (exists 6000%Z; split; [|lia];
            change (numOfQ 2000) with (numOfZ 2000);
            change (numOfQ 2) with (numOfZ 2);
            rewrite (Hone 2000%Z) by lia;
            rewrite (Hmul 2000%Z 2%Z) by lia;
            rewrite (Hadd 2000%Z (2000 * 2)%Z) by lia; reflexivity).
Qed.

(** X21.  The handler that [createForNode] builds for a node calls the
    operation at most three times, whatever the node and whatever the
    operation does, and where whole numbers of milliseconds are not rounded
    it sleeps at most six seconds in all; for a trigger node it calls the
    operation once and never sleeps. *)
Theorem createForNode_bounds (node : WorkflowNode) (operation : nat -> Outcome) :
  (exists k,
     1 <= k <= 3
     /\ snd (executeWithRetry (createForNode node) operation)
        = traceUpTo (createForNode node) k
     /\ (exactOnWholeNumbers ->
         exists ms,
           rr_totalDelayMs (fst (executeWithRetry (createForNode node) operation))
           = numOfZ ms
           /\ (0 <= ms <= 6000)%Z))
  /\ (node_type node = NT_trigger ->
      snd (executeWithRetry (createForNode node) operation) = [Call 1]
      /\ rr_totalDelayMs (fst (executeWithRetry (createForNode node) operation))
         = numOfZ 0).
Proof.
  assert (Hmax : (1 <= maxRetries (createForNode node) <= 3)%Z).
  { unfold createForNode. destruct (node_type node); vm_compute; split; discriminate. }
  destruct (executeWithRetry_stops (createForNode node) operation (proj1 Hmax))
    as (k & Hk & Htrace & _ & Hdelay & _).
  split.
  - exists k. split; [lia|]. split; [exact Htrace|]. rewrite Hdelay.
    intros Hexact. by apply createForNode_delay.
  - intros Htrigger. rewrite Htrace, Hdelay.
    assert (Hone : k = 1).
    { unfold createForNode in Hk. rewrite Htrigger in Hk. vm_compute in Hk. lia. }
    subst k. split; reflexivity.
Qed.

End RetryPolicies.

Lemma plainLanguage_exact : exactOnWholeNumbers (lang := plainLanguage).
Proof.
  split; [reflexivity|]. split; [reflexivity|]. split.
  - intros a b _ _ _. reflexivity.
  - intros a b _ _ _. unfold numAdd, numOfZ, numOfQ, plainLanguage, Qplus, inject_Z.
    cbn. f_equal. lia.
Qed.

(** X20 on the default policy with an operation that always times out, in a
    host without rounding: three calls, sleeps of one and two seconds,
    failure. *)
Lemma executeWithRetry_always_witness :
  snd (executeWithRetry (lang := plainLanguage) threeAttempts alwaysTimeout)
  = [Call 1; Sleep (sleepAfter threeAttempts 1);
     Call 2; Sleep (sleepAfter threeAttempts 2); Call 3]
  /\ rr_success (fst (executeWithRetry (lang := plainLanguage) threeAttempts alwaysTimeout))
     = false.
Proof.
  destruct (proj1 (executeWithRetry_always (lang := plainLanguage) threeAttempts
                     alwaysTimeout)
              ltac:(vm_compute; discriminate))
    as (k & Hk & Htrace & _ & _ & Hsuccess).
  split; [reflexivity|].
  destruct (rr_success (fst (executeWithRetry (lang := plainLanguage) threeAttempts
                               alwaysTimeout)));
    [|reflexivity].
  destruct (proj1 Hsuccess eq_refl) as (v & Hv). discriminate.
Defined.

(** X21 in a host without rounding, on a trigger node whose operation times
    out: one call, no sleep; and on an agent node: at most six seconds. *)
Lemma createForNode_bounds_witness :
  snd (executeWithRetry (lang := plainLanguage)
         (createForNode (mkNode "t" NT_trigger "T" emptyConfig)) alwaysTimeout)
  = [Call 1]
  /\ exists ms,
       rr_totalDelayMs
         (fst (executeWithRetry (lang := plainLanguage)
                 (createForNode (mkNode "a" NT_agent "A" emptyConfig)) alwaysTimeout))
       = numOfZ ms
       /\ (0 <= ms <= 6000)%Z.
Proof.
  split.
  - exact (proj1 (proj2 (createForNode_bounds (lang := plainLanguage)
                           (mkNode "t" NT_trigger "T" emptyConfig) alwaysTimeout)
                        eq_refl)).
  - destruct (proj1 (createForNode_bounds (lang := plainLanguage)
                       (mkNode "a" NT_agent "A" emptyConfig) alwaysTimeout))
      as (k & _ & _ & Hbound).
    exact (Hbound plainLanguage_exact).
Defined.

(** *** The retry loop of the agent executor *)

Lemma sleptMs_app (a b : list AgentRetryEvent) :
  sleptMs (a ++ b) = (sleptMs a + sleptMs b)%Z.
Proof.
  unfold sleptMs. induction a as [|[j|ms] a IH]; cbn [app fold_right];
    [reflexivity|exact IH|]. rewrite IH. lia.
Qed.

Lemma sleptMs_agentRetried (count : nat) :
  forall from,
    sleptMs (agentRetried from count)
    = ((2 ^ Z.of_nat (from + count) - 2 ^ Z.of_nat from) * 1000)%Z.
Proof.
  induction count as [|count IH]; intros from.
  - rewrite Nat.add_0_r. cbn. lia.
  - unfold agentRetried. cbn [seq flat_map]. fold (agentRetried (S from) count).
    cbn [app sleptMs fold_right]. fold (sleptMs (agentRetried (S from) count)).
    rewrite IH. replace (S from + count) with (from + S count) by lia.
    replace (Z.of_nat (S from)) with (Z.of_nat from + 1)%Z by lia.
    rewrite Z.pow_add_r by lia. lia.
Qed.

Lemma agentMessage_nonEmpty (result : AgentResult) :
  nonEmpty (Some (agentMessage result)) = Some (agentMessage result).
Proof.
  unfold agentMessage. destruct (ag_error result) as [m|]; cbn; [|reflexivity].
  destruct (String.eqb_spec m "") as [->|Hne]; cbn; [reflexivity|].
  by destruct (String.eqb_spec m "").
Qed.

(** A run of failed attempts before the last one allowed only moves the
    loop forward, with a sleep after each. *)
Lemma agentRetryLoop_skips (execute : nat -> AgentResult) (maxRetries : Z) (n : nat) :
  n = Z.to_nat maxRetries ->
  forall count from lastError trace,
    from + count <= n ->
    (forall j, from <= j < from + count -> ag_success (execute j) = false) ->
    exists lastError',
      agentRetryLoop execute maxRetries (n - from + 1) from lastError trace
      = agentRetryLoop execute maxRetries (n - (from + count) + 1) (from + count)
          lastError' (trace ++ agentRetried from count).
Proof.
  intros Hn. induction count as [|count IH]; intros from lastError trace Hle Hfail.
  - exists lastError. cbn. by rewrite Nat.add_0_r, app_nil_r.
  - destruct (IH (S from) (Some (agentMessage (execute from)))
                 ((trace ++ [AgentCall from])
                    ++ [AgentSleep (2 ^ Z.of_nat from * 1000)]))
      as (lastError' & Hrest); [lia|intros j Hj; apply Hfail; lia|].
    exists lastError'.
    replace (n - from + 1) with (S (n - S from + 1)) by lia.
    replace (from + S count) with (S from + count) by lia.
    assert (Htrace : trace ++ agentRetried from (S count)
                     = ((trace ++ [AgentCall from])
                          ++ [AgentSleep (2 ^ Z.of_nat from * 1000)])
                         ++ agentRetried (S from) count).
    { unfold agentRetried. cbn. by rewrite <- !app_assoc. }
    rewrite Htrace, <- Hrest. cbn [agentRetryLoop].
    rewrite (Hfail from) by lia.
    replace (Z.of_nat from <? maxRetries)%Z with true by (symmetry; lia).
    reflexivity.
Qed.

(** X22.  [AgentExecutor.executeWithRetry] runs the agent until an attempt
    succeeds or [maxRetries] attempts have failed, sleeping [2 ^ j] seconds
    after the failed attempt [j] unless it was the last one allowed.  When
    attempt [k] is the first to succeed its result is returned, after
    [2 ^ k - 2] seconds of sleep in all.  When all attempts fail the result
    is a failure whose message gives the number of attempts and the error of
    the last one, after [2 ^ maxRetries - 2] seconds of sleep.  With
    [maxRetries] below 1 the agent is not run. *)
Theorem agent_executeWithRetry_spec (execute : nat -> AgentResult) (maxRetries : Z) :
  (forall k,
     1 <= k <= Z.to_nat maxRetries ->
     (forall j, 1 <= j < k -> ag_success (execute j) = false) ->
     ag_success (execute k) = true ->
     AgentExecutor_executeWithRetry execute maxRetries
     = (execute k, agentRetried 1 (k - 1) ++ [AgentCall k])
     /\ sleptMs (snd (AgentExecutor_executeWithRetry execute maxRetries))
        = ((2 ^ Z.of_nat k - 2) * 1000)%Z)
  /\ ((1 <= maxRetries)%Z ->
      (forall j, 1 <= j <= Z.to_nat maxRetries -> ag_success (execute j) = false) ->
      AgentExecutor_executeWithRetry execute maxRetries
      = (agentFailure ("Agent execution failed after " +:+ stringOfZ maxRetries
                       +:+ " attempts: "
                       +:+ agentMessage (execute (Z.to_nat maxRetries))),
         agentRetried 1 (Z.to_nat maxRetries - 1) ++ [AgentCall (Z.to_nat maxRetries)])
      /\ sleptMs (snd (AgentExecutor_executeWithRetry execute maxRetries))
         = ((2 ^ maxRetries - 2) * 1000)%Z)
  /\ ((maxRetries < 1)%Z ->
      AgentExecutor_executeWithRetry execute maxRetries
      = (agentFailure ("Agent execution failed after " +:+ stringOfZ maxRetries
                       +:+ " attempts: Unknown error"), [])).
Proof.
  assert (Hslept : forall k, 1 <= k ->
            sleptMs (agentRetried 1 (k - 1) ++ [AgentCall k])
            = ((2 ^ Z.of_nat k - 2) * 1000)%Z).
  { intros k Hk. rewrite sleptMs_app, sleptMs_agentRetried. cbn [sleptMs fold_right].
    replace (1 + (k - 1)) with k by lia. change (2 ^ Z.of_nat 1)%Z with 2%Z. lia. }
  assert (Hreach : forall k,
            1 <= k <= Z.to_nat maxRetries ->
            (forall j, 1 <= j < k -> ag_success (execute j) = false) ->
            exists lastError,
              AgentExecutor_executeWithRetry execute maxRetries
              = agentRetryLoop execute maxRetries (S (Z.to_nat maxRetries - k)) k
                  lastError (agentRetried 1 (k - 1))).
  { intros k Hk Hfail.
    destruct (agentRetryLoop_skips execute maxRetries (Z.to_nat maxRetries) eq_refl
                (k - 1) 1 None []) as (lastError & Hskip);
      [lia|intros j Hj; apply Hfail; lia|].
    exists lastError. unfold AgentExecutor_executeWithRetry.
    replace (Z.to_nat maxRetries) with (Z.to_nat maxRetries - 1 + 1) at 1 by lia.
    rewrite Hskip. replace (1 + (k - 1)) with k by lia.
    by replace (Z.to_nat maxRetries - k + 1) with (S (Z.to_nat maxRetries - k)) by lia. }
  split; [|split].
  - intros k Hk Hfail Hok. destruct (Hreach k Hk Hfail) as (lastError & Hrun).
    rewrite Hrun. cbn [agentRetryLoop]. rewrite Hok. cbn [snd].
    split; [reflexivity|apply Hslept; lia].
  - intros Hmax Hfail.
    destruct (Hreach (Z.to_nat maxRetries)) as (lastError & Hrun);
      [lia|intros j Hj; apply Hfail; lia|].
    rewrite Hrun. rewrite Nat.sub_diag. cbn [agentRetryLoop].
    rewrite (Hfail (Z.to_nat maxRetries)) by lia.
    rewrite Z2Nat.id by lia. rewrite Z.ltb_irrefl.
    fold (agentMessage (execute (Z.to_nat maxRetries))).
    rewrite agentMessage_nonEmpty. cbn [snd]. split; [reflexivity|].
    rewrite Hslept by lia. by rewrite Z2Nat.id by lia.
  - intros Hnone. unfold AgentExecutor_executeWithRetry.
    by replace (Z.to_nat maxRetries) with 0 by lia.
Qed.

(** X22 on an agent that fails twice and then answers: three calls, two
    and four seconds of sleep. *)
Lemma agent_executeWithRetry_spec_witness :
  AgentExecutor_executeWithRetry failsTwice 3
  = (mkAgentResult true (JObj [("answer", JNum 42)]) None None,
     [AgentCall 1; AgentSleep 2000; AgentCall 2; AgentSleep 4000; AgentCall 3])
  /\ sleptMs (snd (AgentExecutor_executeWithRetry failsTwice 3)) = 6000%Z.
Proof.
  destruct (proj1 (agent_executeWithRetry_spec failsTwice 3) 3
              ltac:(vm_compute; lia)
              ltac:(intros j Hj; assert (j = 1 \/ j = 2) as [-> | ->] by lia; reflexivity)
              eq_refl) as [Hrun Hslept].
  split; [exact Hrun|exact Hslept].
Defined.

(** ** What a run leaves in the store when it completes *)

Section Completion.
Context {host : Host}.

(** A turn of the loop keeps the identifier of the execution; a turn after
    which the loop goes on keeps its status, and a turn that breaks leaves
    the status as it was with an empty stack, or sets it to failed or
    paused. *)
Lemma engineTurn_status (options : RequiredOptions) (w : Workflow) (triggerData : JValue)
    (st : EngineState) :
  match engineTurn options w triggerData st with
  | Continue st' =>
      executionId (es_context st') = executionId (es_context st)
      /\ status (es_context st') = status (es_context st)
  | Break st' =>
      executionId (es_context st') = executionId (es_context st)
      /\ ((status (es_context st') = status (es_context st) /\ es_stack st' = [])
          \/ status (es_context st') = failed
          \/ status (es_context st') = paused)
  | Raise _ st' => executionId (es_context st') = executionId (es_context st)
  end.
Proof.
  unfold engineTurn. destruct (es_stack st) as [|node rest] eqn:Hstack.
  { split; [reflexivity|]. left. by split. }
  destruct (bool_decide (node_id node ∈ es_visited st) && _); [reflexivity|].
  destruct (saveExecution _ (es_store st)) as [s1|m]; [|reflexivity].
  destruct (executeNode w _ node triggerData s1) as [[nodeResult vars] s2].
  destruct (negb (nr_success nodeResult)).
  { split; [reflexivity|]. right. by left. }
  destruct (bool_decide (node_type node = NT_human_approval)).
  { split; [reflexivity|]. right. by right. }
  destruct (bool_decide (node_type node = NT_loop) && _); [by split|].
  destruct (saveExecution _ s2) as [s3|m]; [by split|reflexivity].
Qed.

Lemma engineLoop_final (options : RequiredOptions) (w : Workflow) (triggerData : JValue) :
  forall fuel st final raised,
    engineLoop fuel options w triggerData st = Some (final, raised) ->
    status (es_context st) = running ->
    executionId (es_context final) = executionId (es_context st)
    /\ (raised = None ->
        (status (es_context final) = running /\ es_stack final = [])
        \/ status (es_context final) = failed
        \/ status (es_context final) = paused).
Proof.
  induction fuel as [|fuel IH]; intros st final raised Hrun Hrunning; [discriminate|].
  cbn [engineLoop] in Hrun. destruct (loopCondition st) eqn:Hcond.
  - pose proof (engineTurn_status options w triggerData st) as Hturn.
    destruct (engineTurn options w triggerData st) as [st'|st'|m st'].
    + destruct Hturn as [Hid Hstatus].
      destruct (IH st' final raised Hrun) as [Hid' Hend]; [congruence|].
      split; [congruence|exact Hend].
    + injection Hrun as <- <-. destruct Hturn as [Hid Hend].
      split; [exact Hid|]. intros _.
      destruct Hend as [[Hstatus Hstack]|Hend]; [left; split; congruence|by right].
    + injection Hrun as <- <-. split; [exact Hturn|discriminate].
  - injection Hrun as <- <-. split; [reflexivity|]. intros _. left.
    split; [exact Hrunning|].
    unfold loopCondition in Hcond. rewrite Hrunning in Hcond.
    rewrite bool_decide_eq_true_2, andb_true_r in Hcond by reflexivity.
    destruct (es_stack st); [reflexivity|discriminate].
Qed.

(** X23.  A run that [executeFromNode] reports as completed was stored as
    completed: the stack of nodes is empty, the result says success, and the
    store holds the execution with the status completed and the time of
    completion. *)
Theorem completion_is_persisted (options : RequiredOptions) (w : Workflow)
    (c : ExecutionContext) (startNode : WorkflowNode) (triggerData : JValue) (s : Store)
    (r : EngineResult) (st : EngineState) :
  status c = running ->
  executeFromNode options w c startNode triggerData s = (Ok r, st) ->
  er_status r = completed ->
  exists stored,
    getExecution (executionId c) (es_store st) = Some stored
    /\ status stored = completed
    /\ completedAt stored = Some (clock (es_store st))
    /\ es_stack st = []
    /\ er_success r = true.
Proof.
  intros Hrunning Hrun Hcompleted. unfold executeFromNode, executeFromNodeFuel in Hrun.
  destruct (engineLoop (turnBound options w) options w triggerData
              (initialState c startNode s)) as [[final raised]|] eqn:Hloop;
    [|discriminate Hrun].
  destruct (engineLoop_final options w triggerData _ _ _ _ Hloop Hrunning) as [Hid Hend].
  cbn [initialState es_context] in Hid.
  assert (Hcatch : forall m st0, catchBlock m st0 = (Ok r, st) -> False).
  { intros m st0 Hc. unfold catchBlock in Hc.
    destruct (saveExecution _ (es_store st0)); [|discriminate].
    injection Hc as <- _. discriminate. }
  destruct raised as [m|]; [destruct (Hcatch m final Hrun)|].
  unfold afterLoop in Hrun.
  destruct (Hend eq_refl) as [[Hstatus Hstack]|Hother].
  - rewrite Hstatus, Hstack in Hrun.
    rewrite bool_decide_eq_true_2 in Hrun by reflexivity. cbn [length Nat.eqb andb] in Hrun.
    unfold saveExecution in Hrun at 1.
    cbn [stepResults set_completedAt set_status] in Hrun.
    destruct (isCircular (stepResults (es_context final))).
    { destruct (Hcatch _ _ Hrun). }
    injection Hrun as <- <-. cbn [es_store es_stack]. eexists. split.
    + unfold getExecution. cbn. rewrite Hid. apply lookup_insert_eq.
    + cbn. repeat split.
  - assert (Hneither : status (es_context final) <> running) by (destruct Hother; congruence).
    rewrite bool_decide_eq_false_2 in Hrun by exact Hneither. cbn [andb] in Hrun.
    injection Hrun as <- <-. cbn in Hcompleted. destruct Hother; congruence.
Qed.

End Completion.

(** X23 on the chain [t -> a -> b]: the run completes and the store says
    so. *)
Lemma completion_is_persisted_witness :
  exists stored,
    getExecution "exec-7" (es_store (snd chainRun)) = Some stored
    /\ status stored = completed.
Proof.
  destruct (@completion_is_persisted obligingHost defaultOptions chainOfThree freshRun
              (mkNode "t" NT_trigger "T" emptyConfig) (JObj []) emptyStore
              (resultOr (fst chainRun)) (snd chainRun)
              eq_refl ltac:(vm_compute; reflexivity) ltac:(vm_compute; reflexivity))
    as (stored & Hget & Hstatus & _).
  exists stored. split; [exact Hget|exact Hstatus].
Defined.

(** ** Failures that are not written to the store *)

Section FailedNode.
Context {host : Host}.
Variables (options : RequiredOptions) (w : Workflow) (triggerData : JValue).

(** A turn after which the loop goes on popped a node and set no error. *)
Lemma engineTurn_goes_on (st st' : EngineState) :
  engineTurn options w triggerData st = Continue st' ->
  es_stack st <> [] /\ error (es_context st') = error (es_context st).
Proof.
  unfold engineTurn. destruct (es_stack st) as [|node rest]; [discriminate|].
  destruct (bool_decide (node_id node ∈ es_visited st) && _); [discriminate|].
  destruct (saveExecution _ (es_store st)) as [s1|m]; [|discriminate].
  destruct (executeNode w _ node triggerData s1) as [[nodeResult vars] s2].
  destruct (negb (nr_success nodeResult)); [discriminate|].
  destruct (bool_decide (node_type node = NT_human_approval)); [discriminate|].
  destruct (bool_decide (node_type node = NT_loop) && _).
  - intros [= <-]. by split.
  - destruct (saveExecution _ s2) as [s3|m]; [|discriminate].
    intros [= <-]. by split.
Qed.

(** The turns before the last keep the identifier, the status and the error
    of the run, and each of them uses up budget. *)
Lemma runTurns_continue (ids : list string) :
  (forall x, In x ids -> inheritedName x = false) ->
  (forall n, In n (nodes w) -> In (node_id n) ids) ->
  forall k st st',
    stackWithin ids st ->
    runTurns k options w triggerData st = Continue st' ->
    stackWithin ids st'
    /\ totalBudget (visitLimit options) ids st' + k
       <= totalBudget (visitLimit options) ids st
    /\ executionId (es_context st') = executionId (es_context st)
    /\ status (es_context st') = status (es_context st)
    /\ error (es_context st') = error (es_context st).
Proof.
  intros Hordinary Hnodes. induction k as [|k IH]; intros st st' Hstack Hrun.
  - injection Hrun as <-. repeat split; [exact Hstack|lia].
  - cbn [runTurns] in Hrun.
    pose proof (engineTurn_status options w triggerData st) as Hkept.
    destruct (engineTurn options w triggerData st) as [st1|st1|m st1] eqn:Hturn;
      [|discriminate..].
    destruct (engineTurn_continue options w triggerData ids st st1 Hordinary Hnodes
                Hstack Hturn) as [Hstack1 Hless].
    destruct (engineTurn_goes_on st st1 Hturn) as [_ Herror].
    destruct Hkept as [Hid Hstatus].
    destruct (IH st1 st' Hstack1 Hrun) as (Hstack' & Hbudget & Hid' & Hstatus' & Herror').
    split; [exact Hstack'|]. split; [lia|]. repeat split; congruence.
Qed.

(** The loop takes those turns. *)
Lemma engineLoop_after_turns (fuel : nat) :
  forall k st st',
    status (es_context st) = running ->
    runTurns k options w triggerData st = Continue st' ->
    engineLoop (k + fuel) options w triggerData st
    = engineLoop fuel options w triggerData st'.
Proof.
  induction k as [|k IH]; intros st st' Hrunning Hrun.
  - by injection Hrun as <-.
  - cbn [runTurns] in Hrun. cbn [Nat.add engineLoop].
    pose proof (engineTurn_status options w triggerData st) as Hkept.
    destruct (engineTurn options w triggerData st) as [st1|st1|m st1] eqn:Hturn;
      [|discriminate..].
    destruct (engineTurn_goes_on st st1 Hturn) as [Hpopped _].
    destruct Hkept as [_ Hstatus].
    replace (loopCondition st) with true.
    + apply IH; [congruence|exact Hrun].
    + unfold loopCondition. rewrite (bool_decide_eq_true_2 _ Hrunning).
      by destruct (es_stack st).
Qed.

(** A node that passes the visit check had budget left. *)
Lemma passing_check_has_budget (ids : list string) (st : EngineState)
    (node : WorkflowNode) (rest : list WorkflowNode) :
  (forall x, In x ids -> inheritedName x = false) ->
  stackWithin ids st ->
  es_stack st = node :: rest ->
  bool_decide (node_id node ∈ es_visited st)
  && reaches (readVisitCount (es_context st) (node_id node)) (opt_maxIterations options)
  = false ->
  1 <= totalBudget (visitLimit options) ids st.
Proof.
  intros Hordinary Hwithin Hstack Hcheck.
  assert (Hin : In (node_id node) ids) by (apply Hwithin; rewrite Hstack; by left).
  rewrite (readVisitCount_ordinary _ _ (Hordinary _ Hin)) in Hcheck. cbn [reaches] in Hcheck.
  assert (Hlower :
    list_sum (map (budget (visitLimit options) ({[node_id node]} ∪ es_visited st)
                     (<[node_id node := visitCountOf (es_context st) (node_id node) + 1]>
                        (nodeVisitCounts (es_context st)))) ids)
    < totalBudget (visitLimit options) ids st).
  { apply visit_lowers_budget; [exact Hin|unfold visitLimit; lia|].
    intros Hvisited. rewrite (bool_decide_eq_true_2 _ Hvisited) in Hcheck.
    cbn [andb] in Hcheck. apply Z.leb_gt in Hcheck.
    unfold visitCountOf in Hcheck. unfold visitLimit. lia. }
  lia.
Qed.

(** X1.  In a workflow none of whose node identifiers is a name that objects
    inherit, let a run be entered with status running and no error, and let
    the executor of a node, at whatever turn of the loop the node comes up,
    report a failure and leave the stored execution as it found it.  Then
    [executeFromNode] returns status failed with the error of the node, and
    writes nothing more: the stored execution still says running, with the
    node marked running and no error. *)
Theorem node_failure_is_not_persisted (c : ExecutionContext) (startNode : WorkflowNode)
    (s : Store) (k : nat) (st : EngineState) (node : WorkflowNode)
    (rest : list WorkflowNode) (s1 s2 : Store) (r : NodeResult)
    (vars : gmap string JValue) :
  status c = running ->
  error c = None ->
  (forall n, In n (startNode :: nodes w) -> inheritedName (node_id n) = false) ->
  runTurns k options w triggerData (initialState c startNode s) = Continue st ->
  es_stack st = node :: rest ->
  bool_decide (node_id node ∈ es_visited st)
  && reaches (readVisitCount (es_context st) (node_id node)) (opt_maxIterations options)
  = false ->
  saveExecution (enterNode (es_context st) (node_id node)) (es_store st) = Ok s1 ->
  executeNode w (enterNode (es_context st) (node_id node)) node triggerData s1
  = (r, vars, s2) ->
  nr_success r = false ->
  getExecution (executionId c) s2 = getExecution (executionId c) s1 ->
  exists final stored,
    executeFromNode options w c startNode triggerData s
    = (Ok (mkEngineResult false failed (nr_error r) (stepResults (es_context st))), final)
    /\ es_store final = s2
    /\ getExecution (executionId c) s2 = Some stored
    /\ status stored = running
    /\ nodeStatuses stored !! node_id node = Some NS_running
    /\ error stored = None.
Proof.
  intros Hrunning Hclean Hordinary Hrun Hstack Hcheck Hsave Hexec Hfail Hkept.
  set (ids := node_id startNode :: map node_id (nodes w)).
  assert (Hids : forall x, In x ids -> inheritedName x = false).
  { intros x Hx. change (In x (map node_id (startNode :: nodes w))) in Hx.
    apply in_map_iff in Hx as (n & <- & Hn). by apply Hordinary. }
  assert (Hnodes : forall n, In n (nodes w) -> In (node_id n) ids).
  { intros n Hn. right. by apply in_map. }
  destruct (runTurns_continue ids Hids Hnodes k (initialState c startNode s) st)
    as (Hwithin & Hbudget & Hid & Hstatus & Herror);
    [intros n [<-|[]]; by left|exact Hrun|].
  cbn [initialState es_context] in Hid, Hstatus, Herror.
  pose proof (passing_check_has_budget ids st node rest Hids Hwithin Hstack Hcheck)
    as Hleft.
  rewrite initial_budget in Hbudget.
  assert (Hfuel : exists fuel, turnBound options w = k + S fuel).
  { exists (turnBound options w - k - 1).
    unfold turnBound. fold (visitLimit options).
    replace (length ids) with (S (length (nodes w))) in Hbudget
      by (unfold ids; cbn [length]; by rewrite length_map).
    lia. }
  destruct Hfuel as (fuel & Hfuel).
  assert (Hturn : engineTurn options w triggerData st
                  = Break (mkEngine
                             (set_nodeStatuses
                                (<[node_id node := NS_failed]>
                                   (nodeStatuses (enterNode (es_context st) (node_id node))))
                                (set_error (nr_error r)
                                   (set_status failed
                                      (set_variables vars
                                         (enterNode (es_context st) (node_id node))))))
                             rest ({[node_id node]} ∪ es_visited st) (Some node) s2)).
  { unfold engineTurn. rewrite Hstack, Hcheck.
    fold (enterNode (es_context st) (node_id node)). rewrite Hsave, Hexec, Hfail.
    reflexivity. }
  unfold executeFromNode, executeFromNodeFuel. rewrite Hfuel.
  rewrite (engineLoop_after_turns (S fuel) k (initialState c startNode s) st Hrunning Hrun).
  cbn [engineLoop]. unfold loopCondition. rewrite Hstack, Hstatus, Hrunning.
  rewrite bool_decide_eq_true_2 by reflexivity. cbn [length Nat.eqb negb andb].
  rewrite Hturn. unfold afterLoop.
  cbn [es_context es_stack status set_nodeStatuses set_error set_status].
  rewrite bool_decide_eq_false_2 by discriminate. cbn [andb].
  eexists _, _. split; [reflexivity|]. split; [reflexivity|].
  rewrite Hkept. unfold saveExecution in Hsave.
  destruct (isCircular _); [discriminate|]. injection Hsave as <-.
  unfold getExecution. cbn. rewrite Hid, lookup_insert_eq.
  split; [reflexivity|]. cbn. rewrite Hstatus, Hrunning, Herror, Hclean, lookup_insert_eq.
  auto.
Qed.

End FailedNode.

(** X1 on a trigger followed by a condition node without an expression: the
    trigger runs, the condition fails at the second turn, the run is
    reported failed with the error of the condition, and the store says
    running with no error. *)
Lemma node_failure_is_not_persisted_witness :
  (er_status <$> resultOrNone (fst thenCheckRun)) = Some failed
  /\ (er_error <$> resultOrNone (fst thenCheckRun))
     = Some (Some "Invalid condition configuration: Expression is required")
  /\ (status <$> getExecution "exec-7" (es_store (snd thenCheckRun))) = Some running
  /\ (error <$> getExecution "exec-7" (es_store (snd thenCheckRun))) = Some None.
Proof.
  destruct (@node_failure_is_not_persisted obligingHost defaultOptions thenCheck (JObj [])
              freshRun (mkNode "t" NT_trigger "T" emptyConfig) emptyStore 1 afterTrigger
              noExpression [] enteredCheck enteredCheck
              (mkNodeResult false (JObj [])
                 (Some "Invalid condition configuration: Expression is required"))
              ∅ eq_refl eq_refl)
    as (final & stored & Hrun & Hstore & Hget & Hstatus & _ & Herror).
  - intros n [<-|[<-|[<-|[]]]]; reflexivity.
  - vm_compute. reflexivity.
  - vm_compute. reflexivity.
  - vm_compute. reflexivity.
  - vm_compute. reflexivity.
  - vm_compute. reflexivity.
  - reflexivity.
  - reflexivity.
  - fold thenCheckRun in Hrun. rewrite Hrun. cbn [fst snd]. rewrite Hstore.
    change (executionId freshRun) with "exec-7" in Hget. rewrite Hget.
    cbn. rewrite Hstatus, Herror. repeat split; reflexivity.
Defined.

(** ** The trigger executor *)

Lemma objGet_objSpread_other {A : Type} (k : string) (o extra : list (string * A)) :
  k ∉ map fst extra -> objGet k (objSpread o extra) = objGet k o.
Proof.
  unfold objSpread. revert o. induction extra as [|[k' v'] extra IH]; intros o Hk;
    [reflexivity|].
  cbn in Hk. apply not_elem_of_cons in Hk as [Hne Hk]. cbn [fold_left fst snd].
  rewrite (IH _ Hk). apply objGet_objSet_ne. congruence.
Qed.

Lemma objGet_objSpread_three {A : Type} (o : list (string * A)) (k1 k2 k3 : string)
    (v1 v2 v3 : A) :
  k1 <> k2 -> k1 <> k3 -> k2 <> k3 ->
  objGet k1 (objSpread o [(k1, v1); (k2, v2); (k3, v3)]) = Some v1
  /\ objGet k2 (objSpread o [(k1, v1); (k2, v2); (k3, v3)]) = Some v2.
Proof.
  intros H12 H13 H23. unfold objSpread. cbn [fold_left fst snd]. split.
  - rewrite objGet_objSet_ne by congruence. rewrite objGet_objSet_ne by congruence.
    apply objGet_objSet_eq.
  - rewrite objGet_objSet_ne by congruence. apply objGet_objSet_eq.
Qed.

Lemma handled_fields (triggerData : list (string * JValue)) (name key : string)
    (value : JValue) (now : Z) :
  key ∈ triggerKeys -> key <> "triggerType" -> key <> "timestamp" ->
  let fields := objSpread triggerData
                  [("triggerType", JStr name); ("timestamp", JNum now); (key, value)] in
  objGet "triggerType" fields = Some (JStr name)
  /\ objGet "timestamp" fields = Some (JNum now)
  /\ forall k, k ∉ triggerKeys -> objGet k fields = objGet k triggerData.
Proof.
  intros Hkey Hne1 Hne2 fields.
  destruct (objGet_objSpread_three triggerData "triggerType" "timestamp" key
              (JStr name) (JNum now) value) as [Htype Htime]; [discriminate|congruence..|].
  split; [exact Htype|]. split; [exact Htime|].
  intros k Hk. apply objGet_objSpread_other. cbn. intros Hin. apply Hk.
  apply elem_of_cons in Hin as [->|Hin]; [left|].
  apply elem_of_cons in Hin as [->|Hin]; [right; left|].
  apply list_elem_of_singleton in Hin as ->. exact Hkey.
Qed.

(** X24.  [TriggerExecutor.execute] succeeds exactly when the trigger type
    is [webhook], [manual] or [schedule], whatever [validateConfig] says of
    the configuration: a webhook trigger without a path is rejected by the
    validation and executed with success, and a trigger type the executor
    does not know passes the validation and fails in the execution.  A
    successful result carries the trigger type and the timestamp, and every
    property of the payload under another name than those the trigger
    writes. *)
Theorem TriggerExecutor_execute_spec (config : TriggerNodeConfig)
    (triggerData : list (string * JValue)) (now : Z) :
  (tr_success (TriggerExecutor_execute config triggerData now) = true
   <-> triggerType config = Some "webhook" \/ triggerType config = Some "manual"
       \/ triggerType config = Some "schedule")
  /\ (tr_success (TriggerExecutor_execute config triggerData now) = true ->
      exists fields,
        tr_data (TriggerExecutor_execute config triggerData now) = JObj fields
        /\ objGet "triggerType" fields = (JStr <$> triggerType config)
        /\ objGet "timestamp" fields = Some (JNum now)
        /\ forall k, k ∉ triggerKeys -> objGet k fields = objGet k triggerData)
  /\ (exists rejected,
        isValid (TriggerExecutor_validateConfig rejected) = false
        /\ tr_success (TriggerExecutor_execute rejected triggerData now) = true)
  /\ (exists accepted,
        isValid (TriggerExecutor_validateConfig accepted) = true
        /\ tr_success (TriggerExecutor_execute accepted triggerData now) = false).
Proof.
  split; [|split; [|split]].
  - unfold TriggerExecutor_execute. destruct (triggerType config) as [t|].
    + destruct (String.eqb_spec t "webhook") as [->|H1];
        [cbn; split; [intros _; by left|reflexivity]|].
      destruct (String.eqb_spec t "manual") as [->|H2];
        [cbn; split; [intros _; right; by left|reflexivity]|].
      destruct (String.eqb_spec t "schedule") as [->|H3];
        [cbn; split; [intros _; right; by right|reflexivity]|].
      cbn. split; [discriminate|]. intros [H|[H|H]]; congruence.
    + cbn. split; [discriminate|]. intros [H|[H|H]]; discriminate.
  - unfold TriggerExecutor_execute. destruct (triggerType config) as [t|];
      [|discriminate].
    destruct (String.eqb_spec t "webhook") as [->|H1].
    { intros _. eexists. split; [reflexivity|]. apply handled_fields;
        [right; right; left|discriminate..]. }
    destruct (String.eqb_spec t "manual") as [->|H2].
    { intros _. eexists. split; [reflexivity|]. apply handled_fields;
        [right; right; right; left|discriminate..]. }
    destruct (String.eqb_spec t "schedule") as [->|H3]; [|discriminate].
    intros _. eexists. split; [reflexivity|]. apply handled_fields;
      [right; right; right; right; left|discriminate..].
  - exists (mkTriggerConfig (Some "webhook") None None). split; reflexivity.
  - exists (mkTriggerConfig (Some "cron") None None). split; reflexivity.
Qed.

(** X24 on a manual trigger with a payload that names a trigger type of its
    own: the executor's value wins, the order number is kept. *)
Lemma TriggerExecutor_execute_spec_witness :
  exists fields,
    tr_data (TriggerExecutor_execute (mkTriggerConfig (Some "manual") None None)
               [("order", JNum 7); ("triggerType", JStr "forged")] 100)
    = JObj fields
    /\ objGet "triggerType" fields = Some (JStr "manual")
    /\ objGet "order" fields = Some (JNum 7).
Proof.
  destruct (proj1 (proj2 (TriggerExecutor_execute_spec
                            (mkTriggerConfig (Some "manual") None None)
                            [("order", JNum 7); ("triggerType", JStr "forged")] 100))
              eq_refl) as (fields & Hdata & Htype & _ & Hkept).
  exists fields. split; [exact Hdata|]. split; [exact Htype|].
  rewrite (Hkept "order"); [reflexivity|].
  unfold triggerKeys. intros Hin.
  repeat (apply elem_of_cons in Hin as [Heq|Hin]; [discriminate|]). inversion Hin.
Defined.

(** ** The number of agents of a spawn node *)

Lemma SpawnExecutor_validateConfig_maxAgents (config : SpawnAgentNodeConfig) :
  isValid (SpawnExecutor_validateConfig config) = true ->
  exists m, maxAgents config = Some m /\ (1 <= m <= 10)%Z.
Proof.
  unfold SpawnExecutor_validateConfig. cbn [isValid].
  destruct (nonEmpty (agentPrompt config)); [|discriminate]. cbn [app].
  destruct (maxAgents config) as [m|]; [|discriminate].
  destruct ((m =? 0)%Z || (m <? 1)%Z) eqn:Hlow; [discriminate|]. cbn [app].
  destruct (10 <? m)%Z eqn:Hhigh; [discriminate|]. intros _.
  exists m. split; [reflexivity|]. apply orb_false_iff in Hlow as [H0 H1]. lia.
Qed.

(** X25.  For a configuration that passes the validation,
    [determineAgentCount] answers a number from 0 to [maxAgents], which is
    10 at most: a positive [agentCount] in the variables gives the smaller of
    it and [maxAgents]; the answer is 0 only when the variables hold an
    empty list of items. *)
Theorem determineAgentCount_bounds (config : SpawnAgentNodeConfig) (c : ExecutionContext)
    (m : Z) :
  isValid (SpawnExecutor_validateConfig config) = true ->
  maxAgents config = Some m ->
  (0 <= determineAgentCount m c <= m)%Z
  /\ (m <= 10)%Z
  /\ (forall n, variableOf c "agentCount" = JNum n -> (0 < n)%Z ->
        determineAgentCount m c = Z.min n m)
  /\ (determineAgentCount m c = 0%Z ->
      jor (variableOf c "items") (variableOf c "data") = JArr []).
Proof.
  intros Hvalid Hm.
  destruct (SpawnExecutor_validateConfig_maxAgents config Hvalid) as (m' & Hm' & Hrange).
  rewrite Hm in Hm'. injection Hm' as <-.
  unfold determineAgentCount.
  set (dynamicCount := jor (variableOf c "agentCount") (variableOf c "spawnCount")).
  set (itemsToProcess := jor (variableOf c "items") (variableOf c "data")).
  assert (Hrest :
    let otherwise := match itemsToProcess with
                     | JArr items => Z.min (Z.of_nat (length items)) m
                     | _ => Z.min 3 m
                     end in
    (0 <= otherwise <= m)%Z /\ (otherwise = 0%Z -> itemsToProcess = JArr [])).
  { destruct itemsToProcess as [| | | | |items| |]; cbn; try (split; lia).
    split; [lia|]. intros Hzero. destruct items; [reflexivity|]. cbn [length] in Hzero. lia. }
  cbv zeta in Hrest. destruct Hrest as [Hbounds Hzero].
  split; [|split; [lia|split]].
  - destruct dynamicCount as [| | |n| | | |]; try exact Hbounds.
    destruct (0 <? n)%Z eqn:Hn; [lia|exact Hbounds].
  - intros n Hcount Hpos. unfold dynamicCount, jor. rewrite Hcount. cbn [truthy].
    replace (n =? 0)%Z with false by (symmetry; lia). cbn [negb].
    by replace (0 <? n)%Z with true by (symmetry; lia).
  - destruct dynamicCount as [| | |n| | | |]; try exact Hzero.
    destruct (0 <? n)%Z eqn:Hn; [lia|exact Hzero].
Qed.

(** X25 on a node of at most three agents: seven are asked for and three
    are started; with an empty list of items none is. *)
Lemma determineAgentCount_bounds_witness :
  determineAgentCount 3 (withVariables {[ "agentCount" := JNum 7 ]}) = 3%Z
  /\ determineAgentCount 3 (withVariables {[ "items" := JArr [] ]}) = 0%Z.
Proof.
  destruct (determineAgentCount_bounds spawnThree
              (withVariables {[ "agentCount" := JNum 7 ]}) 3 eq_refl eq_refl)
    as (_ & _ & Hcount & _).
  split; [|reflexivity]. by rewrite (Hcount 7%Z eq_refl ltac:(lia)).
Defined.

(** ** How often a loop node runs *)

Section LoopRuns.
Context {host : Host}.




End LoopRuns.


(** ** The check of guard expressions *)

Lemma prefix_nil (s : string) : String.prefix "" s = true.
Proof. by destruct s. Qed.

Lemma append_cons (c : ascii) (s t : string) : String c s +:+ t = String c (s +:+ t).
Proof. reflexivity. Qed.

Lemma append_nil (t : string) : "" +:+ t = t.
Proof. reflexivity. Qed.

Lemma prefix_append (p s t : string) :
  String.prefix p s = true -> String.prefix p (s +:+ t) = true.
Proof.
  revert s. induction p as [|c p IH]; intros s Hp; [apply prefix_nil|].
  destruct s as [|d s]; [discriminate|]. rewrite append_cons.
  cbn [String.prefix] in *.
  destruct (Ascii.ascii_dec c d); [by apply IH|discriminate].
Qed.

Lemma substring_all (s : string) : String.substring 0 (String.length s) s = s.
Proof. induction s as [|c s IH]; cbn; [reflexivity|by rewrite IH]. Qed.

Lemma stripPrefix_spec (p s r : string) :
  stripPrefix p s = Some r <-> s = p +:+ r.
Proof.
  unfold stripPrefix. revert s. induction p as [|c p IH]; intros s.
  - rewrite prefix_nil, append_nil. cbn [String.length].
    rewrite Nat.sub_0_r, substring_all. split; [by intros [= ->]|by intros ->].
  - rewrite append_cons.
    destruct s as [|d s]; [cbn; split; discriminate|]. cbn [String.prefix].
    destruct (Ascii.ascii_dec c d) as [->|Hne].
    + cbn [String.length Nat.sub String.substring].
      specialize (IH s). destruct (String.prefix p s).
      * rewrite IH. split; [by intros ->|by intros [= ->]].
      * split; [discriminate|]. intros [= Heq]. by apply IH in Heq.
    + split; [discriminate|]. intros [= Heq _]. congruence.
Qed.

Lemma skipSpaces_append (r t : string) :
  skipSpaces r <> "" -> skipSpaces (r +:+ t) = skipSpaces r +:+ t.
Proof.
  induction r as [|c r IH]; [contradiction|]. rewrite append_cons.
  cbn [skipSpaces]. destruct (isSpace c); [exact IH|by rewrite append_cons].
Qed.

Lemma matchesHere_append (p : UnsafePattern) (s t : string) :
  matchesHere p s = true -> matchesHere p (s +:+ t) = true.
Proof.
  destruct p as [l|l|l]; cbn.
  - apply prefix_append.
  - destruct (stripPrefix l s) as [r|] eqn:Hr; [|discriminate]. intros Hopen.
    apply stripPrefix_spec in Hr as ->. rewrite append_assoc.
    rewrite (proj2 (stripPrefix_spec l (l +:+ (r +:+ t)) (r +:+ t)) eq_refl).
    rewrite skipSpaces_append; [by apply prefix_append|].
    destruct (skipSpaces r); [discriminate|discriminate].
  - destruct (stripPrefix l s) as [r|] eqn:Hr; [|discriminate].
    destruct r as [|c r]; [discriminate|]. intros Hspace.
    apply stripPrefix_spec in Hr as ->. rewrite append_assoc.
    by rewrite (proj2 (stripPrefix_spec l (l +:+ (String c r +:+ t)) (String c r +:+ t))
                  eq_refl).
Qed.

Lemma patternTest_append (p : UnsafePattern) (s t : string) :
  patternTest p s = true -> patternTest p (s +:+ t) = true.
Proof.
  induction s as [|c s IH]; cbn [patternTest]; intros Hs.
  - rewrite orb_false_r in Hs.
    pose proof (matchesHere_append p "" t Hs) as Ht. rewrite append_nil in *.
    destruct t; cbn [patternTest]; by rewrite Ht.
  - apply orb_true_iff in Hs as [Hs|Hs].
    + pose proof (matchesHere_append p (String c s) t Hs) as Ht.
      rewrite append_cons in *. cbn [patternTest]. by rewrite Ht.
    + rewrite append_cons. cbn [patternTest]. rewrite (IH Hs). apply orb_true_r.
Qed.

Lemma patternTest_prepend (p : UnsafePattern) (pre s : string) :
  patternTest p s = true -> patternTest p (pre +:+ s) = true.
Proof.
  intros Hs. induction pre as [|c pre IH]; [exact Hs|].
  rewrite append_cons. cbn [patternTest]. rewrite IH. apply orb_true_r.
Qed.

Lemma containsUnsafeCode_within (pre e post : string) :
  containsUnsafeCode e = true -> containsUnsafeCode (pre +:+ e +:+ post) = true.
Proof.
  unfold containsUnsafeCode. rewrite !existsb_exists.
  intros (p & Hp & Hmatch). exists p. split; [exact Hp|].
  by apply patternTest_prepend, patternTest_append.
Qed.

Section UnsafeFragments.
Context {host : Host}.

(** X27.  The check of [safeEval] reads the whole text: an expression that
    holds a fragment the check refuses is refused, whatever stands before
    and after the fragment, and the host evaluator is not called on it.
    This holds for each of the fourteen patterns, among them [process.],
    [constructor], [eval(] and [require (]. *)
Theorem unsafe_fragment_is_refused_anywhere (pre e post : string)
    (context : list (string * HostValue)) :
  containsUnsafeCode e = true ->
  containsUnsafeCode (pre +:+ e +:+ post) = true
  /\ safeEval (pre +:+ e +:+ post) context = Throw "Expression contains unsafe code".
Proof.
  intros He. pose proof (containsUnsafeCode_within pre e post He) as Hall.
  split; [exact Hall|]. unfold safeEval. by rewrite Hall.
Qed.

End UnsafeFragments.

(** X27 on a guard that reads the environment in the middle of an
    expression, in a host that would have answered. *)
Lemma unsafe_fragment_is_refused_anywhere_witness :
  @safeEval leakyHost "amount > 0 && process.env.SECRET.length > 0" []
  = Throw "Expression contains unsafe code"
  /\ Forall (fun fragment => containsUnsafeCode fragment = true)
       [ "require ("; "import x"; "eval("; "Function("; "setTimeout("; "setInterval(";
         "process."; "global."; "window."; "document."; "console."; "__proto__";
         "constructor"; "prototype" ].
Proof.
  split.
  - apply (proj2 (@unsafe_fragment_is_refused_anywhere leakyHost "amount > 0 && "
                    "process." "env.SECRET.length > 0" [] eq_refl)).
  - repeat constructor.
Defined.

(** ** The deadline of an approval *)




(** ** Ties in the majority vote *)

Lemma mapSet_keys_seen {V : Type} (k : option string) (v : V)
    (m : list (option string * V)) :
  map fst (mapSet k v m)
  = if decide (k ∈ map fst m) then map fst m else map fst m ++ [k].
Proof.
  rewrite mapSet_keys. destruct (mapGet k m) as [n|] eqn:Hget.
  - rewrite decide_True; [reflexivity|]. apply list_elem_of_In.
    apply mapGet_In in Hget. apply in_map_iff. by exists (k, n).
  - rewrite decide_False; [reflexivity|]. intros Hin. apply list_elem_of_In in Hin.
    by apply (mapGet_None_keys k m Hget).
Qed.

Lemma countVotes_keys_from (rest : list JValue) (table : list (option string * nat)) :
  map fst
    (fold_left
       (fun resultCounts result =>
          let key := JSON_stringify result in
          mapSet key (match mapGet key resultCounts with
                      | Some n => n
                      | None => 0
                      end + 1) resultCounts)
       rest table)
  = fold_left
      (fun seen result =>
         let key := JSON_stringify result in
         if decide (key ∈ seen) then seen else seen ++ [key])
      rest (map fst table).
Proof.
  revert table. induction rest as [|r rest IH]; intros table; [reflexivity|].
  cbn [fold_left]. rewrite IH. cbn zeta. by rewrite mapSet_keys_seen.
Qed.

Lemma countVotes_keys (results : list JValue) :
  map fst (countVotes results) = firstKeys results.
Proof. apply (countVotes_keys_from results []). Qed.

Lemma firstKeys_snoc (done : list JValue) (r : JValue) :
  firstKeys (done ++ [r])
  = if decide (JSON_stringify r ∈ firstKeys done) then firstKeys done
    else firstKeys done ++ [JSON_stringify r].
Proof. unfold firstKeys. by rewrite fold_left_app. Qed.

Lemma firstKeys_all (results : list JValue) (x : JValue) :
  In x results -> JSON_stringify x ∈ firstKeys results.
Proof.
  induction results as [|r done IH] using rev_ind; [intros []|].
  intros Hin. apply in_app_or in Hin. rewrite firstKeys_snoc.
  destruct (decide (JSON_stringify r ∈ firstKeys done)) as [Hseen|Hnew].
  - destruct Hin as [Hin|[<-|[]]]; [by apply IH|exact Hseen].
  - apply elem_of_app. destruct Hin as [Hin|[<-|[]]]; [left; by apply IH|].
    right. by apply list_elem_of_singleton.
Qed.

(** A text of the table stands after the texts of the results that come
    before its first occurrence. *)
Lemma firstKeys_split (results : list JValue) :
  forall pre kw post,
    firstKeys results = pre ++ kw :: post ->
    exists before r after,
      results = before ++ r :: after
      /\ JSON_stringify r = kw
      /\ forall x, In x before -> JSON_stringify x ∈ pre.
Proof.
  induction results as [|r done IH] using rev_ind; intros pre kw post Hkeys.
  - by destruct pre.
  - rewrite firstKeys_snoc in Hkeys.
    destruct (decide (JSON_stringify r ∈ firstKeys done)) as [Hseen|Hnew].
    + destruct (IH pre kw post Hkeys) as (before & r0 & after & -> & Hkey & Hbefore).
      exists before, r0, (after ++ [r]). rewrite <- app_assoc. by repeat split.
    + induction post as [|z post' _] using rev_ind.
      * apply app_inj_tail in Hkeys as [Hpre Hkw].
        exists done, r, []. repeat split; [exact Hkw|].
        intros x Hx. rewrite <- Hpre. by apply firstKeys_all.
      * change (pre ++ kw :: post' ++ [z]) with (pre ++ (kw :: post') ++ [z]) in Hkeys.
        rewrite app_assoc in Hkeys. apply app_inj_tail in Hkeys as [Hkeys _].
        destruct (IH pre kw post' Hkeys) as (before & r0 & after & -> & Hkey & Hbefore).
        exists before, r0, (after ++ [r]). rewrite <- app_assoc. by repeat split.
Qed.

(** The second loop stops at the first entry with the largest count. *)
Lemma pickMajority_first (results : list JValue) (entries : list (option string * nat)) :
  forall best bestCount,
    (forall key c, In (key, c) entries -> bestCount < c ->
       exists v, parseKey results key = Ok v) ->
    (pickMajority results entries best bestCount = Ok (best, bestCount)
     /\ forall key c, In (key, c) entries -> c <= bestCount)
    \/ exists pre kw cw post v,
         entries = pre ++ (kw, cw) :: post
         /\ bestCount < cw
         /\ (forall key c, In (key, c) pre -> c < cw)
         /\ (forall key c, In (key, c) post -> c <= cw)
         /\ parseKey results kw = Ok v
         /\ pickMajority results entries best bestCount = Ok (v, cw).
Proof.
  induction entries as [|[key c] entries IH]; intros best bestCount Hparse.
  - left. split; [reflexivity|]. intros key c [].
  - cbn [pickMajority]. destruct (bestCount <? c) eqn:Hlt.
    + apply Nat.ltb_lt in Hlt.
      destruct (Hparse key c (or_introl eq_refl) Hlt) as (v & Hv). rewrite Hv.
      right.
      destruct (IH v c) as [[Hpick Hall]|(pre & kw & cw & post & v' & -> & Hcw & Hpre
                                          & Hpost & Hv' & Hpick)].
      { intros key' c' Hin Hc'. apply (Hparse key' c'); [by right|lia]. }
      * exists [], key, c, entries, v. by repeat split.
      * exists ((key, c) :: pre), kw, cw, post, v'.
        repeat split; [lia| |exact Hpost|exact Hv'|exact Hpick].
        intros key' c' [[= <- <-]|Hin]; [exact Hcw|by apply (Hpre key')].
    + apply Nat.ltb_ge in Hlt.
      destruct (IH best bestCount) as [[Hpick Hall]|(pre & kw & cw & post & v' & ->
                                                     & Hcw & Hpre & Hpost & Hv' & Hpick)].
      { intros key' c' Hin Hc'. apply (Hparse key' c'); [by right|exact Hc']. }
      * left. split; [exact Hpick|].
        intros key' c' [[= <- <-]|Hin]; [exact Hlt|by apply (Hall key')].
      * right. exists ((key, c) :: pre), kw, cw, post, v'.
        repeat split; [exact Hcw| |exact Hpost|exact Hv'|exact Hpick].
        intros key' c' [[= <- <-]|Hin]; [lia|by apply (Hpre key')].
Qed.

Lemma find_first_key (before after : list JValue) (r : JValue) :
  (forall x, In x before -> JSON_stringify x <> JSON_stringify r) ->
  List.find (fun x => bool_decide (JSON_stringify x = JSON_stringify r))
            (before ++ r :: after)
  = Some r.
Proof.
  intros Hbefore. induction before as [|x before IH]; cbn [app List.find].
  - by rewrite bool_decide_eq_true_2.
  - rewrite bool_decide_eq_false_2 by (apply Hbefore; by left).
    apply IH. intros y Hy. apply Hbefore. by right.
Qed.

(** X29.  On a tie the majority vote goes to the result that came first:
    the winner of [aggregateByMajority] is the first result of the list that
    has the largest number of votes, so that every result before it has
    fewer votes and no result has more. *)
Theorem majority_tie_goes_to_first (results : list JValue) :
  results <> [] ->
  (forall r, In r results -> JSON_stringify r <> None) ->
  exists i winner,
    results !! i = Some winner
    /\ (forall r, In r results -> votesFor results r <= votesFor results winner)
    /\ (forall j r, j < i -> results !! j = Some r ->
          votesFor results r < votesFor results winner)
    /\ aggregateByMajority results
       = Ok (mkMajorityResult (jsonRoundTrip winner)
               (ratio (votesFor results winner) (length results))
               (length results)).
Proof.
  intros Hne Hdefined.
  assert (Hparse : forall key c, In (key, c) (countVotes results) -> 0 < c ->
            exists v, parseKey results key = Ok v).
  { intros key c Hin Hc. apply countVotes_entry in Hin. subst c.
    destruct (votesOfKey_witness results key) as (r0 & Hr0 & Hkey0); [lia|].
    destruct key as [text|]; [|by apply Hdefined in Hr0].
    destruct (parseKey_found results text) as (r & _ & _ & Hv); [by exists r0|].
    by exists (jsonRoundTrip r). }
  destruct (pickMajority_first results (countVotes results) JNull 0 Hparse)
    as [[_ Hall]|(pre & kw & cw & post & v & Hentries & Hcw & Hpre & Hpost & Hv & Hpick)].
  { destruct results as [|r0 rest]; [congruence|].
    assert (Hr0 : In r0 (r0 :: rest)) by (by left).
    pose proof (Hall _ _ (countVotes_has _ r0 Hr0)) as Hle.
    pose proof (votesOfKey_pos _ r0 Hr0). lia. }
  pose proof (countVotes_keys results) as Hkeys. rewrite Hentries in Hkeys.
  rewrite map_app in Hkeys. cbn [map fst] in Hkeys.
  destruct (firstKeys_split results _ _ _ (eq_sym Hkeys))
    as (before & winner & after & Hsplit & Hkey & Hbefore).
  destruct (countVotes_tally results) as [Hnd _].
  rewrite Hentries, map_app in Hnd. cbn [map fst] in Hnd.
  apply NoDup_remove_2 in Hnd.
  assert (Hcount : cw = votesFor results winner).
  { unfold votesFor. rewrite Hkey. apply countVotes_entry. rewrite Hentries.
    apply in_or_app. right. by left. }
  assert (Hearlier : forall x, In x before ->
            JSON_stringify x <> kw /\ votesFor results x < cw).
  { intros x Hx. pose proof (Hbefore x Hx) as Hin. apply list_elem_of_In in Hin.
    split.
    - intros Heq. apply Hnd. apply in_or_app. left. by rewrite <- Heq.
    - apply in_map_iff in Hin as ([k c] & Hk & Hin). cbn in Hk. subst k.
      pose proof (Hpre _ _ Hin) as Hlt.
      assert (Hc : c = votesOfKey results (JSON_stringify x)).
      { apply countVotes_entry. rewrite Hentries. apply in_or_app. by left. }
      unfold votesFor. lia. }
  exists (length before), winner. split; [|split; [|split]].
  - rewrite Hsplit. by apply list_lookup_middle.
  - intros r Hr. rewrite <- Hcount.
    pose proof (countVotes_has results r Hr) as Hin. rewrite Hentries in Hin.
    apply in_app_or in Hin as [Hin|[[= _ Heq]|Hin]].
    + apply Nat.lt_le_incl. by apply (Hpre (JSON_stringify r)).
    + by rewrite Heq.
    + by apply (Hpost (JSON_stringify r)).
  - intros j r Hj Hr. rewrite <- Hcount. apply Hearlier.
    rewrite Hsplit, lookup_app_l in Hr by exact Hj.
    apply list_elem_of_In. by apply list_elem_of_lookup_2 in Hr.
  - unfold aggregateByMajority. rewrite Hpick, <- Hcount. do 3 f_equal.
    unfold parseKey in Hv. destruct kw as [text|]; [|discriminate].
    rewrite <- Hkey, Hsplit, find_first_key in Hv; [by injection Hv|].
    intros x Hx. rewrite Hkey. by apply Hearlier.
Qed.

(** X29 for the votes a, b, b, a: two votes each, and a wins. *)
Lemma majority_tie_goes_to_first_witness :
  exists i winner,
    [sayA; sayB; sayB; sayA] !! i = Some winner
    /\ (forall j r, j < i -> [sayA; sayB; sayB; sayA] !! j = Some r ->
          votesFor [sayA; sayB; sayB; sayA] r < votesFor [sayA; sayB; sayB; sayA] winner)
    /\ aggregateByMajority [sayA; sayB; sayB; sayA]
       = Ok (mkMajorityResult (jsonRoundTrip winner)
               (ratio (votesFor [sayA; sayB; sayB; sayA] winner) 4) 4).
Proof.
  destruct (majority_tie_goes_to_first [sayA; sayB; sayB; sayA]
              ltac:(discriminate)
              ltac:(intros r [<- | [<- | [<- | [<- | []]]]]; discriminate))
    as (i & winner & Hat & _ & Hbefore & Hagg).
  exists i, winner. split; [exact Hat|]. split; [exact Hbefore|exact Hagg].
Defined.

(** ** Branches *)

Lemma unexpanded_visit (es : list WorkflowEdge) (V : gset string) (c : string) :
  c ∉ V ->
  unexpanded es V = unexpanded es ({[c]} ∪ V) + length (outgoingEdges es c).
Proof.
  intros Hc. unfold unexpanded, outgoingEdges.
  induction es as [|e es IH]; [reflexivity|]. cbn [List.filter].
  destruct (String.eqb_spec (source e) c) as [Heq|Hne].
  - rewrite bool_decide_eq_false_2 by (by rewrite Heq).
    rewrite bool_decide_eq_true_2
      by (rewrite Heq; apply elem_of_union_l, elem_of_singleton; reflexivity).
    cbn [negb length]. lia.
  - destruct (decide (source e ∈ V)) as [Hin|Hout].
    + rewrite !bool_decide_eq_true_2 by (try apply elem_of_union_r; exact Hin).
      cbn [negb]. exact IH.
    + rewrite !bool_decide_eq_false_2.
      * cbn [negb length]. lia.
      * intros [Hin%elem_of_singleton|Hin]%elem_of_union; [by apply Hne|by apply Hout].
      * exact Hout.
Qed.

Lemma traverseBranchFrom_total (w : Workflow) :
  forall fuel visited stack branch,
    length stack + unexpanded (edges w) visited < fuel ->
    exists r, traverseBranchFrom fuel w visited stack branch = Some r.
Proof.
  induction fuel as [|fuel IH]; intros visited stack branch Hlt; [lia|].
  cbn. destruct stack as [|c rest]; [by eexists|]. cbn [length] in Hlt.
  destruct (decide (c ∈ visited)) as [|Hfresh]; [apply IH; lia|].
  pose proof (unexpanded_visit (edges w) visited c Hfresh) as Hsplit.
  destruct (findNode (nodes w) c) as [node|]; [|apply IH; lia].
  apply IH. rewrite length_app, length_rev.
  match goal with
  | |- context [List.filter ?f (map target (outgoingEdges (edges w) c))] =>
      pose proof (List.filter_length_le f (map target (outgoingEdges (edges w) c))) as Hle
  end.
  rewrite length_map in Hle. lia.
Qed.

Lemma traverseBranch_run (w : Workflow) (startNodeId : string) (visited : gset string) :
  traverseBranchFrom (S (S (length (edges w)))) w visited [startNodeId] []
  = Some (traverseBranch w startNodeId visited).
Proof.
  unfold traverseBranch.
  destruct (traverseBranchFrom_total w (S (S (length (edges w)))) visited
              [startNodeId] []) as (r & ->); [|reflexivity].
  assert (Hle : unexpanded (edges w) visited <= length (edges w))
    by (unfold unexpanded; apply List.filter_length_le).
  cbn [length]. lia.
Qed.

(** What one traversal adds to the branch and to the visited set. *)
Lemma traverseBranchFrom_spec (w : Workflow) :
  forall fuel visited stack branch branch' visited',
    traverseBranchFrom fuel w visited stack branch = Some (branch', visited') ->
    exists new,
      branch' = branch ++ new
      /\ NoDup (map node_id new)
      /\ visited ⊆ visited'
      /\ (forall s, s ∈ stack -> s ∈ visited')
      /\ (forall n, n ∈ new ->
            (node_id n ∉ visited)
            /\ node_id n ∈ visited'
            /\ findNode (nodes w) (node_id n) = Some n
            /\ exists s, s ∈ stack /\ rtc (edgeRel (edges w)) s (node_id n))
      /\ (forall x n, x ∈ visited' -> findNode (nodes w) x = Some n ->
            x ∈ visited \/ n ∈ new)
      /\ (closedUnder w visited stack -> closedUnder w visited' []).
Proof.
  induction fuel as [|fuel IH]; intros visited stack branch branch' visited' Hrun;
    [discriminate|].
  cbn in Hrun. destruct stack as [|c rest].
  { injection Hrun as <- <-. exists []. rewrite app_nil_r.
    split; [reflexivity|]. split; [constructor|]. split; [reflexivity|].
    split; [intros s Hs; inversion Hs|]. split; [intros n Hn; inversion Hn|].
    split; [intros x n Hx _; by left|]. by intros Hclosed. }
  destruct (decide (c ∈ visited)) as [Hseen|Hfresh].
  - destruct (IH _ _ _ _ _ Hrun)
      as (new & Hbranch & Hnd & Hsub & Hstack & Hnew & Hfound & Hclosed).
    exists new. split; [exact Hbranch|]. split; [exact Hnd|]. split; [exact Hsub|].
    split; [|split; [|split]].
    + intros s [->|Hs]%elem_of_cons; [by apply Hsub|by apply Hstack].
    + intros n Hn. destruct (Hnew n Hn) as (Hout & Hin & Hnode & s & Hs & Hreach).
      split; [exact Hout|]. split; [exact Hin|]. split; [exact Hnode|].
      exists s. split; [by right|exact Hreach].
    + exact Hfound.
    + intros Hc. apply Hclosed. intros x y Hx Hknown Hedge.
      destruct (Hc x y Hx Hknown Hedge) as [Hy|[->|Hy]%elem_of_cons];
        [by left|by left|by right].
  - assert (Hc : c ∈ ({[c]} ∪ visited : gset string))
      by (apply elem_of_union_l, elem_of_singleton; reflexivity).
    destruct (findNode (nodes w) c) as [node|] eqn:Hnode.
    + destruct (IH _ _ _ _ _ Hrun)
        as (new & Hbranch & Hnd & Hsub & Hstack & Hnew & Hfound & Hclosed).
      destruct (findNode_elem _ _ _ Hnode) as [_ Hid].
      exists (node :: new). split; [by rewrite Hbranch, <- app_assoc|].
      split; [|split; [|split; [|split; [|split]]]].
      * cbn [map]. apply NoDup_cons. split; [|exact Hnd].
        intros Hin. apply list_elem_of_fmap in Hin as (n & Heq & Hn).
        destruct (Hnew n Hn) as (Hout & _). apply Hout. by rewrite <- Heq, Hid.
      * intros x Hx. apply Hsub. by apply elem_of_union_r.
      * intros s [->|Hs]%elem_of_cons; [by apply Hsub|].
        apply Hstack. apply elem_of_app. by right.
      * intros n [->|Hn]%elem_of_cons.
        -- rewrite Hid. split; [exact Hfresh|]. split; [by apply Hsub|].
           split; [exact Hnode|]. exists c. split; [by left|reflexivity].
        -- destruct (Hnew n Hn) as (Hout & Hin & Hfind & s & Hs & Hreach).
           split; [intros Hv; apply Hout; by apply elem_of_union_r|].
           split; [exact Hin|]. split; [exact Hfind|].
           apply elem_of_app in Hs as [Hs|Hs].
           ++ apply elem_of_rev, elem_of_pushed in Hs as [Hs _].
              exists c. split; [by left|].
              apply (rtc_l _ c s); [by apply edgeRel_outgoing|exact Hreach].
           ++ exists s. split; [by right|exact Hreach].
      * intros x n Hx Hfind.
        destruct (Hfound x n Hx Hfind) as [[Heq%elem_of_singleton|Hv]%elem_of_union|Hn].
        -- right. subst x. rewrite Hnode in Hfind. injection Hfind as ->. by left.
        -- by left.
        -- right. by right.
      * intros Hcl. apply Hclosed. intros x y Hx Hknown Hedge.
        apply elem_of_union in Hx as [Hx%elem_of_singleton|Hx].
        -- subst x. destruct (decide (y ∈ ({[c]} ∪ visited : gset string))) as [Hy|Hy];
             [by left|right].
           apply elem_of_app. left. apply elem_of_rev, elem_of_pushed.
           split; [by apply edgeRel_outgoing|exact Hy].
        -- destruct (Hcl x y Hx Hknown Hedge) as [Hy|[->|Hy]%elem_of_cons].
           ++ left. by apply elem_of_union_r.
           ++ by left.
           ++ right. apply elem_of_app. by right.
    + destruct (IH _ _ _ _ _ Hrun)
        as (new & Hbranch & Hnd & Hsub & Hstack & Hnew & Hfound & Hclosed).
      exists new. split; [exact Hbranch|]. split; [exact Hnd|].
      split; [|split; [|split; [|split]]].
      * intros x Hx. apply Hsub. by apply elem_of_union_r.
      * intros s [->|Hs]%elem_of_cons; [by apply Hsub|by apply Hstack].
      * intros n Hn. destruct (Hnew n Hn) as (Hout & Hin & Hfind & s & Hs & Hreach).
        split; [intros Hv; apply Hout; by apply elem_of_union_r|].
        split; [exact Hin|]. split; [exact Hfind|].
        exists s. split; [by right|exact Hreach].
      * intros x n Hx Hfind.
        destruct (Hfound x n Hx Hfind) as [[Heq%elem_of_singleton|Hv]%elem_of_union|Hn].
        -- subst x. congruence.
        -- by left.
        -- by right.
      * intros Hcl. apply Hclosed. intros x y Hx Hknown Hedge.
        apply elem_of_union in Hx as [Hx%elem_of_singleton|Hx].
        -- subst x. rewrite Hnode in Hknown. by destruct Hknown.
        -- destruct (Hcl x y Hx Hknown Hedge) as [Hy|[->|Hy]%elem_of_cons].
           ++ left. by apply elem_of_union_r.
           ++ by left.
           ++ by right.
Qed.

Lemma branchTurns_spec (w : Workflow) (currentNodeId : string) :
  forall groups branches visited,
    (forall t sources, In (t, sources) groups -> edgeRel (edges w) currentNodeId t) ->
    branchInvariant w currentNodeId branches visited ->
    let r := fold_left (branchTurn w) groups (branches, visited) in
    branchInvariant w currentNodeId (fst r) (snd r)
    /\ visited ⊆ snd r
    /\ forall t sources, In (t, sources) groups -> length sources = 1 -> t ∈ snd r.
Proof.
  induction groups as [|[t sources] groups IH]; intros branches visited Hedges Hinv.
  { cbn. split; [exact Hinv|]. split; [reflexivity|]. intros t sources []. }
  cbn [fold_left].
  assert (Hrest : forall t' sources', In (t', sources') groups ->
            edgeRel (edges w) currentNodeId t').
  { intros t' sources' Hin. apply (Hedges t' sources'). by right. }
  assert (Hturn : exists branches1 visited1,
            branchTurn w (branches, visited) (t, sources) = (branches1, visited1)
            /\ branchInvariant w currentNodeId branches1 visited1
            /\ visited ⊆ visited1
            /\ (length sources = 1 -> t ∈ visited1)).
  { unfold branchTurn. destruct (length sources =? 1) eqn:Hone.
    2:{ exists branches, visited. split; [reflexivity|]. split; [exact Hinv|].
        split; [reflexivity|]. intros Heq. rewrite Heq in Hone. discriminate. }
    pose proof (traverseBranch_run w t visited) as Hrun.
    destruct (traverseBranch w t visited) as [branch visited1].
    destruct (traverseBranchFrom_spec w _ _ _ _ _ _ Hrun)
      as (new & Hbranch & Hnd & Hsub & Hstack & Hnew & Hfound & Hclosed).
    cbn [app] in Hbranch. subst new.
    destruct Hinv as (Inodup & Ifull & Inodes & Iall & Iclosed).
    assert (Hclosed1 : closedUnder w visited1 []).
    { apply Hclosed. intros x y Hx Hknown Hedge.
      destruct (Iclosed x y Hx Hknown Hedge) as [Hy|Hy]; [by left|inversion Hy]. }
    assert (Hfresh : forall n, n ∈ branch ->
              node_id n ∈ visited1
              /\ findNode (nodes w) (node_id n) = Some n
              /\ tc (edgeRel (edges w)) currentNodeId (node_id n)).
    { intros n Hn. destruct (Hnew n Hn) as (_ & Hin & Hfind & s & Hs & Hreach).
      split; [exact Hin|]. split; [exact Hfind|].
      apply list_elem_of_singleton in Hs as ->.
      apply (tc_rtc_r _ t); [|exact Hreach].
      apply tc_once. apply (Hedges t sources). by left. }
    destruct (0 <? length branch) eqn:Hlen.
    - exists (branches ++ [branch]), visited1. split; [reflexivity|].
      split; [|split; [exact Hsub|intros _; apply Hstack; by left]].
      assert (Hcat : concat (branches ++ [branch]) = concat branches ++ branch)
        by (rewrite concat_app; cbn; by rewrite app_nil_r).
      unfold branchInvariant. rewrite Hcat. split; [|split; [|split; [|split]]].
      + rewrite map_app. apply NoDup_app. split; [exact Inodup|]. split; [|exact Hnd].
        intros x Hold Hnew'.
        apply list_elem_of_fmap in Hold as (n & -> & Hn).
        apply list_elem_of_fmap in Hnew' as (n' & Heq & Hn').
        destruct (Inodes n Hn) as (Hv & _). destruct (Hnew n' Hn') as (Hout & _).
        apply Hout. by rewrite <- Heq.
      + intros b [Hb|Hb%list_elem_of_singleton]%elem_of_app; [by apply Ifull|].
        subst b. intros ->. discriminate Hlen.
      + intros n [Hn|Hn]%elem_of_app; [|by apply Hfresh].
        destruct (Inodes n Hn) as (Hv & Hfind & Hreach).
        split; [by apply Hsub|]. by split.
      + intros x n Hx Hfind. apply elem_of_app.
        destruct (Hfound x n Hx Hfind) as [Hv|Hn]; [left; by apply (Iall x)|by right].
      + exact Hclosed1.
    - assert (Hempty : branch = []).
      { destruct branch; [reflexivity|discriminate Hlen]. }
      subst branch.
      exists branches, visited1. split; [reflexivity|].
      split; [|split; [exact Hsub|intros _; apply Hstack; by left]].
      split; [exact Inodup|]. split; [exact Ifull|]. split; [|split].
      + intros n Hn. destruct (Inodes n Hn) as (Hv & Hfind & Hreach).
        split; [by apply Hsub|]. by split.
      + intros x n Hx Hfind.
        destruct (Hfound x n Hx Hfind) as [Hv|Hn]; [by apply (Iall x)|inversion Hn].
      + exact Hclosed1. }
  destruct Hturn as (branches1 & visited1 & -> & Hinv1 & Hsub1 & Hone).
  destruct (IH branches1 visited1 Hrest Hinv1) as (Hfinal & Hsub & Hsingle).
  split; [exact Hfinal|]. split; [by etrans|].
  intros t' sources' [[= -> ->]|Hin] Hlen; [apply Hsub; by apply Hone|].
  by apply (Hsingle t' sources').
Qed.

Lemma mapGet_set_eq {V : Type} (k : string) (v : V) (m : list (string * V)) :
  mapGet k (mapSet k v m) = Some v.
Proof.
  induction m as [|[k' v'] m IH]; simpl.
  - by rewrite decide_True.
  - destruct (decide (k = k')) as [->|Hne]; simpl.
    + by rewrite decide_True.
    + by rewrite decide_False.
Qed.

Lemma mapGet_set_ne {V : Type} (k k0 : string) (v : V) (m : list (string * V)) :
  k0 <> k -> mapGet k0 (mapSet k v m) = mapGet k0 m.
Proof.
  intros Hne. induction m as [|[k' v'] m IH]; simpl.
  - by rewrite decide_False.
  - destruct (decide (k = k')) as [->|Hne']; simpl.
    + by rewrite !decide_False.
    + destruct (decide (k0 = k')); [reflexivity|exact IH].
Qed.

Lemma mapGet_elem {V : Type} (k : string) (v : V) (m : list (string * V)) :
  mapGet k m = Some v -> In (k, v) m.
Proof.
  induction m as [|[k' v'] m IH]; simpl; [discriminate|].
  destruct (decide (k = k')) as [->|Hne].
  - intros [= ->]. by left.
  - intros H. right. by apply IH.
Qed.

Lemma mapSet_elem {V : Type} (k k0 : string) (v v0 : V) (m : list (string * V)) :
  In (k0, v0) (mapSet k v m) -> k0 = k \/ In (k0, v0) m.
Proof.
  induction m as [|[k' v'] m IH]; simpl.
  - intros [[= <- <-]|[]]. by left.
  - destruct (decide (k = k')) as [->|Hne]; simpl.
    + intros [[= <- <-]|Hin]; [by left|right; by right].
    + intros [Heq|Hin]; [right; by left|].
      destruct (IH Hin) as [->|Hin']; [by left|right; by right].
Qed.

Lemma edgeGroupsOf_snoc (done : list WorkflowEdge) (e : WorkflowEdge) :
  edgeGroupsOf (done ++ [e])
  = mapSet (target e)
      (match mapGet (target e) (edgeGroupsOf done) with
       | Some sources => sources
       | None => []
       end ++ [source e])
      (match mapGet (target e) (edgeGroupsOf done) with
       | Some _ => edgeGroupsOf done
       | None => mapSet (target e) [] (edgeGroupsOf done)
       end).
Proof.
  unfold edgeGroupsOf. rewrite fold_left_app. cbn [fold_left].
  set (groups := fold_left _ done []).
  destruct (mapGet (target e) groups) as [sources|] eqn:Hget.
  - by rewrite Hget.
  - by rewrite mapGet_set_eq.
Qed.

(** The groups are the targets of the edges, each with as many sources as
    there are edges to it. *)
Lemma edgeGroupsOf_spec (outgoing : list WorkflowEdge) :
  (forall t sources, In (t, sources) (edgeGroupsOf outgoing) ->
     exists e, e ∈ outgoing /\ target e = t)
  /\ forall t, groupSize (edgeGroupsOf outgoing) t
               = length (List.filter (fun e => String.eqb (target e) t) outgoing).
Proof.
  induction outgoing as [|e done [IHkeys IHsize]] using rev_ind.
  { split; [intros t sources []|reflexivity]. }
  rewrite edgeGroupsOf_snoc. split.
  - intros t sources Hin. apply mapSet_elem in Hin as [->|Hin].
    { exists e. split; [|reflexivity]. apply elem_of_app. right. by left. }
    assert (Hold : t = target e \/ In (t, sources) (edgeGroupsOf done)).
    { destruct (mapGet (target e) (edgeGroupsOf done)); [by right|].
      by apply mapSet_elem in Hin. }
    destruct Hold as [->|Hold].
    + exists e. split; [|reflexivity]. apply elem_of_app. right. by left.
    + destruct (IHkeys t sources Hold) as (e' & He' & Ht).
      exists e'. split; [|exact Ht]. apply elem_of_app. by left.
  - intros t. rewrite List.filter_app, length_app. cbn [List.filter].
    unfold groupSize. destruct (String.eqb_spec (target e) t) as [<-|Hne].
    + rewrite mapGet_set_eq, length_app. cbn [length].
      specialize (IHsize (target e)). unfold groupSize in IHsize.
      destruct (mapGet (target e) (edgeGroupsOf done)); cbn [length] in *; lia.
    + rewrite mapGet_set_ne by congruence. cbn [length]. rewrite Nat.add_0_r.
      rewrite <- IHsize. unfold groupSize.
      destruct (mapGet (target e) (edgeGroupsOf done)); [reflexivity|].
      by rewrite mapGet_set_ne by congruence.
Qed.

Lemma closedUnder_reach (w : Workflow) (visited : gset string) (t y : string) :
  closedUnder w visited [] -> t ∈ visited -> rtc (throughNodes w) t y -> y ∈ visited.
Proof.
  intros Hclosed Ht Hreach. induction Hreach as [x|x z y [Hedge Hknown] _ IH];
    [exact Ht|].
  apply IH. destruct (Hclosed x z Ht Hknown Hedge) as [Hz|Hz]; [exact Hz|inversion Hz].
Qed.

(** X30.  The branches that [findIndependentBranches] returns share no node,
    and none holds a node twice or is empty; their nodes are nodes of the
    workflow that the current node leads to.  When the current node has two
    outgoing edges or more, every node of the workflow that is reached,
    through nodes of the workflow, from a target joined to the current node
    by exactly one edge is in one of the branches.  With one outgoing edge
    or none there is no branch. *)
Theorem findIndependentBranches_spec (w : Workflow) (currentNodeId : string) :
  NoDup (map node_id (concat (findIndependentBranches w currentNodeId)))
  /\ (forall b, b ∈ findIndependentBranches w currentNodeId -> b <> [])
  /\ (forall n, n ∈ concat (findIndependentBranches w currentNodeId) ->
        findNode (nodes w) (node_id n) = Some n
        /\ tc (edgeRel (edges w)) currentNodeId (node_id n))
  /\ (forall t y n,
        2 <= length (outgoingEdges (edges w) currentNodeId) ->
        edgesTo (edges w) currentNodeId t = 1 ->
        rtc (throughNodes w) t y ->
        findNode (nodes w) y = Some n ->
        n ∈ concat (findIndependentBranches w currentNodeId))
  /\ (length (outgoingEdges (edges w) currentNodeId) <= 1 ->
      findIndependentBranches w currentNodeId = []).
Proof.
  unfold findIndependentBranches.
  set (outgoing := outgoingEdges (edges w) currentNodeId).
  destruct (length outgoing <=? 1) eqn:Hfew.
  { apply Nat.leb_le in Hfew. split; [constructor|].
    split; [intros b Hb; inversion Hb|]. split; [intros n Hn; inversion Hn|].
    split; [intros; lia|reflexivity]. }
  apply Nat.leb_gt in Hfew.
  destruct (edgeGroupsOf_spec outgoing) as [Hkeys Hsize].
  assert (Hedges : forall t sources, In (t, sources) (edgeGroupsOf outgoing) ->
            edgeRel (edges w) currentNodeId t).
  { intros t sources Hin. destruct (Hkeys t sources Hin) as (e & He & Ht).
    apply outgoingEdges_elem in He as [He Hs]. by exists e. }
  assert (Hstart : branchInvariant w currentNodeId [] ∅).
  { split; [constructor|]. split; [intros b Hb; inversion Hb|].
    split; [intros n Hn; inversion Hn|]. split; [intros x n Hx; inversion Hx|].
    intros x y Hx. inversion Hx. }
  destruct (branchTurns_spec w currentNodeId (edgeGroupsOf outgoing) [] ∅ Hedges Hstart)
    as ((Inodup & Ifull & Inodes & Iall & Iclosed) & _ & Hsingle).
  split; [exact Inodup|]. split; [exact Ifull|]. split; [|split; [|lia]].
  - intros n Hn. by destruct (Inodes n Hn) as (_ & Hfind & Hreach).
  - intros t y n _ Hone Hreach Hfind. apply (Iall y); [|exact Hfind].
    apply (closedUnder_reach w _ t y Iclosed); [|exact Hreach].
    specialize (Hsize t). unfold edgesTo in Hone. fold outgoing in Hone.
    rewrite Hone in Hsize. unfold groupSize in Hsize.
    destruct (mapGet t (edgeGroupsOf outgoing)) as [sources|] eqn:Hget; [|discriminate].
    apply (Hsingle t sources); [by apply mapGet_elem|exact Hsize].
Qed.
